(** * Zpng: filter layer and codec facade of [zpng.cpp]

    A shallow embedding of the lossless image codec of [src/zpng.cpp]:
    the intra filters ([PackAndFilter], its RGB, RGBA and Bayer XGGY
    forms), the inter filter ([PackAndFilterVideo]) with its overflow
    escape, their inverses, and the facade functions
    [ZPNG_CompressVideoToBuffer] and [ZPNG_DecompressVideo].

    Bytes are integers in [0, 256) with the wrap-around of [uint8_t]
    written out; [unsigned] arithmetic wraps modulo [2^32]; a buffer is
    the list of its bytes and a pointer into it is an offset.  An access
    outside a buffer is undefined behaviour in C and is the outcome
    [Fault] here. *)

From Stdlib Require Import ZArith List Lia Bool.
From stdpp Require Import base list.

(** ** Machine arithmetic *)

Definition u8 (x : Z) : Z := (x mod 256)%Z.
Definition u16 (x : Z) : Z := (x mod 65536)%Z.
Definition u32 (x : Z) : Z := (x mod 4294967296)%Z.

(** [(int8_t)x] read back as an [int]. *)
Definition s8 (x : Z) : Z :=
  if (u8 x <? 128)%Z then u8 x else (u8 x - 256)%Z.

Definition is_byte (x : Z) : Prop := (0 <= x < 256)%Z.

(** ** Control flow

    A statement falls through to the next one, executes [return], or
    touches memory outside a buffer. *)

Inductive outcome (S R : Type) : Type :=
| Next (s : S)
| Exit (r : R)
| Fault.
Arguments Next {S R} s.
Arguments Exit {S R} r.
Arguments Fault {S R}.

Definition bind {S T R} (m : outcome S R) (f : S -> outcome T R)
  : outcome T R :=
  match m with
  | Next s => f s
  | Exit r => Exit r
  | Fault => Fault
  end.

Notation "'do' x <- m ; f" := (bind m (fun x => f))
  (at level 10, x pattern, m at level 100, f at level 200).

(** [for (i = start; ...; ++i)] executed [n] times. *)
Fixpoint for_from {S R} (n i : nat) (body : nat -> S -> outcome S R) (s : S)
  : outcome S R :=
  match n with
  | O => Next s
  | Datatypes.S n' =>
      do s' <- body i s;
      for_from n' (Datatypes.S i) body s'
  end.

(** [for (i = 0; i < n; ++i) body] *)
Definition for_loop {S R} (n : nat) (body : nat -> S -> outcome S R) (s : S)
  : outcome S R :=
  for_from n 0 body s.

(** [for (x = 0; x < n; x += 2) body]: the body runs for
    [x = 0, 2, 4, ...], that is [(n + 1) / 2] times. *)
Definition for_loop2 {S R} (n : nat) (body : nat -> S -> outcome S R) (s : S)
  : outcome S R :=
  for_from (Nat.div2 (n + 1)) 0 (fun j => body (2 * j)) s.

(** ** Memory *)

(** [p[i]] as an rvalue. *)
Definition load {R} (p : list Z) (i : nat) : outcome Z R :=
  match p !! i with
  | Some v => Next v
  | None => Fault
  end.

(** [p[i] = v] *)
Definition store {R} (p : list Z) (i : nat) (v : Z) : outcome (list Z) R :=
  if (i <? length p)%nat then Next (<[i:=v]> p) else Fault.

(** [calloc(1, n)] when it succeeds. *)
Definition zeroed (n : Z) : list Z := replicate (Z.to_nat n) 0%Z.

(** [memcpy]-like write of [src] at offset [off] of [dst]; the caller has
    checked that it fits. *)
Definition write_at (off : nat) (src dst : list Z) : list Z :=
  take off dst ++ src ++ drop (off + length src) dst.

(** ** Data model *)

(** Modelled from the spec: [zpng.h] with the declarations of
    [ZPNG_Buffer] and [ZPNG_ImageData] is not part of the sources; the
    fields are those the code uses.  [Data = None] is the null pointer. *)
Record ZPNG_Buffer : Type := {
  Data : option (list Z);
  Bytes : Z
}.

Record ZPNG_ImageData : Type := {
  Buffer : ZPNG_Buffer;
  BytesPerChannel : Z;
  Channels : Z;
  WidthPixels : Z;
  HeightPixels : Z;
  StrideBytes : Z;
  IsIFrame : Z
}.

(** The bytes a data pointer gives access to; none behind a null pointer. *)
Definition region (b : ZPNG_Buffer) : list Z :=
  match Data b with
  | Some l => l
  | None => []
  end.

Definition ZPNG_HEADER_MAGIC : Z := 0xFBF8.
Definition ZPNG_VIDEO_HEADER_MAGIC : Z := 0xF8FB.
Definition ZPNG_HEADER_OVERHEAD_BYTES : Z := 8.

(** ** Intra filter, generic in the channel count *)

Definition PackAndFilter_generic {R} (kChannels : nat)
    (imageData : ZPNG_ImageData) (output : list Z) : outcome (list Z) R :=
  let height := Z.to_nat (HeightPixels imageData) in
  let width := Z.to_nat (WidthPixels imageData) in
  let input := region (Buffer imageData) in
  do (_, _, mem) <-
    for_loop height (fun y '(inp, outp, mem) =>
      let prev := replicate kChannels 0%Z in
      do (inp, outp, _, mem) <-
        for_loop width (fun x '(inp, outp, prev, mem) =>
          do (prev, mem) <-
            for_loop kChannels (fun i '(prev, mem) =>
              do a <- load input (inp + i);
              do p <- load prev i;
              let d := u8 (a - p) in
              do mem <- store mem (outp + i) d;
              do prev <- store prev i a;
              Next (prev, mem)) (prev, mem);
          Next (inp + kChannels, outp + kChannels, prev, mem))
        (inp, outp, prev, mem);
      Next (inp, outp, mem))
    (0, 0, output);
  Next mem.

Definition UnpackAndUnfilter_generic {R} (kChannels : nat)
    (input : list Z) (imageData : ZPNG_ImageData) : outcome (list Z) R :=
  let height := Z.to_nat (HeightPixels imageData) in
  let width := Z.to_nat (WidthPixels imageData) in
  let output := region (Buffer imageData) in
  do (_, _, mem) <-
    for_loop height (fun y '(inp, outp, mem) =>
      let prev := replicate kChannels 0%Z in
      do (inp, outp, _, mem) <-
        for_loop width (fun x '(inp, outp, prev, mem) =>
          do (prev, mem) <-
            for_loop kChannels (fun i '(prev, mem) =>
              do d <- load input (inp + i);
              do p <- load prev i;
              let a := u8 (d + p) in
              do mem <- store mem (outp + i) a;
              do prev <- store prev i a;
              Next (prev, mem)) (prev, mem);
          Next (inp + kChannels, outp + kChannels, prev, mem))
        (inp, outp, prev, mem);
      Next (inp, outp, mem))
    (0, 0, output);
  Next mem.

(** ** Intra filter for Bayer mosaics (XGGY) *)

Definition PackAndFilterXGGY {R} (imageData : ZPNG_ImageData)
    (output : list Z) : outcome (list Z) R :=
  let height := Z.to_nat (HeightPixels imageData) in
  let width := Z.to_nat (WidthPixels imageData) in
  let input := region (Buffer imageData) in
  (* Color plane split *)
  let planeBytes :=
    (u32 (WidthPixels imageData * HeightPixels imageData) / 4)%Z in
  let output_r := 0 in
  let output_b := Z.to_nat planeBytes in
  let output_g := Z.to_nat (u32 (planeBytes * 2)) in
  do (_, _, _, _, mem) <-
    for_loop2 height (fun row '(inp, output_r, output_b, output_g, mem) =>
      let prev := (0%Z, 0%Z) in
      (* even *)
      do (inp, output_r, output_g, _, mem) <-
        for_loop2 width (fun x '(inp, output_r, output_g, (prev0, prev1), mem) =>
          do in0 <- load input inp;
          do in1 <- load input (inp + 1);
          let r := u8 (in0 - prev0) in
          let g := u8 (in1 - prev1) in
          do mem <- store mem output_r r;
          do mem <- store mem output_g g;
          Next (inp + 2, output_r + 1, output_g + 1, (in0, in1), mem))
        (inp, output_r, output_g, prev, mem);
      let prev := (0%Z, 0%Z) in
      (* odd *)
      do (inp, output_b, output_g, _, mem) <-
        for_loop2 width (fun x '(inp, output_b, output_g, (prev0, prev1), mem) =>
          do in0 <- load input inp;
          do in1 <- load input (inp + 1);
          let g := u8 (in0 - prev0) in
          let b := u8 (in1 - prev1) in
          do mem <- store mem output_b b;
          do mem <- store mem output_g g;
          Next (inp + 2, output_b + 1, output_g + 1, (in0, in1), mem))
        (inp, output_b, output_g, prev, mem);
      Next (inp, output_r, output_b, output_g, mem))
    (0, output_r, output_b, output_g, output);
  Next mem.

Definition UnpackAndUnfilterXGGY {R} (input : list Z)
    (imageData : ZPNG_ImageData) : outcome (list Z) R :=
  let height := Z.to_nat (HeightPixels imageData) in
  let width := Z.to_nat (WidthPixels imageData) in
  let output := region (Buffer imageData) in
  (* Color plane split *)
  let planeBytes :=
    (u32 (WidthPixels imageData * HeightPixels imageData) / 4)%Z in
  let input_r := 0 in
  let input_b := Z.to_nat planeBytes in
  let input_g := Z.to_nat (u32 (planeBytes * 2)) in
  do (_, _, _, _, mem) <-
    for_loop2 height (fun y '(input_r, input_b, input_g, outp, mem) =>
      let prev := (0%Z, 0%Z) in
      (* even *)
      do (input_r, input_g, outp, _, mem) <-
        for_loop2 width (fun x '(input_r, input_g, outp, (prev0, prev1), mem) =>
          do r <- load input input_r;
          do g <- load input input_g;
          let r := u8 (r + prev0) in
          let g := u8 (g + prev1) in
          do mem <- store mem outp r;
          do mem <- store mem (outp + 1) g;
          Next (input_r + 1, input_g + 1, outp + 2, (r, g), mem))
        (input_r, input_g, outp, prev, mem);
      let prev := (0%Z, 0%Z) in
      (* odd *)
      do (input_b, input_g, outp, _, mem) <-
        for_loop2 width (fun x '(input_b, input_g, outp, (prev0, prev1), mem) =>
          do g <- load input input_g;
          do b <- load input input_b;
          let g := u8 (g + prev0) in
          let b := u8 (b + prev1) in
          do mem <- store mem outp g;
          do mem <- store mem (outp + 1) b;
          Next (input_b + 1, input_g + 1, outp + 2, (g, b), mem))
        (input_b, input_g, outp, prev, mem);
      Next (input_r, input_b, input_g, outp, mem))
    (input_r, input_b, input_g, 0, output);
  Next mem.

(** ** Inter filter: delta against a reference frame *)

(** The value of a called function: what it returned, or its state when
    control reached the end of its body. *)
Definition call {A R} (m : outcome A A) : outcome A R :=
  match m with
  | Next a => Next a
  | Exit a => Next a
  | Fault => Fault
  end.

(** Returns the number of overflow bytes, or [-1], and the memory behind
    [output]. *)
Definition PackAndFilterVideo {R} (kChannels : nat)
    (refData imageData : ZPNG_ImageData) (output : list Z)
  : outcome (Z * list Z) R :=
  let height := Z.to_nat (HeightPixels imageData) in
  let width := Z.to_nat (WidthPixels imageData) in
  let input := region (Buffer imageData) in
  let ref := region (Buffer refData) in
  let outStart := 0 in
  let overflow :=
    Z.to_nat (u32 (HeightPixels imageData * WidthPixels imageData
                   * Z.of_nat kChannels)) in
  call (
    do (_, _, _, _, overflowCount, mem) <-
      for_loop height (fun y st =>
        for_loop width (fun x '(refp, inp, outp, overflow, overflowCount, mem) =>
          do (overflow, overflowCount, mem) <-
            for_loop kChannels (fun i '(overflow, overflowCount, mem) =>
              do a <- load input (inp + i);
              do r <- load ref (refp + i);
              let diff := (a - r)%Z in
              if ((diff >? 127) || (diff <? -127))%Z then
                if (overflowCount =? 1000)%Z then
                  do mem <- PackAndFilterXGGY imageData mem;
                  Exit ((-1)%Z, mem)
                else
                  do mem <- store mem (outp + i) 0x80%Z;
                  do mem <- store mem overflow a;
                  Next (overflow + 1, (overflowCount + 1)%Z, mem)
              else
                do mem <- store mem (outp + i) (u8 diff);
                Next (overflow, overflowCount, mem))
            (overflow, overflowCount, mem);
          Next (refp + kChannels, inp + kChannels, outp + kChannels,
                overflow, overflowCount, mem))
        st)
      (0, 0, outStart, overflow, 0%Z, output);
    Exit (overflowCount, mem)).

Definition UnpackAndUnfilterVideo {R} (kChannels : nat)
    (refData : ZPNG_ImageData) (input : list Z) (imageData : ZPNG_ImageData)
  : outcome (list Z) R :=
  let height := Z.to_nat (HeightPixels imageData) in
  let width := Z.to_nat (WidthPixels imageData) in
  let ref := region (Buffer refData) in
  let output := region (Buffer imageData) in
  let overflow :=
    Z.to_nat (u32 (HeightPixels imageData * WidthPixels imageData
                   * Z.of_nat kChannels)) in
  do (_, _, _, _, mem) <-
    for_loop height (fun y st =>
      for_loop width (fun x '(refp, inp, outp, overflow, mem) =>
        do (overflow, mem) <-
          for_loop kChannels (fun i '(overflow, mem) =>
            do d <- load input (inp + i);
            if (d =? 0x80)%Z then
              do v <- load input overflow;
              do mem <- store mem (outp + i) v;
              Next (overflow + 1, mem)
            else
              do r <- load ref (refp + i);
              do mem <- store mem (outp + i) (u8 (r + d));
              Next (overflow, mem))
          (overflow, mem);
        Next (refp + kChannels, inp + kChannels, outp + kChannels,
              overflow, mem))
      st)
    (0, 0, 0, overflow, output);
  Next mem.

(** ** Intra filter, RGB and RGBA specializations *)

Definition PackAndFilter_3 {R} (imageData : ZPNG_ImageData)
    (output : list Z) : outcome (list Z) R :=
  let kChannels := 3 in
  let height := Z.to_nat (HeightPixels imageData) in
  let width := Z.to_nat (WidthPixels imageData) in
  let input := region (Buffer imageData) in
  (* Color plane split *)
  let planeBytes := u32 (WidthPixels imageData * HeightPixels imageData) in
  let output_y := 0 in
  let output_u := Z.to_nat planeBytes in
  let output_v := Z.to_nat (u32 (planeBytes * 2)) in
  do (_, _, _, _, mem) <-
    for_loop height (fun row '(inp, output_y, output_u, output_v, mem) =>
      let prev := (0%Z, 0%Z, 0%Z) in
      do (inp, output_y, output_u, output_v, _, mem) <-
        for_loop width
          (fun x '(inp, output_y, output_u, output_v, (prev0, prev1, prev2), mem) =>
            do in0 <- load input inp;
            do in1 <- load input (inp + 1);
            do in2 <- load input (inp + 2);
            let r := u8 (in0 - prev0) in
            let g := u8 (in1 - prev1) in
            let b := u8 (in2 - prev2) in
            (* GB-RG filter from BCIF *)
            let y := b in
            let u := u8 (g - b) in
            let v := u8 (g - r) in
            do mem <- store mem output_y y;
            do mem <- store mem output_u u;
            do mem <- store mem output_v v;
            Next (inp + kChannels, output_y + 1, output_u + 1, output_v + 1,
                  (in0, in1, in2), mem))
          (inp, output_y, output_u, output_v, prev, mem);
      Next (inp, output_y, output_u, output_v, mem))
    (0, output_y, output_u, output_v, output);
  Next mem.

Definition UnpackAndUnfilter_3 {R} (input : list Z)
    (imageData : ZPNG_ImageData) : outcome (list Z) R :=
  let kChannels := 3 in
  let height := Z.to_nat (HeightPixels imageData) in
  let width := Z.to_nat (WidthPixels imageData) in
  let output := region (Buffer imageData) in
  (* Color plane split *)
  let planeBytes := u32 (WidthPixels imageData * HeightPixels imageData) in
  let input_y := 0 in
  let input_u := Z.to_nat planeBytes in
  let input_v := Z.to_nat (u32 (planeBytes * 2)) in
  do (_, _, _, _, mem) <-
    for_loop height (fun row '(input_y, input_u, input_v, outp, mem) =>
      let prev := (0%Z, 0%Z, 0%Z) in
      do (input_y, input_u, input_v, outp, _, mem) <-
        for_loop width
          (fun x '(input_y, input_u, input_v, outp, (prev0, prev1, prev2), mem) =>
            do y <- load input input_y;
            do u <- load input input_u;
            do v <- load input input_v;
            (* GB-RG filter from BCIF *)
            let B := y in
            let G := u8 (u + B) in
            let r := u8 (u8 (G - v) + prev0) in
            let g := u8 (G + prev1) in
            let b := u8 (B + prev2) in
            do mem <- store mem outp r;
            do mem <- store mem (outp + 1) g;
            do mem <- store mem (outp + 2) b;
            Next (input_y + 1, input_u + 1, input_v + 1, outp + kChannels,
                  (r, g, b), mem))
          (input_y, input_u, input_v, outp, prev, mem);
      Next (input_y, input_u, input_v, outp, mem))
    (input_y, input_u, input_v, 0, output);
  Next mem.

(** Version for RGBA (with alpha). *)
Definition PackAndFilter_4 {R} (imageData : ZPNG_ImageData)
    (output : list Z) : outcome (list Z) R :=
  let kChannels := 4 in
  let height := Z.to_nat (HeightPixels imageData) in
  let width := Z.to_nat (WidthPixels imageData) in
  let input := region (Buffer imageData) in
  (* Color plane split *)
  let planeBytes := u32 (WidthPixels imageData * HeightPixels imageData) in
  let output_y := 0 in
  let output_u := Z.to_nat planeBytes in
  let output_v := Z.to_nat (u32 (planeBytes * 2)) in
  let output_a := Z.to_nat (u32 (planeBytes * 3)) in
  do (_, _, _, _, _, mem) <-
    for_loop height
      (fun row '(inp, output_y, output_u, output_v, output_a, mem) =>
        let prev := (0%Z, 0%Z, 0%Z, 0%Z) in
        do (inp, output_y, output_u, output_v, output_a, _, mem) <-
          for_loop width
            (fun x '(inp, output_y, output_u, output_v, output_a,
                     (prev0, prev1, prev2, prev3), mem) =>
              do in0 <- load input inp;
              do in1 <- load input (inp + 1);
              do in2 <- load input (inp + 2);
              do in3 <- load input (inp + 3);
              let r := u8 (in0 - prev0) in
              let g := u8 (in1 - prev1) in
              let b := u8 (in2 - prev2) in
              let a := u8 (in3 - prev3) in
              (* GB-RG filter from BCIF *)
              let y := b in
              let u := u8 (g - b) in
              let v := u8 (g - r) in
              do mem <- store mem output_y y;
              do mem <- store mem output_u u;
              do mem <- store mem output_v v;
              do mem <- store mem output_a a;
              Next (inp + kChannels, output_y + 1, output_u + 1,
                    output_v + 1, output_a + 1, (in0, in1, in2, in3), mem))
            (inp, output_y, output_u, output_v, output_a, prev, mem);
        Next (inp, output_y, output_u, output_v, output_a, mem))
      (0, output_y, output_u, output_v, output_a, output);
  Next mem.

Definition UnpackAndUnfilter_4 {R} (input : list Z)
    (imageData : ZPNG_ImageData) : outcome (list Z) R :=
  let kChannels := 4 in
  let height := Z.to_nat (HeightPixels imageData) in
  let width := Z.to_nat (WidthPixels imageData) in
  let output := region (Buffer imageData) in
  (* Color plane split *)
  let planeBytes := u32 (WidthPixels imageData * HeightPixels imageData) in
  let input_y := 0 in
  let input_u := Z.to_nat planeBytes in
  let input_v := Z.to_nat (u32 (planeBytes * 2)) in
  let input_a := Z.to_nat (u32 (planeBytes * 3)) in
  do (_, _, _, _, _, mem) <-
    for_loop height
      (fun row '(input_y, input_u, input_v, input_a, outp, mem) =>
        let prev := (0%Z, 0%Z, 0%Z, 0%Z) in
        do (input_y, input_u, input_v, input_a, outp, _, mem) <-
          for_loop width
            (fun x '(input_y, input_u, input_v, input_a, outp,
                     (prev0, prev1, prev2, prev3), mem) =>
              do y <- load input input_y;
              do u <- load input input_u;
              do v <- load input input_v;
              do a <- load input input_a;
              (* GB-RG filter from BCIF *)
              let B := y in
              let G := u8 (u + B) in
              let r := u8 (u8 (G - v) + prev0) in
              let g := u8 (G + prev1) in
              let b := u8 (B + prev2) in
              let a := u8 (a + prev3) in
              do mem <- store mem outp r;
              do mem <- store mem (outp + 1) g;
              do mem <- store mem (outp + 2) b;
              do mem <- store mem (outp + 3) a;
              Next (input_y + 1, input_u + 1, input_v + 1, input_a + 1,
                    outp + kChannels, (r, g, b, a), mem))
            (input_y, input_u, input_v, input_a, outp, prev, mem);
        Next (input_y, input_u, input_v, input_a, outp, mem))
      (input_y, input_u, input_v, input_a, 0, output);
  Next mem.

(** The template [PackAndFilter<kChannels>] with its two explicit
    specializations. *)
Definition PackAndFilter {R} (kChannels : nat) (imageData : ZPNG_ImageData)
    (output : list Z) : outcome (list Z) R :=
  match kChannels with
  | 3 => PackAndFilter_3 imageData output
  | 4 => PackAndFilter_4 imageData output
  | _ => PackAndFilter_generic kChannels imageData output
  end.

Definition UnpackAndUnfilter {R} (kChannels : nat) (input : list Z)
    (imageData : ZPNG_ImageData) : outcome (list Z) R :=
  match kChannels with
  | 3 => UnpackAndUnfilter_3 input imageData
  | 4 => UnpackAndUnfilter_4 input imageData
  | _ => UnpackAndUnfilter_generic kChannels input imageData
  end.

(** ** The surroundings of the codec

    The entropy coder (zstd) and the allocator are external.  The codec
    is a function of them: [calloc_ok n] tells whether [calloc(1, n)]
    returns memory; the [ZSTD_] functions return [None] where
    [ZSTD_isError] holds of the C result, and [ZDICT_train] returns
    [None] where [ZDICT_trainFromBuffer_cover] reports an error.  The laws
    are zstd's contract: a result fits the capacity it was given,
    [ZSTD_compress] succeeds when the capacity reaches
    [ZSTD_compressBound], and [ZSTD_decompress] gives back what
    [ZSTD_compress] compressed.  Nothing is assumed of what
    [ZSTD_decompress], which is given no dictionary, makes of a frame
    compressed with one, nor that compression with a dictionary
    succeeds. *)

Record Runtime : Type := {
  calloc_ok : Z -> bool;
  ZSTD_compressBound : Z -> Z;
  (* dstCapacity, src *)
  ZSTD_compress : Z -> list Z -> option (list Z);
  (* dstCapacity, src, dictionary *)
  ZSTD_compress_usingCDict : Z -> list Z -> list Z -> option (list Z);
  (* samples, size of each sample, number of samples: the dictionary of
     [ZDICT_trainFromBuffer_cover] passed through [ZSTD_createCDict] *)
  ZDICT_train : list Z -> Z -> Z -> option (list Z);
  (* dstCapacity, src *)
  ZSTD_decompress : Z -> list Z -> option (list Z);

  ZSTD_compressBound_ge : forall n : Z,
    (0 <= n)%Z -> (n <= ZSTD_compressBound n)%Z;
  ZSTD_compress_fits : forall cap src c,
    ZSTD_compress cap src = Some c -> (Z.of_nat (length c) <= cap)%Z;
  ZSTD_compress_bound : forall cap src,
    (ZSTD_compressBound (Z.of_nat (length src)) <= cap)%Z ->
    exists c, ZSTD_compress cap src = Some c;
  ZSTD_compress_usingCDict_fits : forall cap src dict c,
    ZSTD_compress_usingCDict cap src dict = Some c ->
    (Z.of_nat (length c) <= cap)%Z;
  ZSTD_decompress_fits : forall cap c d,
    ZSTD_decompress cap c = Some d -> (Z.of_nat (length d) <= cap)%Z;
  ZSTD_decompress_compress : forall cap src c dcap,
    ZSTD_compress cap src = Some c ->
    (Z.of_nat (length src) <= dcap)%Z ->
    ZSTD_decompress dcap c = Some src
}.

(** ** File format header *)

Record ZPNG_Header : Type := {
  Magic : Z;
  Width : Z;
  Height : Z;
  HChannels : Z;
  HBytesPerChannel : Z
}.

(** The eight bytes of a [ZPNG_Header] in memory, little-endian. *)
Definition header_bytes (h : ZPNG_Header) : list Z :=
  [ u8 (Magic h); u8 (Magic h / 256);
    u8 (Width h); u8 (Width h / 256);
    u8 (Height h); u8 (Height h / 256);
    HChannels h; HBytesPerChannel h ].

(** A [uint16_t] field at offset [i]. *)
Definition load16 {R} (p : list Z) (i : nat) : outcome Z R :=
  do lo <- load p i;
  do hi <- load p (i + 1);
  Next (lo + 256 * hi)%Z.

(** ** API *)

(** The dictionary argument is a pointer to a slot: [None] is a null
    pointer, [Some None] an empty slot. *)
Abbreviation dictionary_slot := (option (option (list Z))) (only parsing).

Section API.
Local Open Scope Z_scope.

Variable rt : Runtime.

Definition run {A} (m : outcome A A) : option A :=
  match m with
  | Next a => Some a
  | Exit a => Some a
  | Fault => None
  end.

Definition non_null {A} (p : option A) : bool :=
  match p with
  | Some _ => true
  | None => false
  end.

Definition pixel_bytes (imageData : ZPNG_ImageData) : Z :=
  if BytesPerChannel imageData >? 8 then Channels imageData
  else u32 (BytesPerChannel imageData * Channels imageData).

Definition ZPNG_MaximumBufferSize (imageData : ZPNG_ImageData) : Z :=
  let pixelCount := u32 (WidthPixels imageData * HeightPixels imageData) in
  let pixelBytes := pixel_bytes imageData in
  let byteCount := u32 (pixelBytes * pixelCount + 1000) in
  let maxOutputBytes := u32 (ZSTD_compressBound rt byteCount) in
  u32 (ZPNG_HEADER_OVERHEAD_BYTES + maxOutputBytes).

(** Pass 1 of [ZPNG_CompressVideoToBuffer]: pack and filter data.  The
    result is the overflow count and the packing buffer. *)
Definition Pass1_PackAndFilter {R} (refData : option ZPNG_ImageData)
    (imageData : ZPNG_ImageData) (pixelBytes : Z) (packing : list Z)
  : outcome (Z * list Z) R :=
  match refData with
  | Some refData =>
      match pixelBytes with
      | 1 => PackAndFilterVideo 1 refData imageData packing
      | 2 => PackAndFilterVideo 2 refData imageData packing
      | 3 => PackAndFilterVideo 3 refData imageData packing
      | 4 => PackAndFilterVideo 4 refData imageData packing
      | 5 => PackAndFilterVideo 5 refData imageData packing
      | 6 => PackAndFilterVideo 6 refData imageData packing
      | 7 => PackAndFilterVideo 7 refData imageData packing
      | 8 => PackAndFilterVideo 8 refData imageData packing
      | _ => Next (0, packing)
      end
  | None =>
      do packing <-
        (if BytesPerChannel imageData >? 8 then
           PackAndFilterXGGY imageData packing
         else
           match pixelBytes with
           | 1 => PackAndFilter 1 imageData packing
           | 2 => PackAndFilter 2 imageData packing
           | 3 => PackAndFilter 3 imageData packing
           | 4 => PackAndFilter 4 imageData packing
           | 5 => PackAndFilter 5 imageData packing
           | 6 => PackAndFilter 6 imageData packing
           | 7 => PackAndFilter 7 imageData packing
           | 8 => PackAndFilter 8 imageData packing
           | _ => Next packing
           end);
      Next (0, packing)
  end.

(** Stage 2 of [ZPNG_DecompressVideo]: unpack and unfilter into the
    buffer of [imageData]. *)
Definition Stage2_Unfilter {R} (refData : option ZPNG_ImageData)
    (imageData : ZPNG_ImageData) (pixelBytes : Z) (packing : list Z)
  : outcome (list Z) R :=
  let intra : outcome (list Z) R :=
    if BytesPerChannel imageData >? 8 then
      UnpackAndUnfilterXGGY packing imageData
    else
      match pixelBytes with
      | 1 => UnpackAndUnfilter 1 packing imageData
      | 2 => UnpackAndUnfilter 2 packing imageData
      | 3 => UnpackAndUnfilter 3 packing imageData
      | 4 => UnpackAndUnfilter 4 packing imageData
      | 5 => UnpackAndUnfilter 5 packing imageData
      | 6 => UnpackAndUnfilter 6 packing imageData
      | 7 => UnpackAndUnfilter 7 packing imageData
      | 8 => UnpackAndUnfilter 8 packing imageData
      | _ => Next (region (Buffer imageData))
      end in
  match refData with
  | Some refData =>
      if IsIFrame imageData =? 0 then
        match pixelBytes with
        | 1 => UnpackAndUnfilterVideo 1 refData packing imageData
        | 2 => UnpackAndUnfilterVideo 2 refData packing imageData
        | 3 => UnpackAndUnfilterVideo 3 refData packing imageData
        | 4 => UnpackAndUnfilterVideo 4 refData packing imageData
        | 5 => UnpackAndUnfilterVideo 5 refData packing imageData
        | 6 => UnpackAndUnfilterVideo 6 refData packing imageData
        | 7 => UnpackAndUnfilterVideo 7 refData packing imageData
        | 8 => UnpackAndUnfilterVideo 8 refData packing imageData
        | _ => Next (region (Buffer imageData))
        end
      else intra
  | None => intra
  end.

Definition ZPNG_CompressVideoToBuffer
    (refData : option ZPNG_ImageData) (imageData : ZPNG_ImageData)
    (bufferOutput : ZPNG_Buffer) (context : bool)
    (dictionary : dictionary_slot)
  : option (Z * ZPNG_Buffer * dictionary_slot) :=
  run (
    let pixelCount := u32 (WidthPixels imageData * HeightPixels imageData) in
    let pixelBytes := pixel_bytes imageData in
    let byteCount := u32 (pixelBytes * pixelCount) in
    (* FIXME: One day add support for other formats *)
    if pixelBytes >? 8 then Exit (0, bufferOutput, dictionary) else
    (* Space for packing *)
    if negb (calloc_ok rt (u32 (byteCount + 1000))) then
      Exit (0, bufferOutput, dictionary)
    else
    let packing := zeroed (u32 (byteCount + 1000)) in
    let maxOutputBytes := u32 (ZSTD_compressBound rt byteCount) in
    do output <-
      (if Bytes bufferOutput =? 0 then
         if calloc_ok rt (u32 (ZPNG_HEADER_OVERHEAD_BYTES + maxOutputBytes))
         then Next (zeroed (u32 (ZPNG_HEADER_OVERHEAD_BYTES + maxOutputBytes)))
         else Exit (0, bufferOutput, dictionary)
       else if Bytes bufferOutput
               <? u32 (ZPNG_HEADER_OVERHEAD_BYTES + maxOutputBytes) then
         Exit (0, bufferOutput, dictionary)
       else
         match Data bufferOutput with
         | Some l => Next l
         | None => Exit (0, bufferOutput, dictionary)
         end);
    (* Pass 1: Pack and filter data. *)
    do (overflowCount, packing) <-
      Pass1_PackAndFilter refData imageData pixelBytes packing;
    (* Pass 2: Compress the packed/filtered data. *)
    let srcSize :=
      u32 (byteCount + (if overflowCount >=? 0 then overflowCount else 0)) in
    if Z.of_nat (length packing) <? srcSize then Fault else
    if Z.of_nat (length output) <? ZPNG_HEADER_OVERHEAD_BYTES + maxOutputBytes
    then Fault else
    let src := take (Z.to_nat srcSize) packing in
    do (result, dictionary) <-
      (if context then
         match dictionary with
         | None => Fault
         | Some slot =>
             do dict <-
               match slot with
               | Some dict => Next dict
               | None =>
                   (* the trainer's result goes to [ZSTD_createCDict]
                      as the size of the dictionary, unchecked: with an
                      error code the read runs past [dictBuf] *)
                   match ZDICT_train rt packing
                           (byteCount / HeightPixels imageData / 8)
                           (u32 (HeightPixels imageData * 8)) with
                   | Some dict => Next dict
                   | None => Fault
                   end
               end;
             Next (ZSTD_compress_usingCDict rt maxOutputBytes src dict,
                   Some (Some dict))
         end
       else Next (ZSTD_compress rt maxOutputBytes src, dictionary));
    match result with
    | None => Exit (0, bufferOutput, dictionary)
    | Some compressed =>
        let output :=
          write_at (Z.to_nat ZPNG_HEADER_OVERHEAD_BYTES) compressed output in
        (* Write header *)
        let header := {|
          Magic :=
            if non_null refData && (overflowCount >=? 0)
            then ZPNG_VIDEO_HEADER_MAGIC else ZPNG_HEADER_MAGIC;
          Width := u16 (WidthPixels imageData);
          Height := u16 (HeightPixels imageData);
          HChannels := u8 (Channels imageData);
          HBytesPerChannel := u8 (BytesPerChannel imageData) |} in
        let output := write_at 0 (header_bytes header) output in
        let bufferOutput := {|
          Data := Some output;
          Bytes := u32 (ZPNG_HEADER_OVERHEAD_BYTES
                        + u32 (Z.of_nat (length compressed))) |} in
        (* goto ReturnResult *)
        Exit (0, bufferOutput, dictionary)
    end).

Definition ZPNG_Compress (imageData : ZPNG_ImageData) (context : bool)
    (dictionary : dictionary_slot) : option (ZPNG_Buffer * dictionary_slot) :=
  let buffer := {| Data := None; Bytes := 0 |} in
  match ZPNG_CompressVideoToBuffer None imageData buffer context dictionary with
  | Some (_, buffer, dictionary) => Some (buffer, dictionary)
  | None => None
  end.

Definition ZPNG_CompressToBuffer (imageData : ZPNG_ImageData)
    (bufferOutput : ZPNG_Buffer) (context : bool)
    (dictionary : dictionary_slot)
  : option (Z * ZPNG_Buffer * dictionary_slot) :=
  ZPNG_CompressVideoToBuffer None imageData bufferOutput context dictionary.

Definition with_Data (imageData : ZPNG_ImageData) (data : option (list Z))
    (bytes : Z) : ZPNG_ImageData :=
  {| Buffer := {| Data := data; Bytes := bytes |};
     BytesPerChannel := BytesPerChannel imageData;
     Channels := Channels imageData;
     WidthPixels := WidthPixels imageData;
     HeightPixels := HeightPixels imageData;
     StrideBytes := StrideBytes imageData;
     IsIFrame := IsIFrame imageData |}.

Definition ZPNG_DecompressVideo (refData : option ZPNG_ImageData)
    (buffer : ZPNG_Buffer) : option ZPNG_ImageData :=
  run (
    let imageData := {|
      Buffer := {| Data := None; Bytes := 0 |};
      BytesPerChannel := 0;
      Channels := 0;
      WidthPixels := 0;
      HeightPixels := 0;
      StrideBytes := 0;
      IsIFrame := 1 |} in
    match Data buffer with
    | None => Exit imageData
    | Some data =>
    if Bytes buffer <? ZPNG_HEADER_OVERHEAD_BYTES then Exit imageData else
    do magic <- load16 data 0;
    do isIFrame <-
      match refData with
      | None =>
          if negb (magic =? ZPNG_HEADER_MAGIC) then Exit imageData
          else Next 1
      | Some _ =>
          if negb (magic =? ZPNG_HEADER_MAGIC) then
            if magic =? ZPNG_VIDEO_HEADER_MAGIC then Next 0
            else Exit imageData
          else Next 1
      end;
    do width <- load16 data 2;
    do height <- load16 data 4;
    do channels <- load data 6;
    do bytesPerChannel <- load data 7;
    let imageData := {|
      Buffer := {| Data := None; Bytes := 0 |};
      BytesPerChannel := bytesPerChannel;
      Channels := channels;
      WidthPixels := width;
      HeightPixels := height;
      StrideBytes := u32 (width * channels);
      IsIFrame := isIFrame |} in
    let pixelCount := u32 (WidthPixels imageData * HeightPixels imageData) in
    let pixelBytes := pixel_bytes imageData in
    let byteCount := u32 (pixelBytes * pixelCount) in
    (* Space for packing *)
    if negb (calloc_ok rt (u32 (byteCount + 1000))) then Exit imageData else
    let packing := zeroed (u32 (byteCount + 1000)) in
    (* Stage 1: Decompress back to packing buffer *)
    if Z.of_nat (length data) <? Bytes buffer then Fault else
    let src :=
      take (Z.to_nat (Bytes buffer - ZPNG_HEADER_OVERHEAD_BYTES))
           (drop (Z.to_nat ZPNG_HEADER_OVERHEAD_BYTES) data) in
    match ZSTD_decompress rt (u32 (byteCount + 1000)) src with
    | None => Exit imageData
    | Some unpacked =>
        let packing := write_at 0 unpacked packing in
        (* Stage 2: Unpack/Unfilter *)
        (* Space for output *)
        if negb (calloc_ok rt byteCount) then Exit imageData else
        let output := zeroed byteCount in
        let imageData := with_Data imageData (Some output) byteCount in
        do mem <- Stage2_Unfilter refData imageData pixelBytes packing;
        Exit (with_Data imageData (Some mem) byteCount)
    end
    end).

Definition ZPNG_Decompress (buffer : ZPNG_Buffer) : option ZPNG_ImageData :=
  ZPNG_DecompressVideo None buffer.

(** [ZPNG_Free]; [None] is a null [buffer] pointer. *)
Definition ZPNG_Free (buffer : option ZPNG_Buffer) : option ZPNG_Buffer :=
  match buffer with
  | Some b =>
      if non_null (Data b) then Some {| Data := None; Bytes := 0 |}
      else Some b
  | None => None
  end.

End API.

(** ** A runtime: zstd's bound and a coder that stores its input

    [ZSTD_COMPRESSBOUND] is the macro of [zstd.h].  A coder that copies
    its input when the capacity allows obeys the laws of [Runtime]; it is
    the instance the concrete evaluations below run on.  Its trainer
    reports an error, as zstd's does on frames as small as these. *)

Definition ZSTD_COMPRESSBOUND (srcSize : Z) : Z :=
  (srcSize + Z.shiftr srcSize 8
   + (if srcSize <? 131072 then Z.shiftr (131072 - srcSize) 11 else 0))%Z.

Definition stored_compress (cap : Z) (src : list Z) : option (list Z) :=
  if (Z.of_nat (length src) <=? cap)%Z then Some src else None.

Lemma ZSTD_COMPRESSBOUND_ge (n : Z) : (0 <= n)%Z -> (n <= ZSTD_COMPRESSBOUND n)%Z.
Proof.
  intros Hn. unfold ZSTD_COMPRESSBOUND.
  assert (0 <= Z.shiftr n 8)%Z by (apply Z.shiftr_nonneg; lia).
  destruct (n <? 131072)%Z eqn:E; [|lia].
  apply Z.ltb_lt in E.
  assert (0 <= Z.shiftr (131072 - n) 11)%Z by (apply Z.shiftr_nonneg; lia).
  lia.
Qed.

Lemma stored_compress_fits cap src c :
  stored_compress cap src = Some c -> (Z.of_nat (length c) <= cap)%Z.
Proof.
  unfold stored_compress.
  destruct (Z.of_nat (length src) <=? cap)%Z eqn:E; [|discriminate].
  intros [= <-]. by apply Z.leb_le.
Qed.

Lemma stored_compress_bound cap src :
  (ZSTD_COMPRESSBOUND (Z.of_nat (length src)) <= cap)%Z ->
  exists c, stored_compress cap src = Some c.
Proof.
  intros H. exists src. unfold stored_compress.
  pose proof (ZSTD_COMPRESSBOUND_ge (Z.of_nat (length src)) ltac:(lia)).
  destruct (Z.of_nat (length src) <=? cap)%Z eqn:E; [done|].
  apply Z.leb_gt in E. lia.
Qed.

Lemma stored_decompress_compress cap src c dcap :
  stored_compress cap src = Some c ->
  (Z.of_nat (length src) <= dcap)%Z ->
  stored_compress dcap c = Some src.
Proof.
  unfold stored_compress.
  destruct (Z.of_nat (length src) <=? cap)%Z eqn:E; [|discriminate].
  intros [= <-] H. apply Z.leb_le in H. by rewrite H.
Qed.

Definition stored_runtime : Runtime := {|
  calloc_ok := fun _ => true;
  ZSTD_compressBound := ZSTD_COMPRESSBOUND;
  ZSTD_compress := stored_compress;
  ZSTD_compress_usingCDict := fun cap src _ => stored_compress cap src;
  ZDICT_train := fun _ _ _ => None;
  ZSTD_decompress := stored_compress;
  ZSTD_compressBound_ge := ZSTD_COMPRESSBOUND_ge;
  ZSTD_compress_fits := stored_compress_fits;
  ZSTD_compress_bound := stored_compress_bound;
  ZSTD_compress_usingCDict_fits := fun cap src _ => stored_compress_fits cap src;
  ZSTD_decompress_fits := stored_compress_fits;
  ZSTD_decompress_compress := stored_decompress_compress
|}.

Definition image (w h c b : Z) (pixels : list Z) : ZPNG_ImageData := {|
  Buffer := {| Data := Some pixels; Bytes := Z.of_nat (length pixels) |};
  BytesPerChannel := b;
  Channels := c;
  WidthPixels := w;
  HeightPixels := h;
  StrideBytes := (w * c)%Z;
  IsIFrame := 1
|}.


(** * Specification vocabulary

    The predicates the theorems are stated with, the calculus they are
    proved in, and the concrete frames they are evaluated on. *)

(** ** Partial correctness of a statement

    [wp m Phi Psi]: [m] does not fault; if it falls through, [Phi] holds
    of its state; if it returns, [Psi] holds of the value. *)
Definition wp {S R} (m : outcome S R) (Phi : S -> Prop) (Psi : R -> Prop)
  : Prop :=
  match m with
  | Next s => Phi s
  | Exit r => Psi r
  | Fault => False
  end.

(** A calculus that also says what holds when the statement faults. *)
Definition wpf {S R} (m : outcome S R) (Phi : S -> Prop) (Psi : R -> Prop)
    (Xi : Prop) : Prop :=
  match m with
  | Next s => Phi s
  | Exit r => Psi r
  | Fault => Xi
  end.

(** ** What the filters leave in the packed buffer *)

(** The byte at offset [i], 0 outside the buffer. *)
Definition byte_at (l : list Z) (i : nat) : Z := default 0%Z (l !! i).

(** Generic filter: the delta of byte [j] of the row that starts at
    offset [b], against the byte [k] places to its left, or against 0 in
    the first pixel of the row. *)
Definition generic_delta (k : nat) (input : list Z) (b j : nat) : Z :=
  u8 (byte_at input (b + j)%nat
      - (if (j <? k)%nat then 0 else byte_at input (b + j - k)%nat))%Z.

Definition generic_encoded (k W H : nat) (input mem : list Z) : Prop :=
  forall y j, y < H -> j < W * k ->
    mem !! (y * (W * k) + j) = Some (generic_delta k input (y * (W * k)) j).

(** Row delta of channel [c] of pixel [t], in column [x], of an image of
    [k] interleaved channels. *)
Definition planar_delta (k : nat) (input : list Z) (x t c : nat) : Z :=
  u8 (byte_at input (k * t + c)
      - (if (x =? 0)%nat then 0 else byte_at input (k * t + c - k)))%Z.

(** RGB filter: pixel [x] of row [y] in the Y, U and V planes. *)
Definition rgb_cell (W H : nat) (input mem : list Z) (y x : nat) : Prop :=
  let t := y * W + x in
  let r := planar_delta 3 input x t 0 in
  let g := planar_delta 3 input x t 1 in
  let b := planar_delta 3 input x t 2 in
  mem !! t = Some b /\
  mem !! (H * W + t) = Some (u8 (g - b)) /\
  mem !! (2 * (H * W) + t) = Some (u8 (g - r)).

Definition rgb_encoded (W H : nat) (input mem : list Z) : Prop :=
  forall y x, y < H -> x < W -> rgb_cell W H input mem y x.

(** RGBA filter: the same with a fourth plane for alpha. *)
Definition rgba_cell (W H : nat) (input mem : list Z) (y x : nat) : Prop :=
  let t := y * W + x in
  let r := planar_delta 4 input x t 0 in
  let g := planar_delta 4 input x t 1 in
  let b := planar_delta 4 input x t 2 in
  let a := planar_delta 4 input x t 3 in
  mem !! t = Some b /\
  mem !! (H * W + t) = Some (u8 (g - b)) /\
  mem !! (2 * (H * W) + t) = Some (u8 (g - r)) /\
  mem !! (3 * (H * W) + t) = Some a.

Definition rgba_encoded (W H : nat) (input mem : list Z) : Prop :=
  forall y x, y < H -> x < W -> rgba_cell W H input mem y x.

(** The filters by channel count, as [PackAndFilter] selects them. *)
Definition intra_encoded (k W H : nat) (input mem : list Z) : Prop :=
  match k with
  | 3 => rgb_encoded W H input mem
  | 4 => rgba_encoded W H input mem
  | _ => generic_encoded k W H input mem
  end.

(** Bayer filter, for an image of [2 * a] by [2 * c] bytes: pair of rows
    [yy], pair of columns [q].  The predictor of the byte at offset [e]
    is the byte two places to its left, or 0 in the first pair. *)
Definition xggy_prev (input : list Z) (q e : nat) : Z :=
  if (q =? 0)%nat then 0%Z else byte_at input (e - 2).

(** The even row of the pair: R plane and G plane. *)
Definition xggy_even (a c : nat) (input mem : list Z) (yy q : nat) : Prop :=
  let e := 4 * (yy * a) + 2 * q in
  mem !! (yy * a + q)
    = Some (u8 (byte_at input e - xggy_prev input q e)) /\
  mem !! (2 * (c * a) + 2 * (yy * a) + q)
    = Some (u8 (byte_at input (e + 1) - xggy_prev input q (e + 1))).

(** The odd row of the pair: B plane and G plane. *)
Definition xggy_odd (a c : nat) (input mem : list Z) (yy q : nat) : Prop :=
  let o := 4 * (yy * a) + 2 * a + 2 * q in
  mem !! (c * a + yy * a + q)
    = Some (u8 (byte_at input (o + 1) - xggy_prev input q (o + 1))) /\
  mem !! (2 * (c * a) + 2 * (yy * a) + a + q)
    = Some (u8 (byte_at input o - xggy_prev input q o)).

Definition xggy_encoded (a c : nat) (input mem : list Z) : Prop :=
  forall yy q, yy < c -> q < a ->
    xggy_even a c input mem yy q /\ xggy_odd a c input mem yy q.

(** ** The inter filter *)

(** [diff > 127 || diff < -127] *)
Definition overflows (a r : Z) : bool :=
  ((a - r >? 127) || (a - r <? -127))%Z.

(** The number of per-channel deltas outside [-127, +127]. *)
Fixpoint overflow_count (cur ref : list Z) : nat :=
  match cur, ref with
  | a :: cur', r :: ref' =>
      (if overflows a r then 1 else 0) + overflow_count cur' ref'
  | _, _ => 0
  end.

(** The overflows among the first [m] bytes. *)
Definition overflows_before (cur ref : list Z) (m : nat) : nat :=
  overflow_count (take m cur) (take m ref).

(** What the inter filter leaves in the packed buffer: the main stream
    in the first [N] bytes, and behind it the literal of each escape. *)
Definition video_byte (cur ref : list Z) (j : nat) : Z :=
  if overflows (byte_at cur j) (byte_at ref j) then 0x80%Z
  else u8 (byte_at cur j - byte_at ref j).

Definition video_encoded (N : nat) (cur ref mem : list Z) : Prop :=
  forall j, j < N ->
    mem !! j = Some (video_byte cur ref j) /\
    (overflows (byte_at cur j) (byte_at ref j) = true ->
     mem !! (N + overflows_before cur ref j) = Some (byte_at cur j)).

(** A reference frame and a current frame of [H] by [W] pixels of [k]
    bytes whose buffers are [ref] and [cur]. *)
Definition video_pair (k W H : nat) (refData imageData : ZPNG_ImageData)
    (ref cur : list Z) : Prop :=
  HeightPixels imageData = Z.of_nat H /\
  WidthPixels imageData = Z.of_nat W /\
  region (Buffer imageData) = cur /\
  region (Buffer refData) = ref /\
  (Z.of_nat (H * W * k) < 4294967296)%Z /\
  length cur = H * W * k /\
  length ref = H * W * k.

(** ** Descriptors and frames *)

Section Validity.
Local Open Scope Z_scope.
Variable rt : Runtime.

(** The header [ZPNG_CompressVideoToBuffer] writes for [imageData]. *)
Definition header_of (magic : Z) (imageData : ZPNG_ImageData) : ZPNG_Header := {|
  Magic := magic;
  Width := u16 (WidthPixels imageData);
  Height := u16 (HeightPixels imageData);
  HChannels := u8 (Channels imageData);
  HBytesPerChannel := u8 (BytesPerChannel imageData) |}.

(** [pixelBytes * pixelCount] without wrap-around. *)
Definition byte_count (imageData : ZPNG_ImageData) : Z :=
  pixel_bytes imageData * (WidthPixels imageData * HeightPixels imageData).

(** The fields are in the range the header stores, and the sizes the
    codec computes for [imageData] fit [unsigned]. *)
Definition sizes_fit (imageData : ZPNG_ImageData) : Prop :=
  0 <= WidthPixels imageData < 65536 /\
  0 <= HeightPixels imageData < 65536 /\
  0 <= Channels imageData < 256 /\
  0 <= BytesPerChannel imageData < 256 /\
  byte_count imageData + 1000 < 4294967296 /\
  ZPNG_HEADER_OVERHEAD_BYTES + ZSTD_compressBound rt (byte_count imageData)
    < 4294967296.

(** The descriptor [ZPNG_DecompressVideo] builds from the header of an
    intra frame of [d], with [output] behind its buffer pointer. *)
Definition decoded_image (d : ZPNG_ImageData) (output : list Z) : ZPNG_ImageData := {|
  Buffer := {| Data := Some output; Bytes := byte_count d |};
  BytesPerChannel := BytesPerChannel d;
  Channels := Channels d;
  WidthPixels := WidthPixels d;
  HeightPixels := HeightPixels d;
  StrideBytes := u32 (WidthPixels d * Channels d);
  IsIFrame := 1 |}.

(** Descriptors the intra round trip is stated for: the sizes fit, the
    buffer holds [pixel_bytes] bytes per pixel, and a Bayer image (the
    sentinel [BytesPerChannel > 8]) has one channel and even sides. *)
Definition valid_intra (d : ZPNG_ImageData) (pixels : list Z) : Prop :=
  sizes_fit d /\
  Data (Buffer d) = Some pixels /\
  Forall is_byte pixels /\
  Z.of_nat (length pixels) = byte_count d /\
  1 <= pixel_bytes d <= 8 /\
  (8 < BytesPerChannel d ->
   Channels d = 1 /\ Z.even (WidthPixels d) = true /\
   Z.even (HeightPixels d) = true).

End Validity.

(** What [ZPNG_DecompressVideo] returns for a buffer it rejects: the
    descriptor as initialized. *)
Definition rejected : ZPNG_ImageData := {|
  Buffer := {| Data := None; Bytes := 0 |};
  BytesPerChannel := 0;
  Channels := 0;
  WidthPixels := 0;
  HeightPixels := 0;
  StrideBytes := 0;
  IsIFrame := 1 |}.

(** The [Magic] field of the header at the start of a buffer. *)
Definition magic_of (buffer : ZPNG_Buffer) : Z :=
  (byte_at (region buffer) 0 + 256 * byte_at (region buffer) 1)%Z.

(** The output buffer of [ZPNG_Compress]: the codec allocates. *)
Definition no_buffer : ZPNG_Buffer := {| Data := None; Bytes := 0 |}.

(** A 2 by 2 image under the Bayer sentinel with two channels. *)
Definition bayer_two_channels : ZPNG_ImageData :=
  image 2 2 2 9 [1; 2; 3; 4; 5; 6; 7; 8]%Z.

(** A 2 by 2 Bayer mosaic. *)
Definition bayer_mosaic : ZPNG_ImageData := image 2 2 1 9 [1; 2; 3; 4]%Z.

(** The 1 by 1 gray image of the specification. *)
Definition gray_pixel : ZPNG_ImageData := image 1 1 1 1 [0x42]%Z.

(** The 2 by 1 RGB image of the specification. *)
Definition rgb_row : ZPNG_ImageData :=
  image 2 1 3 1 [10; 20; 30; 15; 24; 29]%Z.

(** Frames all of whose bytes are equal. *)
Definition flat (w h c b : Z) (n : nat) (v : Z) : ZPNG_ImageData :=
  image w h c b (replicate n v).

(** A descriptor with no channels under the Bayer sentinel. *)
Definition no_channels : ZPNG_ImageData := image 2 2 0 9 [].

(** A descriptor of one channel and zero bytes per channel. *)
Definition zero_depth : ZPNG_ImageData := image 2 2 1 0 [].

(** ** Vocabulary of the further properties *)

(** An image of [H] rows of [W] pixels whose buffer is [pixels]. *)
Definition shaped (W H : nat) (imageData : ZPNG_ImageData) (pixels : list Z)
  : Prop :=
  HeightPixels imageData = Z.of_nat H /\
  WidthPixels imageData = Z.of_nat W /\
  region (Buffer imageData) = pixels.

(** The number of escape bytes of a stream. *)
Fixpoint escape_count (enc : list Z) : nat :=
  match enc with
  | [] => 0
  | d :: enc' => (if (d =? 0x80)%Z then 1 else 0) + escape_count enc'
  end.

(** A statement that falls through or faults, and does not execute
    [return]. *)
Definition never_exits {S R} (m : outcome S R) : Prop :=
  wpf m (fun _ => True) (fun _ => False) True.

Section Frames.
Local Open Scope Z_scope.
Variable rt : Runtime.

(** A frame in memory: the header of [d] under [magic], the payload, and
    what is left of the buffer behind it. *)
Definition frame (magic : Z) (d : ZPNG_ImageData) (payload rest : list Z)
  : ZPNG_Buffer := {|
  Data := Some (header_bytes (header_of magic d) ++ payload ++ rest);
  Bytes := ZPNG_HEADER_OVERHEAD_BYTES + Z.of_nat (length payload) |}.

(** The descriptor [ZPNG_DecompressVideo] builds from the header of a
    frame of [d], with [output] behind its buffer pointer. *)
Definition decoded_frame (d : ZPNG_ImageData) (isIFrame : Z) (output : list Z)
  : ZPNG_ImageData := {|
  Buffer := {| Data := Some output; Bytes := byte_count d |};
  BytesPerChannel := BytesPerChannel d;
  Channels := Channels d;
  WidthPixels := WidthPixels d;
  HeightPixels := HeightPixels d;
  StrideBytes := u32 (WidthPixels d * Channels d);
  IsIFrame := isIFrame |}.

(** A frame [d] with pixels [cur] that [ZPNG_CompressVideoToBuffer]
    can code against [refData]: the sizes fit, [pixel_bytes] is in
    [1..8], and the buffer of [refData], of which only the bytes are
    read, holds as many bytes, [ref], as the frame. *)
Definition valid_video (refData d : ZPNG_ImageData) (ref cur : list Z)
  : Prop :=
  sizes_fit rt d /\
  Data (Buffer d) = Some cur /\
  Forall is_byte cur /\
  Z.of_nat (length cur) = byte_count d /\
  1 <= pixel_bytes d <= 8 /\
  region (Buffer refData) = ref /\
  length ref = length cur.

End Frames.

(** * Proofs *)

(** ** A weakest-precondition calculus for [outcome] *)

Lemma wp_bind {S T R} (m : outcome S R) (f : S -> outcome T R) Phi Psi :
  wp m (fun s => wp (f s) Phi Psi) Psi -> wp (bind m f) Phi Psi.
Proof. by destruct m. Qed.

Section WP.
Context {S R : Type}.
Implicit Types (Psi : R -> Prop).

Lemma wp_mono (m : outcome S R) (Phi Phi' : S -> Prop) Psi Psi' :
  wp m Phi Psi -> (forall s, Phi s -> Phi' s) -> (forall r, Psi r -> Psi' r) ->
  wp m Phi' Psi'.
Proof. destruct m; simpl; auto. Qed.

Lemma wp_for_from (I : nat -> S -> Prop) n i0
    (body : nat -> S -> outcome S R) s0 (Phi : S -> Prop) Psi :
  I i0 s0 ->
  (forall i s, i0 <= i < i0 + n -> I i s -> wp (body i s) (I (Datatypes.S i)) Psi) ->
  (forall s, I (i0 + n) s -> Phi s) ->
  wp (for_from n i0 body s0) Phi Psi.
Proof.
  revert i0 s0. induction n as [|n IH]; intros i0 s0 H0 Hbody Hpost; simpl.
  - apply Hpost. by rewrite Nat.add_0_r.
  - apply wp_bind. eapply wp_mono; [apply (Hbody i0 s0); [lia|done]| |done].
    intros s Hs. apply IH; [done| |].
    + intros i s' Hi. apply Hbody. lia.
    + intros s' Hs'. apply Hpost. by replace (i0 + Datatypes.S n) with (Datatypes.S i0 + n) by lia.
Qed.

Lemma wp_for_loop (I : nat -> S -> Prop) n
    (body : nat -> S -> outcome S R) s0 (Phi : S -> Prop) Psi :
  I 0 s0 ->
  (forall i s, i < n -> I i s -> wp (body i s) (I (Datatypes.S i)) Psi) ->
  (forall s, I n s -> Phi s) ->
  wp (for_loop n body s0) Phi Psi.
Proof.
  intros H0 Hbody Hpost. apply (wp_for_from I); [done| |done].
  intros i s Hi. apply Hbody. lia.
Qed.

(** The loop over [x = 0, 2, ...] of an even bound [2 * c], by its
    iteration number. *)
Lemma wp_for_loop2 (I : nat -> S -> Prop) c
    (body : nat -> S -> outcome S R) s0 (Phi : S -> Prop) Psi :
  I 0 s0 ->
  (forall j s, j < c -> I j s -> wp (body (2 * j) s) (I (Datatypes.S j)) Psi) ->
  (forall s, I c s -> Phi s) ->
  wp (for_loop2 (2 * c) body s0) Phi Psi.
Proof.
  intros H0 Hbody Hpost. unfold for_loop2.
  replace (Nat.div2 (2 * c + 1)) with c.
  - apply (wp_for_from I); [done| |done]. intros i s Hi. apply Hbody. lia.
  - replace (2 * c + 1) with (Datatypes.S (2 * c)) by lia.
    by rewrite Nat.div2_succ_double.
Qed.

Lemma wp_Next_inv (m : outcome S R) Phi :
  wp m Phi (fun _ => False) -> exists s, m = Next s /\ Phi s.
Proof. destruct m; simpl; [eauto|done..]. Qed.

End WP.

Lemma wp_load {R} (l : list Z) i v (Phi : Z -> Prop) (Psi : R -> Prop) :
  l !! i = Some v -> Phi v -> wp (load l i) Phi Psi.
Proof. intros H HP. unfold load. by rewrite H. Qed.

Lemma wp_store {R} (l : list Z) i v (Phi : list Z -> Prop) (Psi : R -> Prop) :
  i < length l -> Phi (<[i:=v]> l) -> wp (store l i v) Phi Psi.
Proof.
  intros H HP. unfold store. apply Nat.ltb_lt in H. by rewrite H.
Qed.

Lemma wp_call {A R} (m : outcome A A) (Phi : A -> Prop) (Psi : R -> Prop) :
  wp m Phi Phi -> wp (call m) Phi Psi.
Proof. by destruct m. Qed.

(** ** Bytes *)

Lemma byte_at_lookup l i : i < length l -> l !! i = Some (byte_at l i).
Proof.
  intros H. unfold byte_at.
  destruct (lookup_lt_is_Some_2 l i H) as [v ->]. done.
Qed.

Lemma byte_at_is_byte l i : Forall is_byte l -> is_byte (byte_at l i).
Proof.
  intros H. unfold byte_at. destruct (l !! i) as [v|] eqn:E; simpl.
  - by eapply Forall_lookup_1.
  - unfold is_byte. lia.
Qed.

Lemma u8_is_byte x : is_byte (u8 x).
Proof. unfold is_byte, u8. apply Z.mod_pos_bound. lia. Qed.

Lemma u8_small x : is_byte x -> u8 x = x.
Proof. unfold is_byte, u8. intros H. by apply Z.mod_small. Qed.

Lemma u8_sub_add a p : is_byte a -> u8 (u8 (a - p) + p) = a.
Proof.
  unfold is_byte, u8. intros H. Z.div_mod_to_equations. lia.
Qed.

Lemma u32_small x : (0 <= x < 4294967296)%Z -> u32 x = x.
Proof. unfold u32. intros H. by apply Z.mod_small. Qed.

Lemma mul_add_lt a b n m : a < n -> b < m -> a * m + b < n * m.
Proof. intros Ha Hb. nia. Qed.

(** ** The generic intra filter and its inverse *)

Ltac wp_step :=
  lazymatch goal with
  | |- wp (bind _ _) _ _ => apply wp_bind
  | |- wp (load _ _) _ _ => eapply wp_load; [ | ]
  | |- wp (store _ _ _) _ _ => apply wp_store; [ | ]
  | |- wp (Next _) _ _ => simpl
  end.

Ltac hyp_app :=
  match goal with
  | H : _ |- _ => solve [apply H; first [lia | done]]
  end.

Ltac easy_goal :=
  try first [done | lia | hyp_app
            | solve [intros; first [lia | hyp_app]]
            | solve [intros; rewrite ?list_lookup_insert_ne by lia; hyp_app]].

Ltac splits := repeat split; rewrite ?length_insert; easy_goal.

Lemma PackAndFilter_generic_wp {R} k W H input img output (Psi : R -> Prop) :
  HeightPixels img = Z.of_nat H -> WidthPixels img = Z.of_nat W ->
  region (Buffer img) = input ->
  length input = H * (W * k) -> H * (W * k) <= length output ->
  wp (PackAndFilter_generic k img output)
     (fun mem => length mem = length output /\
                 generic_encoded k W H input mem /\
                 forall i, H * (W * k) <= i -> mem !! i = output !! i) Psi.
Proof.
  intros HH HW Hin Hlen Hout. unfold PackAndFilter_generic.
  rewrite HH, HW, Hin, !Nat2Z.id.
  apply wp_bind.
  apply (wp_for_loop (fun y '(inp, outp, mem) =>
    inp = y * (W * k) /\ outp = y * (W * k) /\ length mem = length output /\
    (forall y' j, y' < y -> j < W * k ->
       mem !! (y' * (W * k) + j) = Some (generic_delta k input (y' * (W * k)) j)) /\
    (forall i, y * (W * k) <= i -> mem !! i = output !! i))).
  - splits.
  - intros y [[inp outp] mem] Hy (-> & -> & Hl & Hrows & Hframe).
    apply wp_bind.
    apply (wp_for_loop (fun x '(inp, outp, prev, mem') =>
      inp = y * (W * k) + x * k /\ outp = y * (W * k) + x * k /\
      length prev = k /\
      (forall i, i < k -> prev !! i =
         Some (if x =? 0 then 0%Z else byte_at input (y * (W * k) + x * k + i - k))) /\
      length mem' = length output /\
      (forall i, i < y * (W * k) -> mem' !! i = mem !! i) /\
      (forall j, j < x * k ->
         mem' !! (y * (W * k) + j) = Some (generic_delta k input (y * (W * k)) j)) /\
      (forall i, y * (W * k) + x * k <= i -> mem' !! i = output !! i))).
    + splits.
      * apply length_replicate.
      * intros i Hi. simpl. by rewrite lookup_replicate_2.
    + intros x [[[inp outp] prev] mem'] Hx (-> & -> & Hpl & Hprev & Hl' & Hold & Hnew & Hfr).
      apply wp_bind.
      apply (wp_for_loop (fun i '(prev', mem'') =>
        length prev' = k /\
        (forall i', i' < i -> prev' !! i' = Some (byte_at input (y * (W * k) + x * k + i'))) /\
        (forall i', i <= i' -> prev' !! i' = prev !! i') /\
        length mem'' = length output /\
        (forall i, i < y * (W * k) -> mem'' !! i = mem !! i) /\
        (forall j, j < x * k + i ->
           mem'' !! (y * (W * k) + j) = Some (generic_delta k input (y * (W * k)) j)) /\
        (forall idx, y * (W * k) + x * k + i <= idx -> mem'' !! idx = output !! idx))).
      * splits.
      * intros i [prev' mem''] Hi (Hpl' & Hdone & Htodo & Hl'' & Hold' & Hnew' & Hfr').
        pose proof (mul_add_lt y (x * k + i) H (W * k) Hy ltac:(nia)) as Hb.
        wp_step. wp_step.
        { apply byte_at_lookup. lia. }
        wp_step. wp_step.
        { rewrite Htodo by lia. apply Hprev. done. }
        wp_step. wp_step. { lia. }
        wp_step. wp_step. { lia. }
        simpl. splits.
        -- intros i' Hi'. destruct (decide (i' = i)) as [->|].
           ++ rewrite list_lookup_insert_eq by lia. f_equal. 
           ++ rewrite list_lookup_insert_ne by done. apply Hdone. lia.
        -- intros j Hj. destruct (decide (j = x * k + i)) as [->|].
           ++ replace (y * (W * k) + (x * k + i)) with (y * (W * k) + x * k + i) by lia.
              rewrite list_lookup_insert_eq by lia. f_equal.
              unfold generic_delta.
              replace (y * (W * k) + (x * k + i)) with (y * (W * k) + x * k + i) by lia.
              f_equal. f_equal.
              destruct x as [|x]; simpl.
              ** replace (i <? k) with true by (symmetry; apply Nat.ltb_lt; lia). done.
              ** replace (k + x * k + i <? k) with false by (symmetry; apply Nat.ltb_ge; lia).
                 done.
           ++ rewrite list_lookup_insert_ne by lia. apply Hnew'. lia.
      * intros [prev' mem''] (Hpl' & Hdone & Htodo & Hl'' & Hold' & Hnew' & Hfr').
        simpl. splits.
        intros i Hi. rewrite Hdone by done. f_equal. f_equal. lia.
    + intros [[[inp outp] prev] mem'] (-> & -> & Hpl & Hprev & Hl' & Hold & Hnew & Hfr).
      simpl. splits.
      intros y' j Hy' Hj. destruct (decide (y' = y)) as [->|].
        -- by apply Hnew.
        -- pose proof (mul_add_lt y' j y (W * k) ltac:(lia) Hj).
           rewrite Hold by done. apply Hrows; [lia|done].
  - intros [[inp outp] mem] (-> & -> & Hl & Hrows & Hframe). simpl.
    splits.
Qed.

Lemma generic_delta_undo k input y R x i p :
  Forall is_byte input -> i < k ->
  p = (if x =? 0 then 0%Z else byte_at input (y * R + x * k + i - k)) ->
  u8 (generic_delta k input (y * R) (x * k + i) + p)
  = byte_at input (y * R + x * k + i).
Proof.
  intros Hb Hi ->. unfold generic_delta.
  replace (y * R + (x * k + i)) with (y * R + x * k + i) by lia.
  destruct x as [|x]; simpl.
  - replace (i <? k) with true by (symmetry; apply Nat.ltb_lt; lia).
    apply u8_sub_add. by apply byte_at_is_byte.
  - replace (k + x * k + i <? k) with false by (symmetry; apply Nat.ltb_ge; lia).
    apply u8_sub_add. by apply byte_at_is_byte.
Qed.

Lemma UnpackAndUnfilter_generic_wp {R} k W H input enc img (Psi : R -> Prop) :
  HeightPixels img = Z.of_nat H -> WidthPixels img = Z.of_nat W ->
  Forall is_byte input ->
  length input = H * (W * k) -> length (region (Buffer img)) = H * (W * k) ->
  generic_encoded k W H input enc ->
  wp (UnpackAndUnfilter_generic k enc img) (fun mem => mem = input) Psi.
Proof.
  intros HH HW Hbytes Hlen Hout Henc. unfold UnpackAndUnfilter_generic.
  rewrite HH, HW, !Nat2Z.id.
  set (out0 := region (Buffer img)) in *.
  apply wp_bind.
  apply (wp_for_loop (fun y '(inp, outp, mem) =>
    inp = y * (W * k) /\ outp = y * (W * k) /\ length mem = length out0 /\
    (forall i, i < y * (W * k) -> mem !! i = input !! i))).
  - splits.
  - intros y [[inp outp] mem] Hy (-> & -> & Hl & Hrows).
    apply wp_bind.
    apply (wp_for_loop (fun x '(inp, outp, prev, mem') =>
      inp = y * (W * k) + x * k /\ outp = y * (W * k) + x * k /\
      length prev = k /\
      (forall i, i < k -> prev !! i =
         Some (if x =? 0 then 0%Z else byte_at input (y * (W * k) + x * k + i - k))) /\
      length mem' = length out0 /\
      (forall i, i < y * (W * k) + x * k -> mem' !! i = input !! i))).
    + splits.
      * apply length_replicate.
      * intros i Hi. simpl. by rewrite lookup_replicate_2.
    + intros x [[[inp outp] prev] mem'] Hx (-> & -> & Hpl & Hprev & Hl' & Hnew).
      apply wp_bind.
      apply (wp_for_loop (fun i '(prev', mem'') =>
        length prev' = k /\
        (forall i', i' < i -> prev' !! i' = Some (byte_at input (y * (W * k) + x * k + i'))) /\
        (forall i', i <= i' -> prev' !! i' = prev !! i') /\
        length mem'' = length out0 /\
        (forall idx, idx < y * (W * k) + x * k + i -> mem'' !! idx = input !! idx))).
      * splits.
      * intros i [prev' mem''] Hi (Hpl' & Hdone & Htodo & Hl'' & Hnew').
        pose proof (mul_add_lt y (x * k + i) H (W * k) Hy ltac:(nia)) as Hb.
        wp_step. wp_step.
        { replace (y * (W * k) + x * k + i) with (y * (W * k) + (x * k + i)) by lia.
          apply Henc; [done|nia]. }
        wp_step. wp_step.
        { rewrite Htodo by lia. apply Hprev. done. }
        rewrite (generic_delta_undo k input y (W * k) x i) by done.
        wp_step. wp_step. { lia. }
        wp_step. wp_step. { lia. }
        simpl. splits.
        -- intros i' Hi'. destruct (decide (i' = i)) as [->|].
           ++ by rewrite list_lookup_insert_eq by lia.
           ++ rewrite list_lookup_insert_ne by done. apply Hdone. lia.
        -- intros idx Hidx. destruct (decide (idx = y * (W * k) + x * k + i)) as [->|].
           ++ rewrite list_lookup_insert_eq by lia. symmetry. apply byte_at_lookup. lia.
           ++ rewrite list_lookup_insert_ne by lia. apply Hnew'. lia.
      * intros [prev' mem''] (Hpl' & Hdone & Htodo & Hl'' & Hnew').
        simpl. splits.
        intros i Hi. rewrite Hdone by done. f_equal. f_equal. lia.
    + intros [[[inp outp] prev] mem'] (-> & -> & Hpl & Hprev & Hl' & Hnew).
      simpl. splits.
  - intros [[inp outp] mem] (-> & -> & Hl & Hrows). simpl.
    apply list_eq. intros i. destruct (decide (i < H * (W * k))).
    + by apply Hrows.
    + rewrite !lookup_ge_None_2 by lia. done.
Qed.

(** ** The RGB and RGBA filters *)

Lemma mul_add_inj a b a' b' m :
  b < m -> b' < m -> a * m + b = a' * m + b' -> a = a' /\ b = b'.
Proof. intros Hb Hb' E. assert (a = a') by nia. subst. lia. Qed.

Lemma rgb_undo a0 a1 a2 p0 p1 p2 :
  is_byte a0 -> is_byte a1 -> is_byte a2 ->
  let r := u8 (a0 - p0) in
  let g := u8 (a1 - p1) in
  let b := u8 (a2 - p2) in
  let G := u8 (u8 (g - b) + b) in
  u8 (u8 (G - u8 (g - r)) + p0) = a0 /\ u8 (G + p1) = a1 /\ u8 (b + p2) = a2.
Proof.
  unfold is_byte, u8. intros H0 H1 H2. cbv zeta.
  repeat split; Z.div_mod_to_equations; lia.
Qed.

Ltac conjs := repeat match goal with |- _ /\ _ => split end.
Ltac wp_next := unfold wp; cbv beta iota zeta; conjs; easy_goal.

Lemma PackAndFilter_3_wp {R} W H input img output (Psi : R -> Prop) :
  HeightPixels img = Z.of_nat H -> WidthPixels img = Z.of_nat W ->
  region (Buffer img) = input ->
  (Z.of_nat (3 * (H * W)) < 4294967296)%Z ->
  length input = 3 * (H * W) -> 3 * (H * W) <= length output ->
  wp (PackAndFilter_3 img output)
     (fun mem => length mem = length output /\ rgb_encoded W H input mem) Psi.
Proof.
  intros HH HW Hin Hbound Hlen Hout. unfold PackAndFilter_3.
  rewrite HH, HW, Hin, !Nat2Z.id.
  rewrite (u32_small (Z.of_nat W * Z.of_nat H)) by lia.
  rewrite u32_small by lia.
  replace (Z.to_nat (Z.of_nat W * Z.of_nat H)) with (H * W) by lia.
  replace (Z.to_nat (Z.of_nat W * Z.of_nat H * 2)) with (2 * (H * W)) by lia.
  set (n := H * W) in *.
  apply wp_bind.
  apply (wp_for_loop (fun y '(inp, oy, ou, ov, mem) =>
    inp = 3 * (y * W) /\ oy = y * W /\ ou = n + y * W /\ ov = 2 * n + y * W /\
    length mem = length output /\
    (forall y' x, x < W -> y' * W + x < y * W -> rgb_cell W H input mem y' x))).
  - wp_next.
  - intros y [[[[inp oy] ou] ov] mem] Hy (-> & -> & -> & -> & Hl & Hcells).
    apply wp_bind.
    apply (wp_for_loop (fun x '(inp, oy, ou, ov, (prev0, prev1, prev2), mem') =>
      inp = 3 * (y * W + x) /\ oy = y * W + x /\ ou = n + (y * W + x) /\
      ov = 2 * n + (y * W + x) /\
      length mem' = length output /\
      (forall y' x', x' < W -> y' * W + x' < y * W + x ->
         rgb_cell W H input mem' y' x') /\
      forall c, c < 3 ->
        (if (x =? 0)%nat then 0%Z else byte_at input (3 * (y * W + x) + c - 3))
        = nth c [prev0; prev1; prev2] 0%Z)).
    + wp_next.
      intros [|[|[|c]]] Hc; simpl; done || lia.
    + intros x [[[[[inp oy] ou] ov] [[prev0 prev1] prev2]] mem'] Hx
        (-> & -> & -> & -> & Hl' & Hcells' & Hprev).
      pose proof (mul_add_lt y x H W Hy Hx) as Hb. fold n in Hb.
      wp_step. wp_step. { apply byte_at_lookup. lia. }
      wp_step. wp_step. { apply byte_at_lookup. lia. }
      wp_step. wp_step. { apply byte_at_lookup. lia. }
      wp_step. wp_step. { lia. }
      wp_step. wp_step. { rewrite length_insert. lia. }
      wp_step. wp_step. { rewrite !length_insert. lia. }
      wp_next.
      * rewrite !length_insert. done.
      * intros y' x' Hx' Ht.
        destruct (decide (y' * W + x' = y * W + x)) as [E|NE].
        -- apply mul_add_inj in E as [-> ->]; [|done..].
           unfold rgb_cell. cbv zeta. fold n.
           rewrite list_lookup_insert_ne by lia.
           rewrite list_lookup_insert_ne by lia.
           rewrite list_lookup_insert_eq by lia.
           rewrite list_lookup_insert_ne by lia.
           rewrite list_lookup_insert_eq by (rewrite length_insert; lia).
           rewrite list_lookup_insert_eq by (rewrite !length_insert; lia).
           unfold planar_delta.
           pose proof (Hprev 0 ltac:(lia)) as P0.
           pose proof (Hprev 1 ltac:(lia)) as P1.
           pose proof (Hprev 2 ltac:(lia)) as P2.
           cbn [nth] in P0, P1, P2. rewrite P0, P1, P2.
           rewrite !Nat.add_0_r. done.
        -- specialize (Hcells' y' x' Hx' ltac:(lia)).
           pose proof (mul_add_lt y' x' H W) as Hb'.
           unfold rgb_cell in *. cbv zeta in *. fold n in Hcells' |- *.
           destruct Hcells' as (Hc0 & Hc1 & Hc2).
           rewrite !list_lookup_insert_ne by lia. done.
      * intros c Hc. 
        destruct c as [|[|[|c]]]; simpl; try lia; f_equal; lia.
    + intros [[[[[inp oy] ou] ov] [[prev0 prev1] prev2]] mem']
        (-> & -> & -> & -> & Hl' & Hcells' & Hprev).
      wp_next.
  - intros [[[[inp oy] ou] ov] mem] (-> & -> & -> & -> & Hl & Hcells).
    wp_next.
    intros y x Hy Hx. apply Hcells; [done|].
    by apply mul_add_lt.
Qed.

Lemma UnpackAndUnfilter_3_wp {R} W H input enc img (Psi : R -> Prop) :
  HeightPixels img = Z.of_nat H -> WidthPixels img = Z.of_nat W ->
  Forall is_byte input ->
  (Z.of_nat (3 * (H * W)) < 4294967296)%Z ->
  length input = 3 * (H * W) -> length (region (Buffer img)) = 3 * (H * W) ->
  rgb_encoded W H input enc ->
  wp (UnpackAndUnfilter_3 enc img) (fun mem => mem = input) Psi.
Proof.
  intros HH HW Hbytes Hbound Hlen Hout Henc. unfold UnpackAndUnfilter_3.
  rewrite HH, HW, !Nat2Z.id.
  rewrite (u32_small (Z.of_nat W * Z.of_nat H)) by lia.
  rewrite u32_small by lia.
  replace (Z.to_nat (Z.of_nat W * Z.of_nat H)) with (H * W) by lia.
  replace (Z.to_nat (Z.of_nat W * Z.of_nat H * 2)) with (2 * (H * W)) by lia.
  set (n := H * W) in *. set (out0 := region (Buffer img)) in *.
  apply wp_bind.
  apply (wp_for_loop (fun y '(iy, iu, iv, outp, mem) =>
    iy = y * W /\ iu = n + y * W /\ iv = 2 * n + y * W /\ outp = 3 * (y * W) /\
    length mem = length out0 /\
    (forall i, i < 3 * (y * W) -> mem !! i = input !! i))).
  - wp_next.
  - intros y [[[[iy iu] iv] outp] mem] Hy (-> & -> & -> & -> & Hl & Hdone).
    apply wp_bind.
    apply (wp_for_loop (fun x '(iy, iu, iv, outp, (prev0, prev1, prev2), mem') =>
      iy = y * W + x /\ iu = n + (y * W + x) /\ iv = 2 * n + (y * W + x) /\
      outp = 3 * (y * W + x) /\
      length mem' = length out0 /\
      (forall i, i < 3 * (y * W + x) -> mem' !! i = input !! i) /\
      forall c, c < 3 ->
        (if (x =? 0)%nat then 0%Z else byte_at input (3 * (y * W + x) + c - 3))
        = nth c [prev0; prev1; prev2] 0%Z)).
    + wp_next.
      intros [|[|[|c]]] Hc; simpl; done || lia.
    + intros x [[[[[iy iu] iv] outp] [[prev0 prev1] prev2]] mem'] Hx
        (-> & -> & -> & -> & Hl' & Hdone' & Hprev).
      pose proof (mul_add_lt y x H W Hy Hx) as Hb. fold n in Hb.
      destruct (Henc y x Hy Hx) as (Hc0 & Hc1 & Hc2). fold n in Hc1, Hc2.
      unfold planar_delta in Hc0, Hc1, Hc2.
      pose proof (Hprev 0 ltac:(lia)) as P0.
      pose proof (Hprev 1 ltac:(lia)) as P1.
      pose proof (Hprev 2 ltac:(lia)) as P2.
      cbn [nth] in P0, P1, P2. rewrite P0, P1, P2 in *.
      wp_step. wp_step. { exact Hc0. }
      wp_step. wp_step. { exact Hc1. }
      wp_step. wp_step. { exact Hc2. }
      destruct (rgb_undo (byte_at input (3 * (y * W + x) + 0))
                  (byte_at input (3 * (y * W + x) + 1))
                  (byte_at input (3 * (y * W + x) + 2)) prev0 prev1 prev2)
        as (E0 & E1 & E2); [by apply byte_at_is_byte..|].
      rewrite E0, E1, E2.
      wp_step. wp_step. { lia. }
      wp_step. wp_step. { rewrite length_insert. lia. }
      wp_step. wp_step. { rewrite !length_insert. lia. }
      wp_next.
      * rewrite !length_insert. done.
      * intros i Hi.
        destruct (decide (i < 3 * (y * W + x))).
        -- rewrite !list_lookup_insert_ne by lia. by apply Hdone'.
        -- assert (i = 3 * (y * W + x) + 0 \/ i = 3 * (y * W + x) + 1
                   \/ i = 3 * (y * W + x) + 2) as [-> | [-> | ->]] by lia.
           ++ rewrite !list_lookup_insert_ne by lia.
              rewrite Nat.add_0_r at 1.
              rewrite list_lookup_insert_eq by lia.
              symmetry. apply byte_at_lookup. lia.
           ++ rewrite list_lookup_insert_ne by lia.
              rewrite list_lookup_insert_eq by (rewrite length_insert; lia).
              symmetry. apply byte_at_lookup. lia.
           ++ rewrite list_lookup_insert_eq by (rewrite !length_insert; lia).
              symmetry. apply byte_at_lookup. lia.
      * intros c Hc.
        destruct c as [|[|[|c]]]; simpl; try lia; f_equal; lia.
    + intros [[[[[iy iu] iv] outp] [[prev0 prev1] prev2]] mem']
        (-> & -> & -> & -> & Hl' & Hdone' & Hprev).
      wp_next.
  - intros [[[[iy iu] iv] outp] mem] (-> & -> & -> & -> & Hl & Hdone).
    wp_next.
    apply list_eq. intros i. destruct (decide (i < 3 * n)).
    + apply Hdone. lia.
    + rewrite !lookup_ge_None_2 by lia. done.
Qed.

Lemma PackAndFilter_4_wp {R} W H input img output (Psi : R -> Prop) :
  HeightPixels img = Z.of_nat H -> WidthPixels img = Z.of_nat W ->
  region (Buffer img) = input ->
  (Z.of_nat (4 * (H * W)) < 4294967296)%Z ->
  length input = 4 * (H * W) -> 4 * (H * W) <= length output ->
  wp (PackAndFilter_4 img output)
     (fun mem => length mem = length output /\ rgba_encoded W H input mem) Psi.
Proof.
  intros HH HW Hin Hbound Hlen Hout. unfold PackAndFilter_4.
  rewrite HH, HW, Hin, !Nat2Z.id.
  rewrite (u32_small (Z.of_nat W * Z.of_nat H)) by lia.
  rewrite !u32_small by lia.
  replace (Z.to_nat (Z.of_nat W * Z.of_nat H)) with (H * W) by lia.
  replace (Z.to_nat (Z.of_nat W * Z.of_nat H * 2)) with (2 * (H * W)) by lia.
  replace (Z.to_nat (Z.of_nat W * Z.of_nat H * 3)) with (3 * (H * W)) by lia.
  set (n := H * W) in *.
  apply wp_bind.
  apply (wp_for_loop (fun y '(inp, oy, ou, ov, oa, mem) =>
    inp = 4 * (y * W) /\ oy = y * W /\ ou = n + y * W /\ ov = 2 * n + y * W /\
    oa = 3 * n + y * W /\
    length mem = length output /\
    (forall y' x, x < W -> y' * W + x < y * W -> rgba_cell W H input mem y' x))).
  - wp_next.
  - intros y [[[[[inp oy] ou] ov] oa] mem] Hy (-> & -> & -> & -> & -> & Hl & Hcells).
    apply wp_bind.
    apply (wp_for_loop
      (fun x '(inp, oy, ou, ov, oa, (prev0, prev1, prev2, prev3), mem') =>
      inp = 4 * (y * W + x) /\ oy = y * W + x /\ ou = n + (y * W + x) /\
      ov = 2 * n + (y * W + x) /\ oa = 3 * n + (y * W + x) /\
      length mem' = length output /\
      (forall y' x', x' < W -> y' * W + x' < y * W + x ->
         rgba_cell W H input mem' y' x') /\
      forall c, c < 4 ->
        (if (x =? 0)%nat then 0%Z else byte_at input (4 * (y * W + x) + c - 4))
        = nth c [prev0; prev1; prev2; prev3] 0%Z)).
    + wp_next.
      intros [|[|[|[|c]]]] Hc; simpl; done || lia.
    + intros x [[[[[[inp oy] ou] ov] oa] [[[prev0 prev1] prev2] prev3]] mem'] Hx
        (-> & -> & -> & -> & -> & Hl' & Hcells' & Hprev).
      pose proof (mul_add_lt y x H W Hy Hx) as Hb. fold n in Hb.
      wp_step. wp_step. { apply byte_at_lookup. lia. }
      wp_step. wp_step. { apply byte_at_lookup. lia. }
      wp_step. wp_step. { apply byte_at_lookup. lia. }
      wp_step. wp_step. { apply byte_at_lookup. lia. }
      wp_step. wp_step. { lia. }
      wp_step. wp_step. { rewrite length_insert. lia. }
      wp_step. wp_step. { rewrite !length_insert. lia. }
      wp_step. wp_step. { rewrite !length_insert. lia. }
      wp_next.
      * rewrite !length_insert. done.
      * intros y' x' Hx' Ht.
        destruct (decide (y' * W + x' = y * W + x)) as [E|NE].
        -- apply mul_add_inj in E as [-> ->]; [|done..].
           unfold rgba_cell. cbv zeta. fold n.
           rewrite !(list_lookup_insert_ne _ (3 * n + _) (y * W + x)) by lia.
           rewrite !(list_lookup_insert_ne _ (2 * n + _) (y * W + x)) by lia.
           rewrite !(list_lookup_insert_ne _ (n + _) (y * W + x)) by lia.
           rewrite list_lookup_insert_eq by lia.
           rewrite !(list_lookup_insert_ne _ (3 * n + _) (n + _)) by lia.
           rewrite !(list_lookup_insert_ne _ (2 * n + _) (n + _)) by lia.
           rewrite list_lookup_insert_eq by (rewrite length_insert; lia).
           rewrite !(list_lookup_insert_ne _ (3 * n + _) (2 * n + _)) by lia.
           rewrite list_lookup_insert_eq by (rewrite !length_insert; lia).
           rewrite list_lookup_insert_eq by (rewrite !length_insert; lia).
           unfold planar_delta.
           pose proof (Hprev 0 ltac:(lia)) as P0.
           pose proof (Hprev 1 ltac:(lia)) as P1.
           pose proof (Hprev 2 ltac:(lia)) as P2.
           pose proof (Hprev 3 ltac:(lia)) as P3.
           cbn [nth] in P0, P1, P2, P3. rewrite P0, P1, P2, P3.
           rewrite !Nat.add_0_r. done.
        -- specialize (Hcells' y' x' Hx' ltac:(lia)).
           pose proof (mul_add_lt y' x' H W) as Hb'.
           unfold rgba_cell in *. cbv zeta in *. fold n in Hcells' |- *.
           destruct Hcells' as (Hc0 & Hc1 & Hc2 & Hc3).
           rewrite !list_lookup_insert_ne by lia. done.
      * intros c Hc.
        destruct c as [|[|[|[|c]]]]; simpl; try lia; f_equal; lia.
    + intros [[[[[[inp oy] ou] ov] oa] [[[prev0 prev1] prev2] prev3]] mem']
        (-> & -> & -> & -> & -> & Hl' & Hcells' & Hprev).
      wp_next.
  - intros [[[[[inp oy] ou] ov] oa] mem] (-> & -> & -> & -> & -> & Hl & Hcells).
    wp_next.
    intros y x Hy Hx. apply Hcells; [done|].
    by apply mul_add_lt.
Qed.

Lemma UnpackAndUnfilter_4_wp {R} W H input enc img (Psi : R -> Prop) :
  HeightPixels img = Z.of_nat H -> WidthPixels img = Z.of_nat W ->
  Forall is_byte input ->
  (Z.of_nat (4 * (H * W)) < 4294967296)%Z ->
  length input = 4 * (H * W) -> length (region (Buffer img)) = 4 * (H * W) ->
  rgba_encoded W H input enc ->
  wp (UnpackAndUnfilter_4 enc img) (fun mem => mem = input) Psi.
Proof.
  intros HH HW Hbytes Hbound Hlen Hout Henc. unfold UnpackAndUnfilter_4.
  rewrite HH, HW, !Nat2Z.id.
  rewrite (u32_small (Z.of_nat W * Z.of_nat H)) by lia.
  rewrite !u32_small by lia.
  replace (Z.to_nat (Z.of_nat W * Z.of_nat H)) with (H * W) by lia.
  replace (Z.to_nat (Z.of_nat W * Z.of_nat H * 2)) with (2 * (H * W)) by lia.
  replace (Z.to_nat (Z.of_nat W * Z.of_nat H * 3)) with (3 * (H * W)) by lia.
  set (n := H * W) in *. set (out0 := region (Buffer img)) in *.
  apply wp_bind.
  apply (wp_for_loop (fun y '(iy, iu, iv, ia, outp, mem) =>
    iy = y * W /\ iu = n + y * W /\ iv = 2 * n + y * W /\ ia = 3 * n + y * W /\
    outp = 4 * (y * W) /\
    length mem = length out0 /\
    (forall i, i < 4 * (y * W) -> mem !! i = input !! i))).
  - wp_next.
  - intros y [[[[[iy iu] iv] ia] outp] mem] Hy (-> & -> & -> & -> & -> & Hl & Hdone).
    apply wp_bind.
    apply (wp_for_loop
      (fun x '(iy, iu, iv, ia, outp, (prev0, prev1, prev2, prev3), mem') =>
      iy = y * W + x /\ iu = n + (y * W + x) /\ iv = 2 * n + (y * W + x) /\
      ia = 3 * n + (y * W + x) /\ outp = 4 * (y * W + x) /\
      length mem' = length out0 /\
      (forall i, i < 4 * (y * W + x) -> mem' !! i = input !! i) /\
      forall c, c < 4 ->
        (if (x =? 0)%nat then 0%Z else byte_at input (4 * (y * W + x) + c - 4))
        = nth c [prev0; prev1; prev2; prev3] 0%Z)).
    + wp_next.
      intros [|[|[|[|c]]]] Hc; simpl; done || lia.
    + intros x [[[[[[iy iu] iv] ia] outp] [[[prev0 prev1] prev2] prev3]] mem'] Hx
        (-> & -> & -> & -> & -> & Hl' & Hdone' & Hprev).
      pose proof (mul_add_lt y x H W Hy Hx) as Hb. fold n in Hb.
      destruct (Henc y x Hy Hx) as (Hc0 & Hc1 & Hc2 & Hc3). fold n in Hc1, Hc2, Hc3.
      unfold planar_delta in Hc0, Hc1, Hc2, Hc3.
      pose proof (Hprev 0 ltac:(lia)) as P0.
      pose proof (Hprev 1 ltac:(lia)) as P1.
      pose proof (Hprev 2 ltac:(lia)) as P2.
      pose proof (Hprev 3 ltac:(lia)) as P3.
      cbn [nth] in P0, P1, P2, P3. rewrite P0, P1, P2, P3 in *.
      wp_step. wp_step. { exact Hc0. }
      wp_step. wp_step. { exact Hc1. }
      wp_step. wp_step. { exact Hc2. }
      wp_step. wp_step. { exact Hc3. }
      destruct (rgb_undo (byte_at input (4 * (y * W + x) + 0))
                  (byte_at input (4 * (y * W + x) + 1))
                  (byte_at input (4 * (y * W + x) + 2)) prev0 prev1 prev2)
        as (E0 & E1 & E2); [by apply byte_at_is_byte..|].
      rewrite E0, E1, E2.
      rewrite (u8_sub_add (byte_at input (4 * (y * W + x) + 3)) prev3)
        by (by apply byte_at_is_byte).
      wp_step. wp_step. { lia. }
      wp_step. wp_step. { rewrite length_insert. lia. }
      wp_step. wp_step. { rewrite !length_insert. lia. }
      wp_step. wp_step. { rewrite !length_insert. lia. }
      wp_next.
      * rewrite !length_insert. done.
      * intros i Hi.
        destruct (decide (i < 4 * (y * W + x))).
        -- rewrite !list_lookup_insert_ne by lia. by apply Hdone'.
        -- assert (i = 4 * (y * W + x) + 0 \/ i = 4 * (y * W + x) + 1
                   \/ i = 4 * (y * W + x) + 2 \/ i = 4 * (y * W + x) + 3)
             as [-> | [-> | [-> | ->]]] by lia.
           ++ rewrite !list_lookup_insert_ne by lia.
              rewrite Nat.add_0_r at 1.
              rewrite list_lookup_insert_eq by lia.
              symmetry. apply byte_at_lookup. lia.
           ++ rewrite !list_lookup_insert_ne by lia.
              rewrite list_lookup_insert_eq by (rewrite length_insert; lia).
              symmetry. apply byte_at_lookup. lia.
           ++ rewrite list_lookup_insert_ne by lia.
              rewrite list_lookup_insert_eq by (rewrite !length_insert; lia).
              symmetry. apply byte_at_lookup. lia.
           ++ rewrite list_lookup_insert_eq by (rewrite !length_insert; lia).
              symmetry. apply byte_at_lookup. lia.
      * intros c Hc.
        destruct c as [|[|[|[|c]]]]; simpl; try lia; f_equal; lia.
    + intros [[[[[[iy iu] iv] ia] outp] [[[prev0 prev1] prev2] prev3]] mem']
        (-> & -> & -> & -> & -> & Hl' & Hdone' & Hprev).
      wp_next.
  - intros [[[[[iy iu] iv] ia] outp] mem] (-> & -> & -> & -> & -> & Hl & Hdone).
    wp_next.
    apply list_eq. intros i. destruct (decide (i < 4 * n)).
    + apply Hdone. lia.
    + rewrite !lookup_ge_None_2 by lia. done.
Qed.

(** ** The Bayer filter

    For an image of [2 * a] by [2 * c] bytes: pair of rows [yy], pair of
    columns [q]. *)

Lemma lex_lt a yy' q' yy q :
  q' < a -> q <= a -> yy' * a + q' < yy * a + q ->
  (yy' < yy /\ yy' * a + a <= yy * a) \/ (yy' = yy /\ q' < q).
Proof.
  intros Hq' Hq Hlt. destruct (decide (yy' < yy)) as [Hy|Hy].
  - left. split; [done|]. nia.
  - right. assert (yy' = yy) by nia. subst. lia.
Qed.

Lemma PackAndFilterXGGY_wp {R} a c input img output (Psi : R -> Prop) :
  HeightPixels img = Z.of_nat (2 * c) -> WidthPixels img = Z.of_nat (2 * a) ->
  region (Buffer img) = input ->
  (Z.of_nat (4 * (c * a)) < 4294967296)%Z ->
  4 * (c * a) <= length input -> 4 * (c * a) <= length output ->
  wp (PackAndFilterXGGY img output)
     (fun mem => length mem = length output /\ xggy_encoded a c input mem /\
                 forall i, 4 * (c * a) <= i -> mem !! i = output !! i) Psi.
Proof.
  intros HH HW Hin Hbound Hlen Hout. unfold PackAndFilterXGGY.
  rewrite HH, HW, Hin, !Nat2Z.id.
  rewrite (u32_small (Z.of_nat (2 * a) * Z.of_nat (2 * c))) by lia.
  replace (Z.of_nat (2 * a) * Z.of_nat (2 * c) / 4)%Z with (Z.of_nat (c * a))
    by (apply Z.div_unique_exact; lia).
  rewrite u32_small by lia.
  replace (Z.to_nat (Z.of_nat (c * a) * 2)) with (2 * (c * a)) by lia.
  rewrite Nat2Z.id.
  set (P := c * a) in *.
  apply wp_bind.
  apply (wp_for_loop2 (fun yy '(inp, o_r, o_b, o_g, mem) =>
    inp = 4 * (yy * a) /\ o_r = yy * a /\ o_b = P + yy * a /\
    o_g = 2 * P + 2 * (yy * a) /\
    length mem = length output /\
    (forall yy' q, q < a -> yy' * a + q < yy * a ->
       xggy_even a c input mem yy' q /\ xggy_odd a c input mem yy' q) /\
    (forall i, 4 * P <= i -> mem !! i = output !! i))).
  - wp_next.
  - intros yy [[[[inp o_r] o_b] o_g] mem] Hyy (-> & -> & -> & -> & Hl & Hcells & Hfr).
    assert (yy * a + a <= P) as Hrow by (unfold P; nia).
    apply wp_bind.
    apply (wp_for_loop2 (fun q '(inp, o_r, o_g, (prev0, prev1), mem') =>
      inp = 4 * (yy * a) + 2 * q /\ o_r = yy * a + q /\
      o_g = 2 * P + 2 * (yy * a) + q /\
      length mem' = length output /\
      (forall yy' q', q' < a -> yy' * a + q' < yy * a + q ->
         xggy_even a c input mem' yy' q') /\
      (forall yy' q', q' < a -> yy' * a + q' < yy * a ->
         xggy_odd a c input mem' yy' q') /\
      (forall i, 4 * P <= i -> mem' !! i = output !! i) /\
      prev0 = xggy_prev input q (4 * (yy * a) + 2 * q) /\
      prev1 = xggy_prev input q (4 * (yy * a) + 2 * q + 1))).
    + wp_next.
    + intros q [[[[inp o_r] o_g] [prev0 prev1]] mem'] Hq
        (-> & -> & -> & Hl' & Heven & Hodd & Hfr' & -> & ->).
      pose proof (mul_add_lt yy q c a Hyy Hq) as Hb. fold P in Hb.
      wp_step. wp_step. { apply byte_at_lookup. lia. }
      wp_step. wp_step. { apply byte_at_lookup. lia. }
      wp_step. wp_step. { lia. }
      wp_step. wp_step. { rewrite length_insert. lia. }
      wp_next.
      * rewrite !length_insert. done.
      * intros yy' q' Hq' Ht.
        destruct (decide (yy' * a + q' = yy * a + q)) as [E|NE].
        -- apply mul_add_inj in E as [-> ->]; [|done..].
           unfold xggy_even. cbv zeta. fold P.
           rewrite list_lookup_insert_ne by lia.
           rewrite list_lookup_insert_eq by lia.
           rewrite list_lookup_insert_eq by (rewrite length_insert; lia).
           done.
        -- destruct (Heven yy' q' Hq' ltac:(lia)) as (E0 & E1).
           destruct (lex_lt a yy' q' yy q Hq' ltac:(lia) ltac:(lia)) as [[? ?]|[? ?]];
           pose proof (mul_add_lt yy' q' c a) as Hb';
           unfold xggy_even; cbv zeta; fold P in E0, E1 |- *;
           (rewrite !list_lookup_insert_ne by lia); done.
      * intros yy' q' Hq' Ht.
        destruct (Hodd yy' q' Hq' Ht) as (E0 & E1).
        destruct (lex_lt a yy' q' yy 0 Hq' ltac:(lia) ltac:(lia)) as [[? ?]|[? ?]];
          [|lia].
        unfold xggy_odd; cbv zeta; fold P in E0, E1 |- *.
        rewrite !list_lookup_insert_ne by lia. done.
      * unfold xggy_prev. replace (S q =? 0)%nat with false by done.
        f_equal. lia.
      * unfold xggy_prev. replace (S q =? 0)%nat with false by done.
        f_equal. lia.
    + intros [[[[inp o_r] o_g] [prev0 prev1]] mem']
        (-> & -> & -> & Hl' & Heven & Hodd & Hfr' & _ & _).
      unfold bind at 1.
      apply wp_bind.
      apply (wp_for_loop2 (fun q '(inp, o_b, o_g, (prev0, prev1), mem'') =>
        inp = 4 * (yy * a) + 2 * a + 2 * q /\ o_b = P + yy * a + q /\
        o_g = 2 * P + 2 * (yy * a) + a + q /\
        length mem'' = length output /\
        (forall yy' q', q' < a -> yy' * a + q' < yy * a + a ->
           xggy_even a c input mem'' yy' q') /\
        (forall yy' q', q' < a -> yy' * a + q' < yy * a + q ->
           xggy_odd a c input mem'' yy' q') /\
        (forall i, 4 * P <= i -> mem'' !! i = output !! i) /\
        prev0 = xggy_prev input q (4 * (yy * a) + 2 * a + 2 * q) /\
        prev1 = xggy_prev input q (4 * (yy * a) + 2 * a + 2 * q + 1))).
      * wp_next.
      * clear prev0 prev1. intros q [[[[inp o_b] o_g] [prev0 prev1]] mem''] Hq
          (-> & -> & -> & Hl'' & Heven' & Hodd' & Hfr'' & -> & ->).
        pose proof (mul_add_lt yy q c a Hyy Hq) as Hb. fold P in Hb.
        wp_step. wp_step. { apply byte_at_lookup. lia. }
        wp_step. wp_step. { apply byte_at_lookup. lia. }
        wp_step. wp_step. { lia. }
        wp_step. wp_step. { rewrite length_insert. lia. }
        wp_next.
        -- rewrite !length_insert. done.
        -- intros yy' q' Hq' Ht.
           destruct (Heven' yy' q' Hq' Ht) as (E0 & E1).
           destruct (lex_lt a yy' q' yy a Hq' ltac:(lia) ltac:(lia)) as [[? ?]|[? ?]];
           pose proof (mul_add_lt yy' q' c a) as Hb';
           unfold xggy_even; cbv zeta; fold P in E0, E1 |- *;
           (rewrite !list_lookup_insert_ne by lia); done.
        -- intros yy' q' Hq' Ht.
           destruct (decide (yy' * a + q' = yy * a + q)) as [E|NE].
           ++ apply mul_add_inj in E as [-> ->]; [|done..].
              unfold xggy_odd. cbv zeta. fold P.
              rewrite list_lookup_insert_ne by lia.
              rewrite list_lookup_insert_eq by lia.
              rewrite list_lookup_insert_eq by (rewrite length_insert; lia).
              done.
           ++ destruct (Hodd' yy' q' Hq' ltac:(lia)) as (E0 & E1).
              destruct (lex_lt a yy' q' yy q Hq' ltac:(lia) ltac:(lia)) as [[? ?]|[? ?]];
              pose proof (mul_add_lt yy' q' c a) as Hb';
              unfold xggy_odd; cbv zeta; fold P in E0, E1 |- *;
              (rewrite !list_lookup_insert_ne by lia); done.
        -- unfold xggy_prev. replace (S q =? 0)%nat with false by done.
           f_equal. lia.
        -- unfold xggy_prev. replace (S q =? 0)%nat with false by done.
           f_equal. lia.
      * clear prev0 prev1. intros [[[[inp o_b] o_g] [prev0 prev1]] mem'']
          (-> & -> & -> & Hl'' & Heven' & Hodd' & Hfr'' & _ & _).
        wp_next.
        intros yy' q' Hq' Ht. split; [apply Heven'|apply Hodd']; done || lia.
  - intros [[[[inp o_r] o_b] o_g] mem] (-> & -> & -> & -> & Hl & Hcells & Hfr).
    wp_next.
    intros yy q Hyy Hq. apply Hcells; [done|]. by apply mul_add_lt.
Qed.

Lemma UnpackAndUnfilterXGGY_wp {R} a c input enc img (Psi : R -> Prop) :
  HeightPixels img = Z.of_nat (2 * c) -> WidthPixels img = Z.of_nat (2 * a) ->
  Forall is_byte input ->
  (Z.of_nat (4 * (c * a)) < 4294967296)%Z ->
  length input = 4 * (c * a) -> length (region (Buffer img)) = 4 * (c * a) ->
  xggy_encoded a c input enc ->
  wp (UnpackAndUnfilterXGGY enc img) (fun mem => mem = input) Psi.
Proof.
  intros HH HW Hbytes Hbound Hlen Hout Henc. unfold UnpackAndUnfilterXGGY.
  rewrite HH, HW, !Nat2Z.id.
  rewrite (u32_small (Z.of_nat (2 * a) * Z.of_nat (2 * c))) by lia.
  replace (Z.of_nat (2 * a) * Z.of_nat (2 * c) / 4)%Z with (Z.of_nat (c * a))
    by (apply Z.div_unique_exact; lia).
  rewrite u32_small by lia.
  replace (Z.to_nat (Z.of_nat (c * a) * 2)) with (2 * (c * a)) by lia.
  rewrite Nat2Z.id.
  set (P := c * a) in *. set (out0 := region (Buffer img)) in *.
  apply wp_bind.
  apply (wp_for_loop2 (fun yy '(i_r, i_b, i_g, outp, mem) =>
    i_r = yy * a /\ i_b = P + yy * a /\ i_g = 2 * P + 2 * (yy * a) /\
    outp = 4 * (yy * a) /\
    length mem = length out0 /\
    (forall i, i < 4 * (yy * a) -> mem !! i = input !! i))).
  - wp_next.
  - intros yy [[[[i_r i_b] i_g] outp] mem] Hyy (-> & -> & -> & -> & Hl & Hdone).
    assert (yy * a + a <= P) as Hrow by (unfold P; nia).
    apply wp_bind.
    apply (wp_for_loop2 (fun q '(i_r, i_g, outp, (prev0, prev1), mem') =>
      i_r = yy * a + q /\ i_g = 2 * P + 2 * (yy * a) + q /\
      outp = 4 * (yy * a) + 2 * q /\
      length mem' = length out0 /\
      (forall i, i < 4 * (yy * a) + 2 * q -> mem' !! i = input !! i) /\
      prev0 = xggy_prev input q (4 * (yy * a) + 2 * q) /\
      prev1 = xggy_prev input q (4 * (yy * a) + 2 * q + 1))).
    + wp_next.
    + intros q [[[[i_r i_g] outp] [prev0 prev1]] mem'] Hq
        (-> & -> & -> & Hl' & Hdone' & -> & ->).
      pose proof (mul_add_lt yy q c a Hyy Hq) as Hb. fold P in Hb.
      destruct (Henc yy q Hyy Hq) as ((E0 & E1) & _). fold P in E1.
      wp_step. wp_step. { exact E0. }
      wp_step. wp_step. { exact E1. }
      rewrite !u8_sub_add by (by apply byte_at_is_byte).
      wp_step. wp_step. { lia. }
      wp_step. wp_step. { rewrite length_insert. lia. }
      wp_next.
      * rewrite !length_insert. done.
      * intros i Hi.
        destruct (decide (i < 4 * (yy * a) + 2 * q)).
        -- rewrite !list_lookup_insert_ne by lia. by apply Hdone'.
        -- assert (i = 4 * (yy * a) + 2 * q \/ i = 4 * (yy * a) + 2 * q + 1)
             as [-> | ->] by lia.
           ++ rewrite list_lookup_insert_ne by lia.
              rewrite list_lookup_insert_eq by lia.
              symmetry. apply byte_at_lookup. lia.
           ++ rewrite list_lookup_insert_eq by (rewrite length_insert; lia).
              symmetry. apply byte_at_lookup. lia.
      * unfold xggy_prev. replace (S q =? 0)%nat with false by done.
        f_equal. lia.
      * unfold xggy_prev. replace (S q =? 0)%nat with false by done.
        f_equal. lia.
    + intros [[[[i_r i_g] outp] [prev0 prev1]] mem']
        (-> & -> & -> & Hl' & Hdone' & _ & _).
      unfold bind at 1.
      apply wp_bind.
      apply (wp_for_loop2 (fun q '(i_b, i_g, outp, (prev0, prev1), mem'') =>
        i_b = P + yy * a + q /\ i_g = 2 * P + 2 * (yy * a) + a + q /\
        outp = 4 * (yy * a) + 2 * a + 2 * q /\
        length mem'' = length out0 /\
        (forall i, i < 4 * (yy * a) + 2 * a + 2 * q -> mem'' !! i = input !! i) /\
        prev0 = xggy_prev input q (4 * (yy * a) + 2 * a + 2 * q) /\
        prev1 = xggy_prev input q (4 * (yy * a) + 2 * a + 2 * q + 1))).
      * wp_next.
      * clear prev0 prev1. intros q [[[[i_b i_g] outp] [prev0 prev1]] mem''] Hq
          (-> & -> & -> & Hl'' & Hdone'' & -> & ->).
        pose proof (mul_add_lt yy q c a Hyy Hq) as Hb. fold P in Hb.
        destruct (Henc yy q Hyy Hq) as (_ & (E0 & E1)). fold P in E0, E1.
        wp_step. wp_step. { exact E1. }
        wp_step. wp_step. { exact E0. }
        rewrite !u8_sub_add by (by apply byte_at_is_byte).
        wp_step. wp_step. { lia. }
        wp_step. wp_step. { rewrite length_insert. lia. }
        wp_next.
        -- rewrite !length_insert. done.
        -- intros i Hi.
           destruct (decide (i < 4 * (yy * a) + 2 * a + 2 * q)).
           ++ rewrite !list_lookup_insert_ne by lia. by apply Hdone''.
           ++ assert (i = 4 * (yy * a) + 2 * a + 2 * q
                      \/ i = 4 * (yy * a) + 2 * a + 2 * q + 1)
                as [-> | ->] by lia.
              ** rewrite list_lookup_insert_ne by lia.
                 rewrite list_lookup_insert_eq by lia.
                 symmetry. apply byte_at_lookup. lia.
              ** rewrite list_lookup_insert_eq by (rewrite length_insert; lia).
                 symmetry. apply byte_at_lookup. lia.
        -- unfold xggy_prev. replace (S q =? 0)%nat with false by done.
           f_equal. lia.
        -- unfold xggy_prev. replace (S q =? 0)%nat with false by done.
           f_equal. lia.
      * clear prev0 prev1. intros [[[[i_b i_g] outp] [prev0 prev1]] mem'']
          (-> & -> & -> & Hl'' & Hdone'' & _ & _).
        wp_next.
  - intros [[[[i_r i_b] i_g] outp] mem] (-> & -> & -> & -> & Hl & Hdone).
    wp_next.
    apply list_eq. intros i. destruct (decide (i < 4 * P)).
    + apply Hdone. lia.
    + rewrite !lookup_ge_None_2 by lia. done.
Qed.

(** ** The inter filter *)

Lemma wpf_bind {S T R} (m : outcome S R) (f : S -> outcome T R) Phi Psi Xi :
  wpf m (fun s => wpf (f s) Phi Psi Xi) Psi Xi -> wpf (bind m f) Phi Psi Xi.
Proof. by destruct m. Qed.

Lemma wpf_mono {S R} (m : outcome S R) (Phi Phi' : S -> Prop) Psi Xi :
  wpf m Phi Psi Xi -> (forall s, Phi s -> Phi' s) -> wpf m Phi' Psi Xi.
Proof. destruct m; simpl; auto. Qed.

Lemma wpf_for_from {S R} (I : nat -> S -> Prop) n i0
    (body : nat -> S -> outcome S R) s0 (Phi : S -> Prop) Psi Xi :
  I i0 s0 ->
  (forall i s, i0 <= i < i0 + n -> I i s ->
     wpf (body i s) (I (Datatypes.S i)) Psi Xi) ->
  (forall s, I (i0 + n) s -> Phi s) ->
  wpf (for_from n i0 body s0) Phi Psi Xi.
Proof.
  revert i0 s0. induction n as [|n IH]; intros i0 s0 H0 Hbody Hpost; simpl.
  - apply Hpost. by rewrite Nat.add_0_r.
  - apply wpf_bind. eapply wpf_mono; [apply (Hbody i0 s0); [lia|done]|].
    intros s Hs. apply IH; [done| |].
    + intros i s' Hi. apply Hbody. lia.
    + intros s' Hs'. apply Hpost.
      by replace (i0 + Datatypes.S n) with (Datatypes.S i0 + n) by lia.
Qed.

Lemma wpf_for_loop {S R} (I : nat -> S -> Prop) n
    (body : nat -> S -> outcome S R) s0 (Phi : S -> Prop) Psi Xi :
  I 0 s0 ->
  (forall i s, i < n -> I i s -> wpf (body i s) (I (Datatypes.S i)) Psi Xi) ->
  (forall s, I n s -> Phi s) ->
  wpf (for_loop n body s0) Phi Psi Xi.
Proof.
  intros H0 Hbody Hpost. apply (wpf_for_from I); [done| |done].
  intros i s Hi. apply Hbody. lia.
Qed.

Lemma wpf_load {R} (l : list Z) i v (Phi : Z -> Prop) (Psi : R -> Prop) Xi :
  l !! i = Some v -> Phi v -> wpf (load l i) Phi Psi Xi.
Proof. intros H HP. unfold load. by rewrite H. Qed.

Lemma wpf_store {R} (l : list Z) i v (Phi : list Z -> Prop) (Psi : R -> Prop) Xi :
  i < length l -> Phi (<[i:=v]> l) -> wpf (store l i v) Phi Psi Xi.
Proof.
  intros H HP. unfold store. apply Nat.ltb_lt in H. by rewrite H.
Qed.

Ltac wpf_step :=
  lazymatch goal with
  | |- wpf (bind _ _) _ _ _ => apply wpf_bind
  | |- wpf (load _ _) _ _ _ => eapply wpf_load; [ | ]
  | |- wpf (store _ _ _) _ _ _ => apply wpf_store; [ | ]
  end.
Ltac wpf_next := unfold wpf; cbv beta iota zeta; conjs; easy_goal.

Lemma overflow_count_snoc cur ref a r :
  length cur = length ref ->
  overflow_count (cur ++ [a]) (ref ++ [r])
  = overflow_count cur ref + (if overflows a r then 1 else 0).
Proof.
  revert ref. induction cur as [|a' cur IH]; intros [|r' ref] Hl;
    simpl in *; try lia.
  rewrite IH by lia. lia.
Qed.

Lemma overflows_before_S cur ref m :
  m < length cur -> m < length ref ->
  overflows_before cur ref (Datatypes.S m)
  = overflows_before cur ref m
    + (if overflows (byte_at cur m) (byte_at ref m) then 1 else 0).
Proof.
  intros Hc Hr. unfold overflows_before.
  rewrite (take_S_r cur m (byte_at cur m)) by by apply byte_at_lookup.
  rewrite (take_S_r ref m (byte_at ref m)) by by apply byte_at_lookup.
  apply overflow_count_snoc. rewrite !length_take. lia.
Qed.

Lemma overflows_before_mono cur ref m m' :
  m <= m' -> m' <= length cur -> m' <= length ref ->
  overflows_before cur ref m <= overflows_before cur ref m'.
Proof.
  induction 1 as [|m' Hle IH]; intros Hc Hr; [done|].
  rewrite overflows_before_S by lia. specialize (IH ltac:(lia) ltac:(lia)). lia.
Qed.

Lemma overflows_before_all cur ref :
  length cur = length ref ->
  overflows_before cur ref (length cur) = overflow_count cur ref.
Proof.
  intros Hl. unfold overflows_before. rewrite take_ge by lia.
  rewrite take_ge by lia. done.
Qed.

Lemma overflows_before_lt cur ref j m :
  j < m -> m <= length cur -> m <= length ref ->
  overflows (byte_at cur j) (byte_at ref j) = true ->
  overflows_before cur ref j < overflows_before cur ref m.
Proof.
  intros Hj Hc Hr Hov.
  pose proof (overflows_before_mono cur ref (Datatypes.S j) m ltac:(lia) Hc Hr).
  rewrite overflows_before_S in * by lia. rewrite Hov in *. lia.
Qed.

Lemma PackAndFilterVideo_spec {R} k W H cur ref refD img output :
  HeightPixels img = Z.of_nat H -> WidthPixels img = Z.of_nat W ->
  region (Buffer img) = cur -> region (Buffer refD) = ref ->
  (Z.of_nat (H * W * k) < 4294967296)%Z ->
  length cur = H * W * k -> length ref = H * W * k ->
  H * W * k + 1000 <= length output ->
  (overflow_count cur ref <= 1000 /\
   exists mem,
     @PackAndFilterVideo R k refD img output
     = Next (Z.of_nat (overflow_count cur ref), mem) /\
     length mem = length output /\
     video_encoded (H * W * k) cur ref mem) \/
  (1000 < overflow_count cur ref /\
   exists mem0,
     length mem0 = length output /\
     @PackAndFilterVideo R k refD img output
     = call (do mem <- PackAndFilterXGGY img mem0; Exit ((-1)%Z, mem))).
Proof.
  intros HH HW Hcur Href Hbound Hlc Hlr Hout. unfold PackAndFilterVideo.
  rewrite HH, HW, Hcur, Href, !Nat2Z.id.
  rewrite u32_small by lia.
  replace (Z.to_nat (Z.of_nat H * Z.of_nat W * Z.of_nat k)) with (H * W * k) by lia.
  set (N := H * W * k) in *.
  set (cnt := overflows_before cur ref).
  assert (Htotal : cnt N = overflow_count cur ref).
  { unfold cnt. rewrite <- Hlc. apply overflows_before_all. lia. }
  set (Q := fun o : outcome (Z * list Z) (Z * list Z) =>
    (overflow_count cur ref <= 1000 /\
     exists mem, o = Exit (Z.of_nat (overflow_count cur ref), mem) /\
       length mem = length output /\ video_encoded N cur ref mem) \/
    (1000 < overflow_count cur ref /\
     exists mem0, length mem0 = length output /\
       o = (do mem <- PackAndFilterXGGY img mem0; Exit ((-1)%Z, mem)))).
  set (Inv := fun (base m overflow : nat) (overflowCount : Z) (mem : list Z) =>
    overflow = N + cnt m /\ overflowCount = Z.of_nat (cnt m) /\ cnt m <= 1000 /\
    length mem = length output /\
    forall j, j < m ->
      mem !! j = Some (video_byte cur ref j) /\
      (overflows (byte_at cur j) (byte_at ref j) = true ->
       mem !! (N + cnt j) = Some (byte_at cur j))).
  match goal with |- context [call ?m] => set (body := m) end.
  assert (Hwp : wpf body (fun _ => False) (fun r => Q (Exit r)) (Q Fault)).
  { unfold body. apply wpf_bind.
    apply (wpf_for_loop (fun y '(refp, inp, outp, overflow, overflowCount, mem) =>
      refp = y * W * k /\ inp = y * W * k /\ outp = y * W * k /\
      Inv (y * W * k) (y * W * k) overflow overflowCount mem)).
    - unfold Inv, cnt, overflows_before. rewrite !take_0. simpl.
      conjs; easy_goal.
    - intros y [[[[[refp inp] outp] overflow] overflowCount] mem] Hy
        (-> & -> & -> & HInv).
      apply (wpf_for_loop (fun x '(refp, inp, outp, overflow, overflowCount, mem) =>
        refp = (y * W + x) * k /\ inp = (y * W + x) * k /\ outp = (y * W + x) * k /\
        Inv ((y * W + x) * k) ((y * W + x) * k) overflow overflowCount mem)).
      + conjs; try lia. by replace ((y * W + 0) * k) with (y * W * k) by lia.
      + clear dependent mem. clear overflow overflowCount.
        intros x [[[[[refp inp] outp] overflow] overflowCount] mem] Hx
          (-> & -> & -> & HInv).
        set (base := (y * W + x) * k) in *.
        assert (base + k <= N) as Hbase.
        { pose proof (mul_add_lt y x H W Hy Hx). unfold base, N. nia. }
        apply wpf_bind.
        apply (wpf_for_loop (fun i '(overflow, overflowCount, mem) =>
          Inv base (base + i) overflow overflowCount mem)).
        * by rewrite Nat.add_0_r.
        * clear dependent mem. clear overflow overflowCount.
          intros i [[overflow overflowCount] mem] Hi
            (-> & -> & Hcnt & Hl & Hcells).
          wpf_step. wpf_step. { apply byte_at_lookup. lia. }
          wpf_step. wpf_step. { apply byte_at_lookup. lia. }
          cbv zeta.
          pose proof (overflows_before_S cur ref (base + i) ltac:(lia) ltac:(lia))
            as HS. fold cnt in HS.
          change ((byte_at cur (base + i) - byte_at ref (base + i) >? 127)
                  || (byte_at cur (base + i) - byte_at ref (base + i) <? -127))%Z
            with (overflows (byte_at cur (base + i)) (byte_at ref (base + i))).
          destruct (overflows (byte_at cur (base + i)) (byte_at ref (base + i)))
            eqn:Hov.
          -- destruct (decide (cnt (base + i) = 1000)) as [E|NE].
             ++ rewrite E. simpl Z.eqb. cbv iota.
                assert (1000 < overflow_count cur ref) as Hbig.
                { rewrite <- Htotal.
                  pose proof (overflows_before_mono cur ref
                    (Datatypes.S (base + i)) N ltac:(lia) ltac:(lia) ltac:(lia)).
                  fold cnt in H0. lia. }
                destruct (PackAndFilterXGGY img mem) as [mem'|r|] eqn:EX;
                  simpl; right; (split; [done|]); exists mem;
                  (split; [done|]); rewrite EX; done.
             ++ rewrite (proj2 (Z.eqb_neq (Z.of_nat (cnt (base + i))) 1000))
                  by lia.
                wpf_step. wpf_step. { lia. }
                wpf_step. wpf_step. { rewrite length_insert. lia. }
                unfold wpf, Inv.
                replace (base + Datatypes.S i) with (Datatypes.S (base + i)) by lia.
                rewrite HS, !length_insert. conjs; try lia.
                intros j Hj. destruct (decide (j = base + i)) as [->|Hne].
                ** split.
                   --- rewrite list_lookup_insert_ne by lia.
                       rewrite list_lookup_insert_eq by lia.
                       unfold video_byte. by rewrite Hov.
                   --- intros _.
                       rewrite list_lookup_insert_eq by (rewrite length_insert; lia).
                       done.
                ** destruct (Hcells j ltac:(lia)) as [Hc1 Hc2]. split.
                   --- rewrite !list_lookup_insert_ne by lia. done.
                   --- intros Hovj.
                       pose proof (overflows_before_lt cur ref j (base + i)
                         ltac:(lia) ltac:(lia) ltac:(lia) Hovj) as Hlt.
                       fold cnt in Hlt.
                       rewrite !list_lookup_insert_ne by lia. by apply Hc2.
          -- wpf_step. wpf_step. { lia. }
             unfold wpf, Inv.
             replace (base + Datatypes.S i) with (Datatypes.S (base + i)) by lia.
             rewrite HS, !length_insert, !Nat.add_0_r. conjs; try done.
             intros j Hj. destruct (decide (j = base + i)) as [->|Hne].
             ** split.
                --- rewrite list_lookup_insert_eq by lia.
                    unfold video_byte. by rewrite Hov.
                --- intros Hovj. congruence.
             ** destruct (Hcells j ltac:(lia)) as [Hc1 Hc2]. split.
                --- rewrite !list_lookup_insert_ne by lia. done.
                --- intros Hovj. rewrite !list_lookup_insert_ne by lia.
                    by apply Hc2.
        * clear dependent mem. clear overflow overflowCount.
          intros [[overflow overflowCount] mem] HInv.
          unfold wpf. conjs; try (unfold base; lia).
          by replace ((y * W + Datatypes.S x) * k) with (base + k)
            by (unfold base; lia).
      + clear dependent mem. clear overflow overflowCount.
        intros [[[[[refp inp] outp] overflow] overflowCount] mem]
          (-> & -> & -> & HInv).
        conjs; try lia.
        by replace (Datatypes.S y * W * k) with ((y * W + W) * k) by lia.
    - intros [[[[[refp inp] outp] overflow] overflowCount] mem]
        (-> & -> & -> & -> & -> & Hcnt & Hl & Hcells).
      unfold wpf, Q. left. pose proof Htotal as Ht. unfold N in Ht.
      rewrite Ht in *.
      split; [done|]. exists mem. conjs; done. }
  destruct body as [s|r|]; simpl in Hwp; [done| |].
  - destruct Hwp as [(Hle & mem & E & Hl & Henc)|(Hgt & mem0 & Hl & E)].
    + left. split; [done|]. exists mem. injection E as ->. done.
    + right. split; [done|]. exists mem0. split; [done|]. by rewrite <- E.
  - destruct Hwp as [(Hle & mem & E & Hl & Henc)|(Hgt & mem0 & Hl & E)].
    + done.
    + right. split; [done|]. exists mem0. split; [done|]. by rewrite <- E.
Qed.

(** A delta that is emitted is never the escape byte. *)
Lemma u8_delta_not_escape a r :
  overflows a r = false -> u8 (a - r) <> 0x80%Z.
Proof.
  unfold overflows, u8. intros Hov.
  apply orb_false_iff in Hov as [H1 H2].
  rewrite Z.gtb_ltb in H1. apply Z.ltb_ge in H1. apply Z.ltb_ge in H2.
  Z.div_mod_to_equations. lia.
Qed.

Lemma u8_add_delta a r : is_byte a -> u8 (r + u8 (a - r)) = a.
Proof.
  unfold is_byte, u8. intros H. Z.div_mod_to_equations. lia.
Qed.

Lemma UnpackAndUnfilterVideo_wp {R} k W H cur ref refD enc img
    (Psi : R -> Prop) :
  HeightPixels img = Z.of_nat H -> WidthPixels img = Z.of_nat W ->
  region (Buffer refD) = ref ->
  Forall is_byte cur ->
  (Z.of_nat (H * W * k) < 4294967296)%Z ->
  length cur = H * W * k -> length ref = H * W * k ->
  length (region (Buffer img)) = H * W * k ->
  video_encoded (H * W * k) cur ref enc ->
  wp (UnpackAndUnfilterVideo k refD enc img) (fun mem => mem = cur) Psi.
Proof.
  intros HH HW Href Hbytes Hbound Hlc Hlr Hlo Henc.
  unfold UnpackAndUnfilterVideo.
  rewrite HH, HW, Href, !Nat2Z.id.
  rewrite u32_small by lia.
  replace (Z.to_nat (Z.of_nat H * Z.of_nat W * Z.of_nat k)) with (H * W * k) by lia.
  set (N := H * W * k) in *. set (out0 := region (Buffer img)) in *.
  set (cnt := overflows_before cur ref).
  set (Inv := fun (m overflow : nat) (mem : list Z) =>
    overflow = N + cnt m /\ length mem = length out0 /\
    forall j, j < m -> mem !! j = cur !! j).
  apply wp_bind.
  apply (wp_for_loop (fun y '(refp, inp, outp, overflow, mem) =>
    refp = y * W * k /\ inp = y * W * k /\ outp = y * W * k /\
    Inv (y * W * k) overflow mem)).
  - unfold Inv, cnt, overflows_before. rewrite !take_0. simpl.
    conjs; easy_goal.
  - intros y [[[[refp inp] outp] overflow] mem] Hy (-> & -> & -> & HInv).
    apply (wp_for_loop (fun x '(refp, inp, outp, overflow, mem) =>
      refp = (y * W + x) * k /\ inp = (y * W + x) * k /\ outp = (y * W + x) * k /\
      Inv ((y * W + x) * k) overflow mem)).
    + conjs; try lia. by replace ((y * W + 0) * k) with (y * W * k) by lia.
    + clear dependent mem. clear overflow.
      intros x [[[[refp inp] outp] overflow] mem] Hx (-> & -> & -> & HInv).
      set (base := (y * W + x) * k) in *.
      assert (base + k <= N) as Hbase.
      { pose proof (mul_add_lt y x H W Hy Hx). unfold base, N. nia. }
      apply wp_bind.
      apply (wp_for_loop (fun i '(overflow, mem) => Inv (base + i) overflow mem)).
      * by rewrite Nat.add_0_r.
      * clear dependent mem. clear overflow.
        intros i [overflow mem] Hi (-> & Hl & Hdone).
        destruct (Henc (base + i) ltac:(lia)) as [Hmain Hlit].
        pose proof (overflows_before_S cur ref (base + i) ltac:(lia) ltac:(lia))
          as HS. fold cnt in HS.
        wp_step. wp_step. { exact Hmain. }
        unfold video_byte in *.
        destruct (overflows (byte_at cur (base + i)) (byte_at ref (base + i)))
          eqn:Hov.
        -- simpl Z.eqb. cbv iota.
           wp_step. wp_step. { by apply Hlit. }
           wp_step. wp_step. { lia. }
           unfold wp, Inv.
           replace (base + Datatypes.S i) with (Datatypes.S (base + i)) by lia.
           rewrite HS, length_insert. conjs; try lia.
           intros j Hj. destruct (decide (j = base + i)) as [->|Hne].
           ++ rewrite list_lookup_insert_eq by lia.
              symmetry. apply byte_at_lookup. lia.
           ++ rewrite list_lookup_insert_ne by lia. apply Hdone. lia.
        -- rewrite (proj2 (Z.eqb_neq _ _) (u8_delta_not_escape _ _ Hov)).
           wp_step. wp_step. { apply byte_at_lookup. lia. }
           wp_step. wp_step. { lia. }
           unfold wp, Inv.
           replace (base + Datatypes.S i) with (Datatypes.S (base + i)) by lia.
           rewrite HS, length_insert, Nat.add_0_r. conjs; try lia.
           intros j Hj. destruct (decide (j = base + i)) as [->|Hne].
           ++ rewrite list_lookup_insert_eq by lia.
              rewrite u8_add_delta by (by apply byte_at_is_byte).
              symmetry. apply byte_at_lookup. lia.
           ++ rewrite list_lookup_insert_ne by lia. apply Hdone. lia.
      * clear dependent mem. clear overflow.
        intros [overflow mem] HInv.
        unfold wp. conjs; try (unfold base; lia).
        by replace ((y * W + Datatypes.S x) * k) with (base + k)
          by (unfold base; lia).
    + clear dependent mem. clear overflow.
      intros [[[[refp inp] outp] overflow] mem] (-> & -> & -> & HInv).
      conjs; try lia.
      by replace (Datatypes.S y * W * k) with ((y * W + W) * k) by lia.
  - intros [[[[refp inp] outp] overflow] mem] (-> & -> & -> & -> & Hl & Hdone).
    unfold wp.
    apply list_eq. intros i. destruct (decide (i < N)).
    + by apply Hdone.
    + rewrite !lookup_ge_None_2 by lia. done.
Qed.

(** ** The intra filters by channel count *)

Lemma PackAndFilter_wp {R} k W H input img output (Psi : R -> Prop) :
  HeightPixels img = Z.of_nat H -> WidthPixels img = Z.of_nat W ->
  region (Buffer img) = input ->
  (Z.of_nat (k * (H * W)) < 4294967296)%Z ->
  length input = k * (H * W) -> k * (H * W) <= length output ->
  wp (PackAndFilter k img output)
     (fun mem => length mem = length output /\ intra_encoded k W H input mem)
     Psi.
Proof.
  intros HH HW Hin Hbound Hlen Hout.
  assert (k = 3 \/ k = 4 \/ (k <> 3 /\ k <> 4)) as [-> | [-> | [H3 H4]]] by lia.
  - by apply PackAndFilter_3_wp.
  - by apply PackAndFilter_4_wp.
  - assert (PackAndFilter (R:=R) k = PackAndFilter_generic k) as ->.
    { by destruct k as [|[|[|[|[|k]]]]]. }
    assert (intra_encoded k = generic_encoded k) as ->.
    { by destruct k as [|[|[|[|[|k]]]]]. }
    eapply wp_mono; [apply (PackAndFilter_generic_wp k W H input)| |done];
      try done; try lia.
    intros mem (? & ? & ?). done.
Qed.

Lemma UnpackAndUnfilter_wp {R} k W H input enc img (Psi : R -> Prop) :
  HeightPixels img = Z.of_nat H -> WidthPixels img = Z.of_nat W ->
  Forall is_byte input ->
  (Z.of_nat (k * (H * W)) < 4294967296)%Z ->
  length input = k * (H * W) -> length (region (Buffer img)) = k * (H * W) ->
  intra_encoded k W H input enc ->
  wp (UnpackAndUnfilter k enc img) (fun mem => mem = input) Psi.
Proof.
  intros HH HW Hbytes Hbound Hlen Hout Henc.
  assert (k = 3 \/ k = 4 \/ (k <> 3 /\ k <> 4)) as [-> | [-> | [H3 H4]]] by lia.
  - by apply (UnpackAndUnfilter_3_wp W H).
  - by apply (UnpackAndUnfilter_4_wp W H).
  - assert (UnpackAndUnfilter (R:=R) k = UnpackAndUnfilter_generic k) as ->.
    { by destruct k as [|[|[|[|[|k]]]]]. }
    assert (intra_encoded k = generic_encoded k) as Hk.
    { by destruct k as [|[|[|[|[|k]]]]]. }
    rewrite Hk in Henc.
    apply (UnpackAndUnfilter_generic_wp k W H); try done; lia.
Qed.

(** The encodings are statements about the first bytes of the packed
    buffer only. *)
Lemma intra_encoded_agree k W H input mem mem' :
  (forall i, i < k * (H * W) -> mem' !! i = mem !! i) ->
  intra_encoded k W H input mem -> intra_encoded k W H input mem'.
Proof.
  intros Hagree Henc.
  assert (k = 3 \/ k = 4 \/ (k <> 3 /\ k <> 4)) as [-> | [-> | [H3 H4]]] by lia.
  - intros y x Hy Hx. destruct (Henc y x Hy Hx) as (E0 & E1 & E2).
    pose proof (mul_add_lt y x H W Hy Hx).
    unfold rgb_cell. cbv zeta. rewrite !Hagree by lia. done.
  - intros y x Hy Hx. destruct (Henc y x Hy Hx) as (E0 & E1 & E2 & E3).
    pose proof (mul_add_lt y x H W Hy Hx).
    unfold rgba_cell. cbv zeta. rewrite !Hagree by lia. done.
  - assert (intra_encoded k = generic_encoded k) as Hk.
    { by destruct k as [|[|[|[|[|k]]]]]. }
    rewrite Hk in *. intros y j Hy Hj.
    pose proof (mul_add_lt y j H (W * k) Hy Hj).
    rewrite Hagree by lia. by apply Henc.
Qed.

Lemma xggy_encoded_agree a c input mem mem' :
  (forall i, i < 4 * (c * a) -> mem' !! i = mem !! i) ->
  xggy_encoded a c input mem -> xggy_encoded a c input mem'.
Proof.
  intros Hagree Henc yy q Hyy Hq.
  destruct (Henc yy q Hyy Hq) as ((E0 & E1) & (O0 & O1)).
  pose proof (mul_add_lt yy q c a Hyy Hq).
  assert (yy * a + a <= c * a) by nia.
  unfold xggy_even, xggy_odd. cbv zeta. rewrite !Hagree by lia. done.
Qed.

Lemma lookup_write_at_0 (src dst : list Z) i :
  i < length src -> write_at 0 src dst !! i = src !! i.
Proof.
  intros Hi. unfold write_at. rewrite take_0. simpl. by apply lookup_app_l.
Qed.

Lemma length_write_at off (src dst : list Z) :
  off + length src <= length dst ->
  length (write_at off src dst) = length dst.
Proof.
  intros H. unfold write_at.
  rewrite !length_app, length_take, length_drop. lia.
Qed.

(** ** The facade *)

Section Facade.
Local Open Scope Z_scope.
Variable rt : Runtime.

Lemma gtb_false a b : a <= b -> (a >? b) = false.
Proof. intros H. rewrite Z.gtb_ltb. by apply Z.ltb_ge. Qed.

Lemma ltb_false a b : b <= a -> (a <? b) = false.
Proof. intros H. by apply Z.ltb_ge. Qed.

Lemma pixel_bytes_nonneg d : sizes_fit rt d -> 0 <= pixel_bytes d.
Proof.
  intros (HW & HH & HC & HB & _). unfold pixel_bytes.
  destruct (BytesPerChannel d >? 8); [lia|].
  unfold u32. apply Z.mod_pos_bound. lia.
Qed.

Lemma byte_count_nonneg d : sizes_fit rt d -> 0 <= byte_count d.
Proof.
  intros Hs. pose proof (pixel_bytes_nonneg d Hs).
  destruct Hs as (HW & HH & _). unfold byte_count. nia.
Qed.

Lemma compress_after_pass1 refData d dictionary n packing1 :
  sizes_fit rt d -> pixel_bytes d <= 8 ->
  (forall size, calloc_ok rt size = true) ->
  @Pass1_PackAndFilter (Z * ZPNG_Buffer * dictionary_slot)
    refData d (pixel_bytes d) (zeroed (byte_count d + 1000))
    = Next (n, packing1) ->
  length packing1 = Z.to_nat (byte_count d + 1000) ->
  -1 <= n <= 0 ->
  exists compressed,
    (forall cap, byte_count d <= cap ->
       ZSTD_decompress rt cap compressed
       = Some (take (Z.to_nat (byte_count d)) packing1)) /\
    Z.of_nat (length compressed) <= ZSTD_compressBound rt (byte_count d) /\
    ZPNG_CompressVideoToBuffer rt refData d {| Data := None; Bytes := 0 |}
      false dictionary
    = Some (0,
            {| Data := Some
                 (write_at 0
                    (header_bytes
                       (header_of
                          (if non_null refData && (n >=? 0)
                           then ZPNG_VIDEO_HEADER_MAGIC else ZPNG_HEADER_MAGIC)
                          d))
                    (write_at 8 compressed
                       (zeroed (ZPNG_HEADER_OVERHEAD_BYTES
                                + ZSTD_compressBound rt (byte_count d)))));
               Bytes := ZPNG_HEADER_OVERHEAD_BYTES
                        + Z.of_nat (length compressed) |},
            dictionary).
Proof.
  intros Hs Hpb Hmem Hpass Hlen Hn.
  pose proof (byte_count_nonneg d Hs) as HB0.
  pose proof (pixel_bytes_nonneg d Hs) as Hpb0.
  pose proof (ZSTD_compressBound_ge rt _ HB0) as Hbound.
  destruct Hs as (HW & HH & HC & HBpc & HB & Hout).
  unfold ZPNG_HEADER_OVERHEAD_BYTES in *.
  set (B := byte_count d) in *.
  set (src := take (Z.to_nat B) packing1).
  assert (Hsrc : Z.of_nat (length src) = B).
  { unfold src. rewrite length_take. lia. }
  destruct (ZSTD_compress_bound rt (ZSTD_compressBound rt B) src)
    as [compressed Hc]; [rewrite Hsrc; lia|].
  assert (Hdec : forall cap, B <= cap ->
            ZSTD_decompress rt cap compressed = Some src).
  { intros cap Hcap. eapply ZSTD_decompress_compress; [exact Hc|lia]. }
  assert (Hfit : Z.of_nat (length compressed) <= ZSTD_compressBound rt B)
    by (by eapply ZSTD_compress_fits).
  exists compressed. split; [exact Hdec|]. split; [exact Hfit|].
  unfold ZPNG_CompressVideoToBuffer. cbv zeta.
  unfold ZPNG_HEADER_OVERHEAD_BYTES.
  rewrite (u32_small (WidthPixels d * HeightPixels d)) by nia.
  fold (byte_count d). fold B.
  rewrite (u32_small B) by lia.
  rewrite (u32_small (B + 1000)) by lia.
  rewrite (u32_small (ZSTD_compressBound rt B)) by lia.
  rewrite (u32_small (8 + ZSTD_compressBound rt B)) by lia.
  rewrite (gtb_false (pixel_bytes d) 8) by done.
  rewrite !Hmem. cbn [negb Bytes Data]. change (0 =? 0) with true. cbv iota.
  unfold bind at 1. rewrite Hpass. unfold bind at 1. cbv beta iota.
  replace (n >=? 0) with (n =? 0) by (destruct (Z.eqb_spec n 0); lia).
  assert ((if n =? 0 then n else 0) = 0) as -> by (destruct (Z.eqb_spec n 0); lia).
  rewrite Z.add_0_r, (u32_small B) by lia.
  rewrite Hlen, (ltb_false (Z.of_nat (Z.to_nat (B + 1000))) B) by lia.
  unfold zeroed at 1. rewrite length_replicate.
  rewrite (ltb_false (Z.of_nat (Z.to_nat (8 + ZSTD_compressBound rt B)))) by lia.
  fold src. rewrite Hc. unfold bind. simpl run.
  rewrite (u32_small (Z.of_nat (length compressed))) by lia.
  rewrite (u32_small (8 + Z.of_nat (length compressed))) by lia.
  reflexivity.
Qed.

Lemma le16_bytes x : 0 <= x < 65536 -> u8 x + 256 * u8 (x / 256) = x.
Proof. unfold u8. intros H. Z.div_mod_to_equations. lia. Qed.

Lemma u16_small x : 0 <= x < 65536 -> u16 x = x.
Proof. unfold u16. intros H. by apply Z.mod_small. Qed.

Lemma written_buffer (hdr c z : list Z) :
  length hdr = 8%nat -> (8 + length c <= length z)%nat ->
  write_at 0 hdr (write_at 8 c z) = hdr ++ c ++ drop (8 + length c) z.
Proof.
  intros Hh Hz. unfold write_at. rewrite take_0, Hh. simpl.
  f_equal. rewrite drop_app_length'; [done|].
  rewrite length_take. lia.
Qed.

Lemma decompress_intra refData d compressed rest enc mem :
  sizes_fit rt d ->
  (forall size, calloc_ok rt size = true) ->
  ZSTD_decompress rt (byte_count d + 1000) compressed = Some enc ->
  @Stage2_Unfilter ZPNG_ImageData refData
    (decoded_image d (zeroed (byte_count d))) (pixel_bytes d)
    (write_at 0 enc (zeroed (byte_count d + 1000))) = Next mem ->
  ZPNG_DecompressVideo rt refData
    {| Data := Some (header_bytes (header_of ZPNG_HEADER_MAGIC d)
                     ++ compressed ++ rest);
       Bytes := ZPNG_HEADER_OVERHEAD_BYTES + Z.of_nat (length compressed) |}
  = Some (decoded_image d mem).
Proof.
  intros Hs Hmem Hdec Hstage.
  pose proof (byte_count_nonneg d Hs) as HB0.
  pose proof (pixel_bytes_nonneg d Hs) as Hpb0.
  destruct Hs as (HW & HH & HC & HBpc & HB & Hout).
  unfold ZPNG_DecompressVideo, ZPNG_HEADER_OVERHEAD_BYTES in *.
  cbn [Data Bytes]. rewrite (ltb_false (8 + Z.of_nat (length compressed)) 8) by lia.
  unfold header_of, header_bytes. cbn [Magic Width Height HChannels HBytesPerChannel].
  unfold load16, load. cbn [lookup list_lookup app bind Nat.add].
  rewrite !u16_small, !(u8_small (Channels d)), !(u8_small (BytesPerChannel d))
    by (unfold is_byte; lia).
  rewrite !le16_bytes by (unfold ZPNG_HEADER_MAGIC; lia).
  rewrite Z.eqb_refl. cbn [negb].
  assert ((match refData with
           | Some _ => Next 1
           | None => Next 1
           end : outcome Z ZPNG_ImageData) = Next 1) as -> by by destruct refData.
  cbn [bind]. cbv zeta. unfold pixel_bytes.
  cbn [BytesPerChannel Channels WidthPixels HeightPixels].
  fold (pixel_bytes d).
  rewrite (u32_small (WidthPixels d * HeightPixels d)) by nia.
  fold (byte_count d). set (B := byte_count d) in *.
  rewrite (u32_small B) by lia. rewrite (u32_small (B + 1000)) by lia.
  rewrite !Hmem. cbn [negb].
  rewrite ltb_false by (simpl; rewrite !length_app; lia).
  replace (take _ (drop _ _)) with compressed.
  2:{ replace (Z.to_nat (8 + Z.of_nat (length compressed) - 8))
        with (length compressed) by lia.
      simpl. by rewrite drop_0, take_app_length. }
  rewrite Hdec.
  unfold with_Data. cbn [BytesPerChannel Channels WidthPixels HeightPixels
                         StrideBytes IsIFrame Buffer Data Bytes].
  unfold decoded_image in Hstage |- *. fold B in Hstage |- *.
  rewrite Hstage. reflexivity.
Qed.

Lemma Pass1_intra {R} d packing :
  1 <= pixel_bytes d <= 8 ->
  @Pass1_PackAndFilter R None d (pixel_bytes d) packing
  = do packing <-
      (if BytesPerChannel d >? 8 then PackAndFilterXGGY d packing
       else PackAndFilter (Z.to_nat (pixel_bytes d)) d packing);
    Next (0, packing).
Proof.
  intros Hpb. unfold Pass1_PackAndFilter.
  destruct (BytesPerChannel d >? 8); [done|].
  assert (pixel_bytes d = 1 \/ pixel_bytes d = 2 \/ pixel_bytes d = 3 \/
          pixel_bytes d = 4 \/ pixel_bytes d = 5 \/ pixel_bytes d = 6 \/
          pixel_bytes d = 7 \/ pixel_bytes d = 8)
    as [-> | [-> | [-> | [-> | [-> | [-> | [-> | ->]]]]]]] by lia; done.
Qed.

Lemma Stage2_intra {R} d pixelBytes packing :
  1 <= pixelBytes <= 8 ->
  @Stage2_Unfilter R None d pixelBytes packing
  = if BytesPerChannel d >? 8 then UnpackAndUnfilterXGGY packing d
    else UnpackAndUnfilter (Z.to_nat pixelBytes) packing d.
Proof.
  intros Hpb. unfold Stage2_Unfilter. cbv zeta.
  destruct (BytesPerChannel d >? 8); [done|].
  assert (pixelBytes = 1 \/ pixelBytes = 2 \/ pixelBytes = 3 \/
          pixelBytes = 4 \/ pixelBytes = 5 \/ pixelBytes = 6 \/
          pixelBytes = 7 \/ pixelBytes = 8)
    as [-> | [-> | [-> | [-> | [-> | [-> | [-> | ->]]]]]]] by lia; done.
Qed.

Lemma intra_filters_round_trip {R R'} d pixels :
  valid_intra rt d pixels ->
  exists packing1,
    (if BytesPerChannel d >? 8
     then PackAndFilterXGGY d (zeroed (byte_count d + 1000))
     else PackAndFilter (Z.to_nat (pixel_bytes d)) d
            (zeroed (byte_count d + 1000)))
    = (Next packing1 : outcome _ R) /\
    length packing1 = Z.to_nat (byte_count d + 1000) /\
    forall packing',
      (forall i, (i < Z.to_nat (byte_count d))%nat ->
         packing' !! i = packing1 !! i) ->
      (if BytesPerChannel d >? 8
       then UnpackAndUnfilterXGGY packing'
              (decoded_image d (zeroed (byte_count d)))
       else UnpackAndUnfilter (Z.to_nat (pixel_bytes d)) packing'
              (decoded_image d (zeroed (byte_count d))))
      = (Next pixels : outcome _ R').
Proof.
  intros (Hs & HData & Hbytes & Hlen & Hpb & Hbayer).
  pose proof (byte_count_nonneg d Hs) as HB0.
  destruct Hs as (HW & HH & HC & HBpc & HB & Hout).
  assert (Hreg : region (Buffer d) = pixels) by (unfold region; by rewrite HData).
  set (W := Z.to_nat (WidthPixels d)). set (H := Z.to_nat (HeightPixels d)).
  assert (HWn : WidthPixels d = Z.of_nat W) by lia.
  assert (HHn : HeightPixels d = Z.of_nat H) by lia.
  assert (Hz : length (zeroed (byte_count d + 1000))
               = Z.to_nat (byte_count d + 1000)).
  { unfold zeroed. by rewrite length_replicate. }
  assert (Hzo : length (region (Buffer (decoded_image d (zeroed (byte_count d)))))
               = Z.to_nat (byte_count d)).
  { unfold region, decoded_image, zeroed. simpl. by rewrite length_replicate. }
  destruct (BytesPerChannel d >? 8) eqn:Hb.
  - (* Bayer *)
    apply Z.gtb_lt in Hb. destruct (Hbayer Hb) as (Hch & HWe & HHe).
    apply Z.even_spec in HWe as [a' Ha']. apply Z.even_spec in HHe as [c' Hc'].
    set (a := Z.to_nat a'). set (c := Z.to_nat c').
    assert (HWa : WidthPixels d = Z.of_nat (2 * a)) by lia.
    assert (HHc : HeightPixels d = Z.of_nat (2 * c)) by lia.
    assert (HN : byte_count d = Z.of_nat (4 * (c * a))).
    { unfold byte_count, pixel_bytes.
      rewrite (proj2 (Z.gtb_lt _ _) Hb), Hch, HWa, HHc. lia. }
    assert (Hb1 : (Z.of_nat (4 * (c * a)) < 4294967296)%Z) by lia.
    assert (Hi1 : length pixels = (4 * (c * a))%nat) by lia.
    assert (Ho1 : (4 * (c * a) <= length (zeroed (byte_count d + 1000)))%nat)
      by (rewrite Hz; lia).
    assert (Ho2 : length (region (Buffer (decoded_image d (zeroed (byte_count d)))))
                  = (4 * (c * a))%nat) by (rewrite Hzo; lia).
    destruct (wp_Next_inv
      (PackAndFilterXGGY (R:=R) d (zeroed (byte_count d + 1000))) _
      (PackAndFilterXGGY_wp a c pixels d _ _ HHc HWa Hreg Hb1
         ltac:(lia) Ho1))
      as (packing1 & Hpack & Hl1 & Henc & _).
    exists packing1. split; [done|]. split; [lia|].
    intros packing' Hagree.
    destruct (wp_Next_inv
      (UnpackAndUnfilterXGGY (R:=R') packing'
         (decoded_image d (zeroed (byte_count d)))) _
      (UnpackAndUnfilterXGGY_wp a c pixels packing'
         (decoded_image d (zeroed (byte_count d))) _ HHc HWa Hbytes
         Hb1 Hi1 Ho2
         (xggy_encoded_agree a c pixels packing1 packing'
            ltac:(intros i Hi; apply Hagree; lia) Henc)))
      as (mem & Hunpack & ->).
    done.
  - (* by channel count *)
    set (k := Z.to_nat (pixel_bytes d)).
    assert (HN : byte_count d = Z.of_nat (k * (H * W))).
    { unfold byte_count. lia. }
    assert (Hb1 : (Z.of_nat (k * (H * W)) < 4294967296)%Z) by lia.
    assert (Hi1 : length pixels = (k * (H * W))%nat) by lia.
    assert (Ho1 : (k * (H * W) <= length (zeroed (byte_count d + 1000)))%nat)
      by (rewrite Hz; lia).
    assert (Ho2 : length (region (Buffer (decoded_image d (zeroed (byte_count d)))))
                  = (k * (H * W))%nat) by (rewrite Hzo; lia).
    destruct (wp_Next_inv
      (PackAndFilter (R:=R) k d (zeroed (byte_count d + 1000))) _
      (PackAndFilter_wp k W H pixels d _ _ HHn HWn Hreg Hb1 Hi1 Ho1))
      as (packing1 & Hpack & Hl1 & Henc).
    exists packing1. split; [done|]. split; [lia|].
    intros packing' Hagree.
    destruct (wp_Next_inv
      (UnpackAndUnfilter (R:=R') k packing'
         (decoded_image d (zeroed (byte_count d)))) _
      (UnpackAndUnfilter_wp k W H pixels packing'
         (decoded_image d (zeroed (byte_count d))) _ HHn HWn Hbytes
         Hb1 Hi1 Ho2
         (intra_encoded_agree k W H pixels packing1 packing'
            ltac:(intros i Hi; apply Hagree; lia) Henc)))
      as (mem & Hunpack & ->).
    done.
Qed.

(** C1, amended.  Intra round trip: for every valid descriptor with
    [pixel_bytes] in [1..8] (and, where [BytesPerChannel > 8] selects the
    Bayer filter, with one channel and even width and height),
    decompressing the result of compressing it, without a reference
    frame and without a compression context, gives back the width,
    height, channel count, bytes per channel and, byte for byte, the
    pixel buffer.  The entropy coder is any [Runtime], whose laws make
    [ZSTD_compress] and [ZSTD_decompress] an inverse pair; allocations
    succeed.  (With a context the frame is compressed with a dictionary
    that the decoder is not given.) *)
Theorem intra_round_trip d pixels dictionary :
  valid_intra rt d pixels ->
  (forall size, calloc_ok rt size = true) ->
  exists buffer d',
    ZPNG_Compress rt d false dictionary = Some (buffer, dictionary) /\
    ZPNG_Decompress rt buffer = Some d' /\
    WidthPixels d' = WidthPixels d /\
    HeightPixels d' = HeightPixels d /\
    Channels d' = Channels d /\
    BytesPerChannel d' = BytesPerChannel d /\
    Data (Buffer d') = Some pixels.
Proof.
  intros Hv Hmem.
  destruct (intra_filters_round_trip
              (R:=Z * ZPNG_Buffer * dictionary_slot) (R':=ZPNG_ImageData)
              d pixels Hv) as (packing1 & Hpack & Hl1 & Hunpack).
  destruct Hv as (Hs & HData & Hbytes & Hlen & Hpb & Hbayer).
  pose proof (byte_count_nonneg d Hs) as HB0.
  destruct (compress_after_pass1 None d dictionary 0 packing1)
    as (compressed & Hdec & Hfit & Hcomp);
    try done; try lia.
  { rewrite Pass1_intra by done. by rewrite Hpack. }
  unfold ZPNG_Compress. rewrite Hcomp.
  eexists _, (decoded_image d pixels).
  split; [reflexivity|]. split; [|done].
  cbn [non_null andb].
  rewrite written_buffer; [|done|].
  2:{ unfold zeroed, ZPNG_HEADER_OVERHEAD_BYTES. rewrite length_replicate. lia. }
  unfold ZPNG_Decompress.
  apply (decompress_intra None d compressed _
           (take (Z.to_nat (byte_count d)) packing1)); try done.
  { apply Hdec. lia. }
  rewrite Stage2_intra by done. cbn [decoded_image BytesPerChannel].
  apply Hunpack. intros i Hi.
  rewrite lookup_write_at_0 by (rewrite length_take; lia).
  by rewrite lookup_take_lt.
Qed.

End Facade.

(** * The claims *)

(** ** The intra round trip on concrete images *)

(** C1, counterexample.  A valid Bayer descriptor with two channels
    ([pixel_bytes = 2]): the codec codes the first [2 * 2] bytes only, and
    the decoded buffer differs from the original. *)
Lemma intra_round_trip_bayer_two_channels :
  pixel_bytes bayer_two_channels = 2%Z /\
  exists buffer d',
    ZPNG_Compress stored_runtime bayer_two_channels false None
      = Some (buffer, None) /\
    ZPNG_Decompress stored_runtime buffer = Some d' /\
    Data (Buffer d') = Some [1; 2; 3; 4; 0; 0; 0; 0]%Z /\
    Data (Buffer d') <> Data (Buffer bayer_two_channels).
Proof.
  split; [reflexivity|]. eexists. eexists.
  split; [vm_compute; reflexivity|].
  split; [vm_compute; reflexivity|].
  split; [reflexivity|]. simpl. congruence.
Qed.

(** The 2 by 2 Bayer mosaic is a valid descriptor. *)
Lemma valid_intra_bayer_mosaic :
  valid_intra stored_runtime bayer_mosaic [1; 2; 3; 4]%Z.
Proof.
  unfold valid_intra, sizes_fit. repeat split; try (vm_compute; congruence).
  repeat constructor; unfold is_byte; lia.
Qed.

(** The round trip of the 2 by 2 Bayer mosaic. *)
Lemma intra_round_trip_witness :
  exists buffer d',
    ZPNG_Compress stored_runtime bayer_mosaic false None
      = Some (buffer, None) /\
    ZPNG_Decompress stored_runtime buffer = Some d' /\
    WidthPixels d' = WidthPixels bayer_mosaic /\
    HeightPixels d' = HeightPixels bayer_mosaic /\
    Channels d' = Channels bayer_mosaic /\
    BytesPerChannel d' = BytesPerChannel bayer_mosaic /\
    Data (Buffer d') = Some [1; 2; 3; 4]%Z.
Proof.
  apply (intra_round_trip stored_runtime bayer_mosaic [1; 2; 3; 4]%Z None).
  - exact valid_intra_bayer_mosaic.
  - reflexivity.
Defined.

(** C9.  The RGB filter on the 2 by 1 image with pixels (10, 20, 30) and
    (15, 24, 29) writes the Y plane [30, 0xFF], the U plane [0xF6, 5] and
    the V plane [10, 0xFF], contiguous and in that order. *)
Theorem rgb_two_pixel_literal (R : Type) :
  @PackAndFilter R 3 rgb_row (zeroed 6)
  = Next ([30; 0xFF] ++ [0xF6; 5] ++ [10; 0xFF])%Z.
Proof. vm_compute. reflexivity. Qed.

(** ** The inter filter: saturation and the escape byte *)

Lemma overflow_count_le_length cur ref : overflow_count cur ref <= length cur.
Proof.
  revert ref. induction cur as [|a cur IH]; intros [|r ref]; simpl; try lia.
  specialize (IH ref). destruct (overflows a r); lia.
Qed.

Lemma overflows_spec a r :
  overflows a r = true <-> (a - r < -127 \/ 127 < a - r)%Z.
Proof.
  unfold overflows. rewrite orb_true_iff, Z.gtb_ltb, !Z.ltb_lt. lia.
Qed.

Lemma overflows_false_spec a r :
  overflows a r = false <-> (-127 <= a - r <= 127)%Z.
Proof.
  unfold overflows. rewrite orb_false_iff, Z.gtb_ltb, !Z.ltb_ge. lia.
Qed.

Lemma s8_u8 x : (-127 <= x <= 127)%Z -> s8 (u8 x) = x.
Proof.
  intros H. unfold s8. rewrite (u8_small (u8 x)) by apply u8_is_byte.
  unfold u8. destruct (x mod 256 <? 128)%Z eqn:E.
  - apply Z.ltb_lt in E. Z.div_mod_to_equations. lia.
  - apply Z.ltb_ge in E. Z.div_mod_to_equations. lia.
Qed.

(** C3, amended.  The inter filter returns the overflow count, the number
    of per-channel deltas outside [-127, +127], when that count is at most
    1000: a pair with 999 overflows returns 999 and a pair with exactly
    1000 overflows returns 1000, both without fallback.  From 1001
    overflows on the inter path is abandoned: the Bayer filter is run on
    the output buffer from its start and [-1] is returned; for an image
    of even width and height the buffer then starts with the Bayer (XGGY)
    encoding of the current image. *)
Theorem saturation_threshold (R : Type) k W H refData imageData ref cur output :
  video_pair k W H refData imageData ref cur ->
  H * W * k + 1000 <= length output ->
  (overflow_count cur ref <= 1000 ->
   exists mem,
     @PackAndFilterVideo R k refData imageData output
     = Next (Z.of_nat (overflow_count cur ref), mem) /\
     length mem = length output /\
     video_encoded (H * W * k) cur ref mem) /\
  (1000 < overflow_count cur ref ->
   (exists mem0,
      length mem0 = length output /\
      @PackAndFilterVideo R k refData imageData output
      = call (do mem <- PackAndFilterXGGY imageData mem0; Exit ((-1)%Z, mem))) /\
   forall a c, W = 2 * a -> H = 2 * c ->
     exists mem,
       @PackAndFilterVideo R k refData imageData output = Next ((-1)%Z, mem) /\
       length mem = length output /\
       xggy_encoded a c cur mem).
Proof.
  intros (HH & HW & Hcur & Href & Hbound & Hlc & Hlr) Hout.
  destruct (PackAndFilterVideo_spec (R:=R) k W H cur ref refData imageData output
              HH HW Hcur Href Hbound Hlc Hlr Hout)
    as [(Hle & mem & E & Hl & Henc)|(Hgt & mem0 & Hl & E)].
  - split; [|lia]. intros _. by exists mem.
  - split; [lia|]. intros _. split; [by exists mem0|].
    intros a c -> ->.
    pose proof (overflow_count_le_length cur ref) as Hn.
    assert (1 <= k) by (destruct k; lia).
    destruct (wp_Next_inv
      (PackAndFilterXGGY (R:=Z * list Z) imageData mem0) _
      (PackAndFilterXGGY_wp a c cur imageData mem0 _ HH HW Hcur
         ltac:(nia) ltac:(nia) ltac:(nia)))
      as (mem & Hx & Hlm & Henc & _).
    exists mem. rewrite E, Hx. split; [done|]. split; [lia|done].
Qed.

(** C3, counterexample.  A pair with exactly 1000 overflows: no
    fallback, the filter returns 1000 and the buffer holds the inter
    encoding: 1000 escape bytes and the 1000 literals behind them. *)
Lemma exactly_1000_overflows_no_fallback :
  overflow_count (replicate 1000 200%Z) (replicate 1000 0%Z) = 1000 /\
  @PackAndFilterVideo unit 1 (flat 1000 1 1 1 1000 0) (flat 1000 1 1 1 1000 200)
    (zeroed 2000)
  = Next (1000%Z, replicate 1000 0x80%Z ++ replicate 1000 200%Z).
Proof. split; vm_compute; reflexivity. Qed.

(** A 2 by 2 pair with one overflow. *)
Lemma saturation_threshold_witness :
  let cur := [200; 5; 0; 7]%Z in
  let ref := [0; 3; 0; 7]%Z in
  exists mem,
    @PackAndFilterVideo unit 1 (image 2 2 1 1 ref) (image 2 2 1 1 cur) (zeroed 1004)
    = Next (1%Z, mem) /\
    length mem = 1004 /\
    video_encoded 4 cur ref mem.
Proof.
  intros cur ref.
  apply (proj1 (saturation_threshold unit 1 2 2 (image 2 2 1 1 ref)
                  (image 2 2 1 1 cur) ref cur (zeroed 1004)
                  ltac:(repeat split; reflexivity)
                  ltac:(vm_compute; lia))).
  vm_compute. lia.
Defined.

(** C5.  Where the inter path completes (at most 1000 overflows), a byte
    of the main stream is [0x80] exactly where the delta is outside
    [-127, +127], and then the current byte is in the overflow region, at
    the rank of the escape; every other byte is the delta, in
    [-127, +127], as a signed byte, never [-128].  The decoder, which
    tests for [0x80], recovers the current frame. *)
Theorem escape_unambiguous (R R' : Type) k W H refData imageData ref cur output :
  video_pair k W H refData imageData ref cur ->
  Forall is_byte cur ->
  H * W * k + 1000 <= length output ->
  overflow_count cur ref <= 1000 ->
  exists mem,
    @PackAndFilterVideo R k refData imageData output
    = Next (Z.of_nat (overflow_count cur ref), mem) /\
    (forall j, j < H * W * k ->
       let diff := (byte_at cur j - byte_at ref j)%Z in
       (mem !! j = Some 0x80%Z <-> (diff < -127 \/ 127 < diff)%Z) /\
       ((-127 <= diff <= 127)%Z ->
        mem !! j = Some (u8 diff) /\ s8 (u8 diff) = diff) /\
       ((diff < -127 \/ 127 < diff)%Z ->
        mem !! (H * W * k + overflows_before cur ref j)
        = Some (byte_at cur j))) /\
    @UnpackAndUnfilterVideo R' k refData mem
      (with_Data imageData (Some (replicate (H * W * k) 0%Z))
         (Z.of_nat (H * W * k)))
    = Next cur.
Proof.
  intros Hpair Hbytes Hout Hle.
  destruct Hpair as (HH & HW & Hcur & Href & Hbound & Hlc & Hlr).
  destruct (PackAndFilterVideo_spec (R:=R) k W H cur ref refData imageData output
              HH HW Hcur Href Hbound Hlc Hlr Hout)
    as [(_ & mem & E & Hl & Henc)|(Hgt & _)]; [|lia].
  exists mem. split; [done|]. split.
  - intros j Hj diff. destruct (Henc j Hj) as [Hmain Hlit].
    unfold video_byte in Hmain. subst diff.
    destruct (overflows (byte_at cur j) (byte_at ref j)) eqn:Hov.
    + pose proof (proj1 (overflows_spec _ _) Hov) as Hd.
      split; [done|]. split; [lia|]. intros _. by apply Hlit.
    + pose proof (proj1 (overflows_false_spec _ _) Hov) as Hd.
      pose proof (u8_delta_not_escape _ _ Hov) as Hne.
      split; [|split].
      * rewrite Hmain. split; [intros [= ?]; done|lia].
      * intros _. split; [done|]. by apply s8_u8.
      * lia.
  - destruct (wp_Next_inv
      (UnpackAndUnfilterVideo (R:=R') k refData mem
         (with_Data imageData (Some (replicate (H * W * k) 0%Z))
            (Z.of_nat (H * W * k)))) _
      (UnpackAndUnfilterVideo_wp k W H cur ref refData mem
         (with_Data imageData (Some (replicate (H * W * k) 0%Z))
            (Z.of_nat (H * W * k))) _ HH HW Href Hbytes Hbound Hlc Hlr
         ltac:(apply length_replicate) Henc))
      as (out & Hdec & ->).
    done.
Qed.

(** The same pair: one escape, three deltas. *)
Lemma escape_unambiguous_witness :
  let cur := [200; 5; 0; 7]%Z in
  let ref := [0; 3; 0; 7]%Z in
  exists mem,
    @PackAndFilterVideo unit 1 (image 2 2 1 1 ref) (image 2 2 1 1 cur) (zeroed 1004)
    = Next (Z.of_nat (overflow_count cur ref), mem) /\
    (forall j, j < 2 * 2 * 1 ->
       let diff := (byte_at cur j - byte_at ref j)%Z in
       (mem !! j = Some 0x80%Z <-> (diff < -127 \/ 127 < diff)%Z) /\
       ((-127 <= diff <= 127)%Z ->
        mem !! j = Some (u8 diff) /\ s8 (u8 diff) = diff) /\
       ((diff < -127 \/ 127 < diff)%Z ->
        mem !! (2 * 2 * 1 + overflows_before cur ref j)
        = Some (byte_at cur j))) /\
    @UnpackAndUnfilterVideo unit 1 (image 2 2 1 1 ref) mem
      (with_Data (image 2 2 1 1 cur) (Some (replicate (2 * 2 * 1) 0%Z))
         (Z.of_nat (2 * 2 * 1)))
    = Next cur.
Proof.
  intros cur ref.
  apply (escape_unambiguous unit unit 1 2 2 (image 2 2 1 1 ref)
           (image 2 2 1 1 cur) ref cur (zeroed 1004)).
  - repeat split; reflexivity.
  - repeat constructor; unfold is_byte; lia.
  - vm_compute. lia.
  - vm_compute. lia.
Defined.

(** ** The facade on concrete frames *)

(** C2, failing input.  A 20 by 18 RGB frame of bytes 200 against a
    reference of bytes 0 saturates the overflow escape.  The frame the
    video encoder produces decodes, with the same reference, to a buffer
    of the right size that is not the current frame: its second byte is
    72, not 200. *)
Lemma video_round_trip_fails_rgb :
  let ref := flat 20 18 3 1 1080 0 in
  let cur := flat 20 18 3 1 1080 200 in
  exists buffer d',
    ZPNG_CompressVideoToBuffer stored_runtime (Some ref) cur no_buffer false None
      = Some (0%Z, buffer, None) /\
    ZPNG_DecompressVideo stored_runtime (Some ref) buffer = Some d' /\
    Bytes (Buffer d') = 1080%Z /\
    region (Buffer d') !! 1 = Some 72%Z /\
    region (Buffer cur) !! 1 = Some 200%Z /\
    Data (Buffer d') <> Data (Buffer cur).
Proof.
  intros ref cur. eexists. eexists.
  split; [vm_compute; reflexivity|].
  split; [vm_compute; reflexivity|].
  split; [reflexivity|]. split; [reflexivity|]. split; [reflexivity|].
  intros E. apply (f_equal (fun o => match o with
                                     | Some l => l !! 1
                                     | None => None
                                     end)) in E.
  vm_compute in E. discriminate.
Qed.

(** C4, failing input.  A 32 by 32 gray frame of bytes 200 against a
    reference of bytes 0: the inter filter saturates and returns [-1],
    the frame carries the intra magic and decoding with the reference
    sets the intra flag, but the pixels are not those of the current
    frame: byte 16 is 144, not 200. *)
Lemma fallback_not_transparent_gray :
  let ref := flat 32 32 1 1 1024 0 in
  let cur := flat 32 32 1 1 1024 200 in
  (exists mem,
     @PackAndFilterVideo unit 1 ref cur (zeroed 2024) = Next ((-1)%Z, mem)) /\
  exists buffer d',
    ZPNG_CompressVideoToBuffer stored_runtime (Some ref) cur no_buffer false None
      = Some (0%Z, buffer, None) /\
    take 2 (region buffer) = [0xF8; 0xFB]%Z /\
    ZPNG_DecompressVideo stored_runtime (Some ref) buffer = Some d' /\
    IsIFrame d' = 1%Z /\
    region (Buffer d') !! 16 = Some 144%Z /\
    region (Buffer cur) !! 16 = Some 200%Z /\
    Data (Buffer d') <> Data (Buffer cur).
Proof.
  intros ref cur. split.
  { eexists. vm_compute. reflexivity. }
  eexists. eexists.
  split; [vm_compute; reflexivity|].
  split; [reflexivity|].
  split; [vm_compute; reflexivity|].
  split; [reflexivity|]. split; [reflexivity|]. split; [reflexivity|].
  intros E. apply (f_equal (fun o => match o with
                                     | Some l => l !! 16
                                     | None => None
                                     end)) in E.
  vm_compute in E. discriminate.
Qed.

(** C7, failing input.  With zstd's bound, [ZPNG_MaximumBufferSize] of
    the gray pixel is 1075.  A caller's buffer of 100 bytes is accepted
    and written to: the check compares with
    [8 + ZSTD_compressBound(byteCount)], which is 72 here. *)
Lemma small_output_buffer_accepted :
  ZPNG_MaximumBufferSize stored_runtime gray_pixel = 1075%Z /\
  ZPNG_CompressToBuffer stored_runtime gray_pixel
    {| Data := Some (zeroed 100); Bytes := 100 |} false None
  = Some (0%Z,
          {| Data := Some ([0xF8; 0xFB; 1; 0; 1; 0; 1; 1; 0x42]%Z
                           ++ replicate 91 0%Z);
             Bytes := 9 |},
          None).
Proof. split; vm_compute; reflexivity. Qed.

(** C6.  Magic discipline and error result: [ZPNG_Decompress], which
    passes no reference descriptor, rejects every buffer shorter than the
    8-byte header and every buffer whose magic field is not the intra
    magic [0xFBF8]; it then returns the descriptor as initialized: a null
    buffer pointer, zero byte count and zero dimensions.  The buffer is
    one whose [Bytes] are there to read. *)
Theorem decompress_rejects_non_intra rt buffer :
  (forall data, Data buffer = Some data ->
     (Bytes buffer <= Z.of_nat (length data))%Z) ->
  (Bytes buffer < ZPNG_HEADER_OVERHEAD_BYTES)%Z
  \/ magic_of buffer <> ZPNG_HEADER_MAGIC ->
  ZPNG_Decompress rt buffer = Some rejected.
Proof.
  intros Hwf Hbad. unfold ZPNG_Decompress, ZPNG_DecompressVideo.
  unfold magic_of, region in Hbad.
  destruct (Data buffer) as [data|] eqn:HD; [|done].
  specialize (Hwf data eq_refl).
  destruct (Bytes buffer <? ZPNG_HEADER_OVERHEAD_BYTES)%Z eqn:Hlt; [done|].
  apply Z.ltb_ge in Hlt. unfold ZPNG_HEADER_OVERHEAD_BYTES in *.
  destruct Hbad as [Hbad|Hbad]; [lia|].
  destruct data as [|b0 [|b1 data]]; simpl in Hwf; try lia.
  unfold byte_at in Hbad. simpl in Hbad.
  unfold load16, load. cbn [lookup list_lookup bind Nat.add].
  apply Z.eqb_neq in Hbad. rewrite Hbad. done.
Qed.

(** A buffer that starts with the video magic, [FB F8]. *)
Lemma decompress_rejects_non_intra_witness :
  ZPNG_Decompress stored_runtime
    {| Data := Some [0xFB; 0xF8; 1; 0; 1; 0; 1; 1; 0x42]%Z; Bytes := 9 |}
  = Some rejected.
Proof.
  apply decompress_rejects_non_intra.
  - intros data [= <-]. simpl. lia.
  - right. vm_compute. discriminate.
Defined.

(** ** The single gray pixel and the empty pixel *)

(** C8, counterexample.  The header of the compressed gray pixel starts
    with the magic [0xFBF8] in little-endian order, [F8 FB], not [FB F8]. *)
Lemma gray_pixel_header_bytes :
  exists data,
    ZPNG_Compress stored_runtime gray_pixel false None
      = Some ({| Data := Some data; Bytes := 9 |}, None) /\
    take 9 data = [0xF8; 0xFB; 0x01; 0x00; 0x01; 0x00; 0x01; 0x01; 0x42]%Z /\
    take 8 data <> [0xFB; 0xF8; 0x01; 0x00; 0x01; 0x00; 0x01; 0x01]%Z.
Proof.
  eexists. split; [vm_compute; reflexivity|].
  split; [reflexivity|]. simpl. congruence.
Qed.

(** C10, counterexample.  With no channels and the Bayer sentinel,
    [pixel_bytes] is 0 and the Bayer filter is selected; on a 2 by 2
    image it reads bytes the empty buffer does not have. *)
Lemma zero_pixel_bytes_bayer_faults :
  pixel_bytes no_channels = 0%Z /\
  (forall R packing,
     @Pass1_PackAndFilter R None no_channels 0 packing
     = do packing <- PackAndFilterXGGY no_channels packing; Next (0%Z, packing)) /\
  ZPNG_Compress stored_runtime no_channels false None = None.
Proof.
  split; [reflexivity|]. split; [reflexivity|]. vm_compute. reflexivity.
Qed.

Section Pixels.
Local Open Scope Z_scope.
Variable rt : Runtime.

(** C8, amended.  Compressing the 1 by 1 gray image [0x42] without a
    compression context: the filtered byte is [0x42]; the output starts
    with the eight header bytes [F8 FB 01 00 01 00 01 01] (the magic
    [0xFBF8] little-endian), then comes the entropy payload, which
    decompresses to the one byte [0x42]; decoding the buffer returns the
    single byte [0x42]. *)
Theorem single_gray_pixel dictionary :
  ZPNG_HEADER_OVERHEAD_BYTES + ZSTD_compressBound rt 1 < 4294967296 ->
  (forall size, calloc_ok rt size = true) ->
  (forall R, @PackAndFilter R 1 gray_pixel (zeroed 1001)
             = Next (0x42 :: replicate 1000 0)) /\
  exists payload rest d',
    ZPNG_Compress rt gray_pixel false dictionary
    = Some ({| Data := Some ([0xF8; 0xFB; 0x01; 0x00; 0x01; 0x00; 0x01; 0x01]
                             ++ payload ++ rest);
               Bytes := ZPNG_HEADER_OVERHEAD_BYTES + Z.of_nat (length payload) |},
            dictionary) /\
    ZSTD_decompress rt 1001 payload = Some [0x42] /\
    ZPNG_Decompress rt
      {| Data := Some ([0xF8; 0xFB; 0x01; 0x00; 0x01; 0x00; 0x01; 0x01]
                       ++ payload ++ rest);
         Bytes := ZPNG_HEADER_OVERHEAD_BYTES + Z.of_nat (length payload) |}
    = Some d' /\
    Data (Buffer d') = Some [0x42].
Proof.
  intros Hbound Hmem.
  split; [intros R; vm_compute; reflexivity|].
  assert (Hs : sizes_fit rt gray_pixel).
  { unfold sizes_fit. change (byte_count gray_pixel) with 1.
    unfold gray_pixel, image.
    cbn [WidthPixels HeightPixels Channels BytesPerChannel]. lia. }
  assert (Hpass : @Pass1_PackAndFilter (Z * ZPNG_Buffer * dictionary_slot)
                    None gray_pixel (pixel_bytes gray_pixel)
                    (zeroed (byte_count gray_pixel + 1000))
                  = Next (0, 0x42 :: replicate 1000 0))
    by (vm_compute; reflexivity).
  destruct (compress_after_pass1 rt None gray_pixel dictionary 0
              (0x42 :: replicate 1000 0) Hs ltac:(vm_compute; congruence)
              Hmem Hpass ltac:(vm_compute; reflexivity) ltac:(lia))
    as (payload & Hdec & Hfit & Hcomp).
  change (byte_count gray_pixel) with 1 in *.
  change (take (Z.to_nat 1) (0x42 :: replicate 1000 0)) with [0x42] in Hdec.
  exists payload, (drop (8 + length payload) (zeroed (8 + ZSTD_compressBound rt 1))),
    (decoded_image gray_pixel [0x42]).
  unfold ZPNG_Compress. rewrite Hcomp.
  rewrite written_buffer; [|done|].
  2:{ unfold zeroed. rewrite length_replicate.
      unfold ZPNG_HEADER_OVERHEAD_BYTES in *. lia. }
  split; [reflexivity|]. split; [apply Hdec; lia|]. split; [|done].
  apply (decompress_intra rt None gray_pixel payload _ [0x42] [0x42]
           Hs Hmem (Hdec 1001 ltac:(lia))).
  vm_compute. reflexivity.
Qed.

(** C10, amended.  A descriptor with [pixel_bytes = 0] is not rejected,
    provided the Bayer sentinel is not set or a reference frame is given,
    and no compression context is given: then no filter runs and the
    call yields a header followed by the entropy encoding of zero
    bytes. *)
Theorem zero_pixel_bytes_accepted refData d dictionary :
  sizes_fit rt d ->
  pixel_bytes d = 0 ->
  (refData = None -> BytesPerChannel d <= 8) ->
  (forall size, calloc_ok rt size = true) ->
  (forall R packing,
     @Pass1_PackAndFilter R refData d (pixel_bytes d) packing
     = Next (0, packing)) /\
  exists payload rest,
    ZPNG_CompressVideoToBuffer rt refData d no_buffer false dictionary
    = Some (0,
            {| Data := Some
                 (header_bytes
                    (header_of
                       (if non_null refData then ZPNG_VIDEO_HEADER_MAGIC
                        else ZPNG_HEADER_MAGIC) d)
                  ++ payload ++ rest);
               Bytes := ZPNG_HEADER_OVERHEAD_BYTES + Z.of_nat (length payload) |},
            dictionary) /\
    0 < ZPNG_HEADER_OVERHEAD_BYTES + Z.of_nat (length payload) /\
    forall cap, 0 <= cap -> ZSTD_decompress rt cap payload = Some [].
Proof.
  intros Hs Hpb Hbayer Hmem.
  assert (Hpass : forall R packing,
            @Pass1_PackAndFilter R refData d (pixel_bytes d) packing
            = Next (0, packing)).
  { intros R packing. rewrite Hpb. unfold Pass1_PackAndFilter.
    destruct refData; [done|].
    by rewrite (gtb_false (BytesPerChannel d) 8) by auto. }
  split; [exact Hpass|].
  assert (HB : byte_count d = 0) by (unfold byte_count; rewrite Hpb; lia).
  destruct (compress_after_pass1 rt refData d dictionary 0
              (zeroed (byte_count d + 1000)))
    as (payload & Hdec & Hfit & Hcomp);
    try done; try lia.
  { unfold zeroed. by rewrite length_replicate. }
  rewrite HB in Hdec. change (take (Z.to_nat 0) _) with (@nil Z) in Hdec.
  exists payload,
    (drop (8 + length payload)
       (zeroed (ZPNG_HEADER_OVERHEAD_BYTES + ZSTD_compressBound rt (byte_count d)))).
  unfold no_buffer. rewrite Hcomp.
  rewrite written_buffer; [|done|].
  2:{ unfold zeroed. rewrite length_replicate.
      unfold ZPNG_HEADER_OVERHEAD_BYTES in *. lia. }
  change (0 >=? 0) with true. rewrite andb_true_r.
  split; [reflexivity|]. split; [unfold ZPNG_HEADER_OVERHEAD_BYTES; lia|exact Hdec].
Qed.

End Pixels.

(** The gray pixel with the coder that stores its input. *)
Lemma single_gray_pixel_witness :
  (forall R, @PackAndFilter R 1 gray_pixel (zeroed 1001)
             = Next (0x42 :: replicate 1000 0)%Z) /\
  exists payload rest d',
    ZPNG_Compress stored_runtime gray_pixel false None
    = Some ({| Data := Some ([0xF8; 0xFB; 0x01; 0x00; 0x01; 0x00; 0x01; 0x01]%Z
                             ++ payload ++ rest);
               Bytes := (ZPNG_HEADER_OVERHEAD_BYTES
                         + Z.of_nat (length payload))%Z |},
            None) /\
    ZSTD_decompress stored_runtime 1001 payload = Some [0x42]%Z /\
    ZPNG_Decompress stored_runtime
      {| Data := Some ([0xF8; 0xFB; 0x01; 0x00; 0x01; 0x00; 0x01; 0x01]%Z
                       ++ payload ++ rest);
         Bytes := (ZPNG_HEADER_OVERHEAD_BYTES + Z.of_nat (length payload))%Z |}
    = Some d' /\
    Data (Buffer d') = Some [0x42]%Z.
Proof.
  apply (single_gray_pixel stored_runtime None).
  - vm_compute. reflexivity.
  - reflexivity.
Defined.

(** A 2 by 2 descriptor of one channel and zero bytes per channel. *)
Lemma zero_pixel_bytes_accepted_witness :
  (forall R packing,
     @Pass1_PackAndFilter R None zero_depth (pixel_bytes zero_depth) packing
     = Next (0%Z, packing)) /\
  exists payload rest,
    ZPNG_CompressVideoToBuffer stored_runtime None zero_depth no_buffer false None
    = Some (0%Z,
            {| Data := Some
                 (header_bytes (header_of ZPNG_HEADER_MAGIC zero_depth)
                  ++ payload ++ rest);
               Bytes := (ZPNG_HEADER_OVERHEAD_BYTES
                         + Z.of_nat (length payload))%Z |},
            None) /\
    (0 < ZPNG_HEADER_OVERHEAD_BYTES + Z.of_nat (length payload))%Z /\
    forall cap, (0 <= cap)%Z -> ZSTD_decompress stored_runtime cap payload = Some [].
Proof.
  apply (zero_pixel_bytes_accepted stored_runtime None zero_depth None).
  - unfold sizes_fit. repeat split; vm_compute; congruence.
  - reflexivity.
  - intros _. vm_compute. congruence.
  - reflexivity.
Defined.

(** * Further properties *)

(** ** The filters *)


(** X1.  The generic intra filter on an image of [H] rows of [W] pixels of
    [k] bytes: byte [i] of pixel [x] of row [y] becomes its difference,
    modulo 256, to the same byte of the pixel on its left, and is stored
    as it is in the first pixel of a row.  The output has the layout of
    the input, and nothing is written behind the [H * W * k] bytes. *)
Theorem PackAndFilter_generic_layout (R : Type) k W H imageData input output :
  shaped W H imageData input ->
  length input = H * (W * k) ->
  H * (W * k) <= length output ->
  exists mem,
    @PackAndFilter_generic R k imageData output = Next mem /\
    length mem = length output /\
    (forall y x i, y < H -> x < W -> i < k ->
       let p := y * (W * k) + x * k + i in
       mem !! p
       = Some (u8 (byte_at input p
                   - (if (x =? 0)%nat then 0 else byte_at input (p - k)))%Z)) /\
    (forall j, H * (W * k) <= j -> mem !! j = output !! j).
Proof.
  intros (HH & HW & Hin) Hli Hlo.
  destruct (wp_Next_inv (PackAndFilter_generic (R:=R) k imageData output) _
              (PackAndFilter_generic_wp k W H input imageData output _
                 HH HW Hin Hli Hlo))
    as (mem & E & Hl & Henc & Hframe).
  exists mem. split; [done|]. split; [done|]. split; [|done].
  intros y x i Hy Hx Hi p.
  assert (x * k + i < W * k) as Hj by nia.
  assert (p = y * (W * k) + (x * k + i)) as -> by (unfold p; lia).
  rewrite (Henc y (x * k + i) Hy Hj). unfold generic_delta.
  do 3 f_equal. destruct x as [|x].
  - simpl. by rewrite (proj2 (Nat.ltb_lt _ _) Hi).
  - rewrite (proj2 (Nat.ltb_ge _ _)) by (simpl; lia). done.
Qed.

(** An image of two pixels of two channels. *)
Lemma PackAndFilter_generic_layout_witness :
  exists mem,
    @PackAndFilter_generic unit 2 (image 2 1 2 1 [10; 20; 13; 19]%Z)
      (zeroed 5) = Next mem /\
    length mem = length (zeroed 5) /\
    (forall y x i, y < 1 -> x < 2 -> i < 2 ->
       let p := y * (2 * 2) + x * 2 + i in
       mem !! p
       = Some (u8 (byte_at [10; 20; 13; 19]%Z p
                   - (if (x =? 0)%nat then 0
                      else byte_at [10; 20; 13; 19]%Z (p - 2)))%Z)) /\
    (forall j, 1 * (2 * 2) <= j -> mem !! j = zeroed 5 !! j).
Proof.
  apply (PackAndFilter_generic_layout unit 2 2 1
           (image 2 1 2 1 [10; 20; 13; 19]%Z) [10; 20; 13; 19]%Z (zeroed 5)).
  - repeat split; reflexivity.
  - reflexivity.
  - vm_compute. lia.
Defined.

(** X2.  The RGB filter on an image of [H] rows of [W] pixels writes
    three contiguous planes of [H * W] bytes: with [r], [g], [b] the
    differences of a pixel to the pixel on its left (to 0 in the first
    column), the first plane holds [b], the second [g - b] and the third
    [g - r], modulo 256, pixel after pixel in row order. *)
Theorem PackAndFilter_rgb_planes (R : Type) W H imageData input output :
  shaped W H imageData input ->
  (Z.of_nat (3 * (H * W)) < 4294967296)%Z ->
  length input = 3 * (H * W) ->
  3 * (H * W) <= length output ->
  exists mem,
    @PackAndFilter R 3 imageData output = Next mem /\
    length mem = length output /\
    rgb_encoded W H input mem.
Proof.
  intros (HH & HW & Hin) Hb Hli Hlo.
  destruct (wp_Next_inv (PackAndFilter_3 (R:=R) imageData output) _
              (PackAndFilter_3_wp W H input imageData output _
                 HH HW Hin Hb Hli Hlo))
    as (mem & E & Hl & Henc).
  by exists mem.
Qed.

(** The 2 by 1 image of two RGB pixels. *)
Lemma PackAndFilter_rgb_planes_witness :
  exists mem,
    @PackAndFilter unit 3 rgb_row (zeroed 6) = Next mem /\
    length mem = length (zeroed 6) /\
    rgb_encoded 2 1 [10; 20; 30; 15; 24; 29]%Z mem.
Proof.
  apply (PackAndFilter_rgb_planes unit 2 1 rgb_row
           [10; 20; 30; 15; 24; 29]%Z (zeroed 6)).
  - repeat split; reflexivity.
  - vm_compute. reflexivity.
  - reflexivity.
  - vm_compute. lia.
Defined.

(** X3.  The RGBA filter writes four contiguous planes of [H * W] bytes:
    the three planes of the RGB filter and, behind them, the plane of
    the alpha differences, which do not depend on the colours. *)
Theorem PackAndFilter_rgba_planes (R : Type) W H imageData input output :
  shaped W H imageData input ->
  (Z.of_nat (4 * (H * W)) < 4294967296)%Z ->
  length input = 4 * (H * W) ->
  4 * (H * W) <= length output ->
  exists mem,
    @PackAndFilter R 4 imageData output = Next mem /\
    length mem = length output /\
    rgba_encoded W H input mem.
Proof.
  intros (HH & HW & Hin) Hb Hli Hlo.
  destruct (wp_Next_inv (PackAndFilter_4 (R:=R) imageData output) _
              (PackAndFilter_4_wp W H input imageData output _
                 HH HW Hin Hb Hli Hlo))
    as (mem & E & Hl & Henc).
  by exists mem.
Qed.

(** An image of one RGBA pixel. *)
Lemma PackAndFilter_rgba_planes_witness :
  exists mem,
    @PackAndFilter unit 4 (image 1 1 4 1 [10; 20; 30; 40]%Z) (zeroed 4)
    = Next mem /\
    length mem = length (zeroed 4) /\
    rgba_encoded 1 1 [10; 20; 30; 40]%Z mem.
Proof.
  apply (PackAndFilter_rgba_planes unit 1 1 (image 1 1 4 1 [10; 20; 30; 40]%Z)
           [10; 20; 30; 40]%Z (zeroed 4)).
  - repeat split; reflexivity.
  - vm_compute. reflexivity.
  - reflexivity.
  - vm_compute. lia.
Defined.

(** X4.  The Bayer filter on a mosaic of [2 * c] rows of [2 * a] bytes
    writes a plane of [c * a] bytes with the first byte of each pair of
    the even rows, a plane of [c * a] bytes with the second byte of each
    pair of the odd rows, and a plane of [2 * c * a] bytes with the other
    (green) bytes, row after row; each byte as its difference to the byte
    two places to its left in its row, or to 0 in the first pair.
    Nothing is written behind the [4 * c * a] bytes. *)
Theorem PackAndFilterXGGY_planes (R : Type) a c imageData input output :
  shaped (2 * a) (2 * c) imageData input ->
  (Z.of_nat (4 * (c * a)) < 4294967296)%Z ->
  4 * (c * a) <= length input ->
  4 * (c * a) <= length output ->
  exists mem,
    @PackAndFilterXGGY R imageData output = Next mem /\
    length mem = length output /\
    xggy_encoded a c input mem /\
    (forall i, 4 * (c * a) <= i -> mem !! i = output !! i).
Proof.
  intros (HH & HW & Hin) Hb Hli Hlo.
  destruct (wp_Next_inv (PackAndFilterXGGY (R:=R) imageData output) _
              (PackAndFilterXGGY_wp a c input imageData output _
                 HH HW Hin Hb Hli Hlo))
    as (mem & E & Hl & Henc & Hframe).
  by exists mem.
Qed.

(** The 2 by 2 mosaic. *)
Lemma PackAndFilterXGGY_planes_witness :
  exists mem,
    @PackAndFilterXGGY unit bayer_mosaic (zeroed 5) = Next mem /\
    length mem = length (zeroed 5) /\
    xggy_encoded 1 1 [1; 2; 3; 4]%Z mem /\
    (forall i, 4 * (1 * 1) <= i -> mem !! i = zeroed 5 !! i).
Proof.
  apply (PackAndFilterXGGY_planes unit 1 1 bayer_mosaic [1; 2; 3; 4]%Z
           (zeroed 5)).
  - repeat split; reflexivity.
  - vm_compute. reflexivity.
  - vm_compute. lia.
  - vm_compute. lia.
Defined.

(** X5.  The intra filter of [k] channels and its inverse, for every
    [k] (the generic template, also beyond 8 channels, and the RGB and
    RGBA specializations): unfiltering what the filter wrote gives back
    the image, byte for byte, whatever the two output buffers held. *)
Theorem intra_filter_round_trip (R R' : Type) k W H imageData input output
    decoded :
  shaped W H imageData input ->
  Forall is_byte input ->
  (Z.of_nat (k * (H * W)) < 4294967296)%Z ->
  length input = k * (H * W) ->
  k * (H * W) <= length output ->
  HeightPixels decoded = Z.of_nat H ->
  WidthPixels decoded = Z.of_nat W ->
  length (region (Buffer decoded)) = k * (H * W) ->
  exists mem,
    @PackAndFilter R k imageData output = Next mem /\
    @UnpackAndUnfilter R' k mem decoded = Next input.
Proof.
  intros (HH & HW & Hin) Hbytes Hb Hli Hlo HH' HW' Hld.
  destruct (wp_Next_inv (PackAndFilter (R:=R) k imageData output) _
              (PackAndFilter_wp k W H input imageData output _
                 HH HW Hin Hb Hli Hlo))
    as (mem & E & Hl & Henc).
  exists mem. split; [done|].
  destruct (wp_Next_inv (UnpackAndUnfilter (R:=R') k mem decoded) _
              (UnpackAndUnfilter_wp k W H input mem decoded _
                 HH' HW' Hbytes Hb Hli Hld Henc))
    as (out & E' & ->).
  done.
Qed.

(** An image of two pixels of nine channels, into buffers that are not
    zeroed. *)
Lemma intra_filter_round_trip_witness :
  let input := [1; 2; 3; 4; 5; 6; 7; 8; 9; 9; 8; 7; 6; 5; 4; 3; 2; 1]%Z in
  exists mem,
    @PackAndFilter unit 9 (image 2 1 9 1 input) (replicate 20 7%Z) = Next mem /\
    @UnpackAndUnfilter unit 9 mem (image 2 1 9 1 (replicate 18 5%Z))
    = Next input.
Proof.
  intros input.
  apply (intra_filter_round_trip unit unit 9 2 1 (image 2 1 9 1 input) input
           (replicate 20 7%Z) (image 2 1 9 1 (replicate 18 5%Z))).
  - repeat split; reflexivity.
  - repeat constructor; unfold is_byte; lia.
  - vm_compute. reflexivity.
  - reflexivity.
  - vm_compute. lia.
  - reflexivity.
  - reflexivity.
  - reflexivity.
Defined.

(** X6.  The Bayer filter and its inverse on a mosaic of even width and
    height: unfiltering what the filter wrote gives back the mosaic. *)
Theorem xggy_filter_round_trip (R R' : Type) a c imageData input output
    decoded :
  shaped (2 * a) (2 * c) imageData input ->
  Forall is_byte input ->
  (Z.of_nat (4 * (c * a)) < 4294967296)%Z ->
  length input = 4 * (c * a) ->
  4 * (c * a) <= length output ->
  HeightPixels decoded = Z.of_nat (2 * c) ->
  WidthPixels decoded = Z.of_nat (2 * a) ->
  length (region (Buffer decoded)) = 4 * (c * a) ->
  exists mem,
    @PackAndFilterXGGY R imageData output = Next mem /\
    @UnpackAndUnfilterXGGY R' mem decoded = Next input.
Proof.
  intros (HH & HW & Hin) Hbytes Hb Hli Hlo HH' HW' Hld.
  destruct (wp_Next_inv (PackAndFilterXGGY (R:=R) imageData output) _
              (PackAndFilterXGGY_wp a c input imageData output _
                 HH HW Hin Hb ltac:(lia) Hlo))
    as (mem & E & Hl & Henc & _).
  exists mem. split; [done|].
  destruct (wp_Next_inv (UnpackAndUnfilterXGGY (R:=R') mem decoded) _
              (UnpackAndUnfilterXGGY_wp a c input mem decoded _
                 HH' HW' Hbytes Hb Hli Hld Henc))
    as (out & E' & ->).
  done.
Qed.

(** A mosaic of 2 rows of 4 bytes. *)
Lemma xggy_filter_round_trip_witness :
  let input := [1; 2; 3; 4; 5; 6; 7; 8]%Z in
  exists mem,
    @PackAndFilterXGGY unit (image 4 2 1 9 input) (replicate 8 7%Z) = Next mem /\
    @UnpackAndUnfilterXGGY unit mem (image 4 2 1 9 (replicate 8 5%Z))
    = Next input.
Proof.
  intros input.
  apply (xggy_filter_round_trip unit unit 2 1 (image 4 2 1 9 input) input
           (replicate 8 7%Z) (image 4 2 1 9 (replicate 8 5%Z))).
  - repeat split; reflexivity.
  - repeat constructor; unfold is_byte; lia.
  - vm_compute. reflexivity.
  - reflexivity.
  - vm_compute. lia.
  - reflexivity.
  - reflexivity.
  - reflexivity.
Defined.

(** ** The inter filter *)

Lemma overflows_refl a : overflows a a = false.
Proof. unfold overflows. by rewrite Z.sub_diag. Qed.

Lemma overflow_count_refl l : overflow_count l l = 0.
Proof. induction l as [|a l IH]; simpl; [done|]. by rewrite overflows_refl. Qed.

(** X7.  A frame equal to its reference: the inter filter reports no
    overflow and writes a zero for every byte of the frame; and a stream
    that starts with that many zeros decodes to the reference. *)
Theorem still_frame_packs_to_zeros (R R' : Type) k W H refData imageData
    pixels output enc decoded :
  video_pair k W H refData imageData pixels pixels ->
  Forall is_byte pixels ->
  H * W * k + 1000 <= length output ->
  (forall j, j < H * W * k -> enc !! j = Some 0%Z) ->
  HeightPixels decoded = Z.of_nat H ->
  WidthPixels decoded = Z.of_nat W ->
  length (region (Buffer decoded)) = H * W * k ->
  (exists mem,
     @PackAndFilterVideo R k refData imageData output = Next (0%Z, mem) /\
     length mem = length output /\
     forall j, j < H * W * k -> mem !! j = Some 0%Z) /\
  @UnpackAndUnfilterVideo R' k refData enc decoded = Next pixels.
Proof.
  intros (HH & HW & Hcur & Href & Hbound & Hlc & Hlr) Hbytes Hout Henc
    HH' HW' Hld.
  assert (Hzero : forall j, video_byte pixels pixels j = 0%Z).
  { intros j. unfold video_byte. by rewrite overflows_refl, Z.sub_diag. }
  split.
  - destruct (PackAndFilterVideo_spec (R:=R) k W H pixels pixels refData
                imageData output HH HW Hcur Href Hbound Hlc Hlr Hout)
      as [(_ & mem & E & Hl & Hv)|(Hgt & _)].
    + rewrite overflow_count_refl in E. exists mem.
      split; [done|]. split; [done|].
      intros j Hj. destruct (Hv j Hj) as [Hm _]. by rewrite Hm, Hzero.
    + rewrite overflow_count_refl in Hgt. lia.
  - destruct (wp_Next_inv
                (UnpackAndUnfilterVideo (R:=R') k refData enc decoded) _
                (UnpackAndUnfilterVideo_wp k W H pixels pixels refData enc
                   decoded _ HH' HW' Href Hbytes Hbound Hlc Hlr Hld
                   ltac:(intros j Hj; split;
                         [by rewrite Hzero; apply Henc
                         |by rewrite overflows_refl])))
      as (mem & E & ->).
    done.
Qed.

(** A 2 by 2 gray frame against itself. *)
Lemma still_frame_packs_to_zeros_witness :
  let pixels := [200; 5; 0; 7]%Z in
  (exists mem,
     @PackAndFilterVideo unit 1 (image 2 2 1 1 pixels) (image 2 2 1 1 pixels)
       (zeroed 1004) = Next (0%Z, mem) /\
     length mem = length (zeroed 1004) /\
     forall j, j < 2 * 2 * 1 -> mem !! j = Some 0%Z) /\
  @UnpackAndUnfilterVideo unit 1 (image 2 2 1 1 pixels) (zeroed 1004)
    (image 2 2 1 1 (zeroed 4)) = Next pixels.
Proof.
  intros pixels.
  apply (still_frame_packs_to_zeros unit unit 1 2 2 (image 2 2 1 1 pixels)
           (image 2 2 1 1 pixels) pixels (zeroed 1004) (zeroed 1004)
           (image 2 2 1 1 (zeroed 4))).
  - repeat split; reflexivity.
  - repeat constructor; unfold is_byte; lia.
  - vm_compute. lia.
  - intros j Hj. apply lookup_replicate_2. vm_compute in Hj |- *. lia.
  - reflexivity.
  - reflexivity.
  - reflexivity.
Defined.

(** X8.  A frame of at most 1000 bytes never saturates the escape: the
    inter filter returns the number of overflows, which is not negative,
    and writes the inter encoding. *)
Theorem small_frame_never_falls_back (R : Type) k W H refData imageData ref cur
    output :
  video_pair k W H refData imageData ref cur ->
  H * W * k <= 1000 ->
  H * W * k + 1000 <= length output ->
  exists n mem,
    @PackAndFilterVideo R k refData imageData output = Next (Z.of_nat n, mem) /\
    n = overflow_count cur ref /\
    n <= H * W * k /\
    video_encoded (H * W * k) cur ref mem.
Proof.
  intros (HH & HW & Hcur & Href & Hbound & Hlc & Hlr) Hsmall Hout.
  pose proof (overflow_count_le_length cur ref) as Hle.
  destruct (PackAndFilterVideo_spec (R:=R) k W H cur ref refData
              imageData output HH HW Hcur Href Hbound Hlc Hlr Hout)
    as [(_ & mem & E & Hl & Hv)|(Hgt & _)]; [|lia].
  exists (overflow_count cur ref), mem.
  split; [done|]. split; [done|]. split; [lia|done].
Qed.

(** A 2 by 2 gray frame all of whose bytes overflow. *)
Lemma small_frame_never_falls_back_witness :
  let cur := [200; 201; 202; 203]%Z in
  let ref := [0; 0; 0; 0]%Z in
  exists n mem,
    @PackAndFilterVideo unit 1 (image 2 2 1 1 ref) (image 2 2 1 1 cur)
      (zeroed 1004) = Next (Z.of_nat n, mem) /\
    n = overflow_count cur ref /\
    n <= 2 * 2 * 1 /\
    video_encoded (2 * 2 * 1) cur ref mem.
Proof.
  intros cur ref.
  apply (small_frame_never_falls_back unit 1 2 2 (image 2 2 1 1 ref)
           (image 2 2 1 1 cur) ref cur (zeroed 1004)).
  - repeat split; reflexivity.
  - vm_compute. lia.
  - vm_compute. lia.
Defined.


(** ** Statements that run into a fault *)

Lemma wpf_load_any {R} (l : list Z) i (Phi : Z -> Prop) (Psi : R -> Prop) :
  (forall v, l !! i = Some v -> Phi v) -> wpf (load l i) Phi Psi True.
Proof. intros H. unfold load. destruct (l !! i); simpl; auto. Qed.

Lemma wpf_store_any {R} (l : list Z) i v (Phi : list Z -> Prop)
    (Psi : R -> Prop) :
  (i < length l -> Phi (<[i:=v]> l)) -> wpf (store l i v) Phi Psi True.
Proof.
  intros H. unfold store. destruct (i <? length l)%nat eqn:E; simpl; [|done].
  apply H. by apply Nat.ltb_lt.
Qed.

Lemma wpf_Fault_inv {S R} (m : outcome S R) :
  wpf m (fun _ => False) (fun _ => False) True -> m = Fault.
Proof. by destruct m. Qed.

Lemma div2_succ_bounds n : n <= 2 * Nat.div2 (n + 1) <= n + 1.
Proof.
  replace (n + 1) with (Datatypes.S n) by lia.
  destruct (Nat.Even_or_Odd n) as [[m ->]|[m ->]].
  - rewrite Nat.div2_succ_double. lia.
  - replace (Datatypes.S (2 * m + 1)) with (2 * (Datatypes.S m)) by lia.
    rewrite Nat.div2_double. lia.
Qed.

Lemma div2_succ_odd n : Nat.odd n = true -> 2 * Nat.div2 (n + 1) = n + 1.
Proof.
  intros Ho. apply Nat.odd_spec in Ho as [m ->].
  replace (2 * m + 1 + 1) with (2 * (Datatypes.S m)) by lia.
  by rewrite Nat.div2_double.
Qed.

(** One row of the Bayer filter reads [2 * n] bytes, where [n] is the
    number of iterations; having read them, they were there. *)
Lemma xggy_row_reads {R} (input : list Z) n
    (body : nat -> nat * nat * nat * (Z * Z) * list Z
            -> outcome (nat * nat * nat * (Z * Z) * list Z) R)
    inp0 o1 o2 prev mem Phi Psi :
  (forall x inp o1 o2 prev mem (Q : _ -> Prop),
     (forall o1' o2' prev' mem', inp + 2 <= length input ->
        Q (inp + 2, o1', o2', prev', mem')) ->
     wpf (body x (inp, o1, o2, prev, mem)) Q Psi True) ->
  (forall o1' o2' prev' mem',
     (0 < n -> inp0 + 2 * n <= length input) ->
     Phi (inp0 + 2 * n, o1', o2', prev', mem')) ->
  wpf (for_from n 0 body (inp0, o1, o2, prev, mem))
    Phi Psi True.
Proof.
  intros Hbody Hpost.
  apply (wpf_for_from (fun q '(inp, _, _, _, _) =>
    inp = inp0 + 2 * q /\ (0 < q -> inp <= length input))).
  - split; lia.
  - intros q [[[[inp a] b] p] mm] Hq (-> & Hle).
    apply Hbody. intros; split; lia.
  - intros [[[[inp a] b] p] mm] (-> & Hle). apply Hpost. simpl in Hle. lia.
Qed.

(** X9.  A Bayer mosaic of [W * H] bytes with an odd width or an odd
    height: the filter steps through rows and columns in pairs, takes
    two bytes at each step, and so runs out of the image; it accesses
    memory outside its buffers. *)
Theorem PackAndFilterXGGY_odd_side_faults (R : Type) W H imageData input
    output :
  shaped W H imageData input ->
  length input = H * W ->
  0 < W -> 0 < H ->
  Nat.odd W = true \/ Nat.odd H = true ->
  @PackAndFilterXGGY R imageData output = Fault.
Proof.
  intros (HH & HW & Hin) Hli HW0 HH0 Hodd.
  apply wpf_Fault_inv. unfold PackAndFilterXGGY.
  rewrite HH, HW, Hin, !Nat2Z.id. cbv zeta.
  set (hw := Nat.div2 (W + 1)). set (hh := Nat.div2 (H + 1)).
  pose proof (div2_succ_bounds W) as HbW. pose proof (div2_succ_bounds H) as HbH.
  fold hw in HbW. fold hh in HbH.
  assert (H * W < 4 * (hh * hw)) as Hmore.
  { destruct Hodd as [Ho|Ho].
    - pose proof (div2_succ_odd W Ho) as E. fold hw in E. nia.
    - pose proof (div2_succ_odd H Ho) as E. fold hh in E. nia. }
  apply wpf_bind. unfold for_loop2. fold hw hh.
  apply (wpf_for_from (fun j '(inp, _, _, _, _) =>
    inp = j * (4 * hw) /\ (0 < j -> inp <= length input))).
  - split; lia.
  - intros j [[[[inp o_r] o_b] o_g] mem] Hj (-> & Hle).
    apply wpf_bind. apply (xggy_row_reads input).
    { intros x inp o1 o2 [p0 p1] mm Q HQ.
      apply wpf_bind, wpf_load_any. intros in0 _.
      apply wpf_bind, wpf_load_any. intros in1 Hin1.
      apply lookup_lt_Some in Hin1.
      apply wpf_bind, wpf_store_any. intros _.
      apply wpf_bind, wpf_store_any. intros _.
      apply HQ. lia. }
    intros o1 o2 [p0 p1] mem1 Hle1.
    apply wpf_bind. apply (xggy_row_reads input).
    { intros x inp o1' o2' [q0 q1] mm Q HQ.
      apply wpf_bind, wpf_load_any. intros in0 _.
      apply wpf_bind, wpf_load_any. intros in1 Hin1.
      apply lookup_lt_Some in Hin1.
      apply wpf_bind, wpf_store_any. intros _.
      apply wpf_bind, wpf_store_any. intros _.
      apply HQ. lia. }
    intros o1' o2' [q0 q1] mem2 Hle2.
    simpl. split; [lia|]. intros _. apply Hle2. lia.
  - intros [[[[inp o_r] o_b] o_g] mem] (-> & Hle). simpl in *.
    assert (0 < hh) by lia. specialize (Hle ltac:(lia)). nia.
Qed.

(** A mosaic of one row of one byte. *)
Lemma PackAndFilterXGGY_odd_side_faults_witness :
  @PackAndFilterXGGY unit (image 1 1 1 9 [7]%Z) (zeroed 1001) = Fault.
Proof.
  apply (PackAndFilterXGGY_odd_side_faults unit 1 1 (image 1 1 1 9 [7]%Z)
           [7]%Z (zeroed 1001)).
  - repeat split; reflexivity.
  - reflexivity.
  - lia.
  - lia.
  - left. reflexivity.
Defined.

(** One row of the inverse Bayer filter writes [2 * n] bytes. *)
Lemma xggy_row_writes {R} L n
    (body : nat -> nat * nat * nat * (Z * Z) * list Z
            -> outcome (nat * nat * nat * (Z * Z) * list Z) R)
    i1 i2 outp0 prev mem Phi Psi :
  length mem = L ->
  (forall x i1 i2 outp prev mem (Q : _ -> Prop),
     length mem = L ->
     (forall i1' i2' prev' mem', length mem' = L -> outp + 2 <= L ->
        Q (i1', i2', outp + 2, prev', mem')) ->
     wpf (body x (i1, i2, outp, prev, mem)) Q Psi True) ->
  (forall i1' i2' prev' mem',
     length mem' = L -> (0 < n -> outp0 + 2 * n <= L) ->
     Phi (i1', i2', outp0 + 2 * n, prev', mem')) ->
  wpf (for_from n 0 body (i1, i2, outp0, prev, mem)) Phi Psi True.
Proof.
  intros Hl Hbody Hpost.
  apply (wpf_for_from (fun q '(_, _, outp, _, mm) =>
    outp = outp0 + 2 * q /\ length mm = L /\ (0 < q -> outp <= L))).
  - repeat split; lia.
  - intros q [[[[a b] outp] p] mm] Hq (-> & Hlm & Hle).
    apply Hbody; [done|]. intros; repeat split; lia.
  - intros [[[[a b] outp] p] mm] (-> & Hlm & Hle). apply Hpost; [done|].
    simpl in Hle. lia.
Qed.

(** X10.  The inverse Bayer filter on a header with an odd width or an
    odd height, into an image of [W * H] bytes: it puts two bytes at each
    step of two columns of two rows, and so runs out of the image,
    whatever the stream holds; it accesses memory outside its buffers. *)
Theorem UnpackAndUnfilterXGGY_odd_side_faults (R : Type) W H input decoded :
  HeightPixels decoded = Z.of_nat H ->
  WidthPixels decoded = Z.of_nat W ->
  length (region (Buffer decoded)) = H * W ->
  0 < W -> 0 < H ->
  Nat.odd W = true \/ Nat.odd H = true ->
  @UnpackAndUnfilterXGGY R input decoded = Fault.
Proof.
  intros HH HW Hlo HW0 HH0 Hodd.
  apply wpf_Fault_inv. unfold UnpackAndUnfilterXGGY.
  rewrite HH, HW, !Nat2Z.id. cbv zeta.
  set (out0 := region (Buffer decoded)) in *.
  set (hw := Nat.div2 (W + 1)). set (hh := Nat.div2 (H + 1)).
  pose proof (div2_succ_bounds W) as HbW. pose proof (div2_succ_bounds H) as HbH.
  fold hw in HbW. fold hh in HbH.
  assert (H * W < 4 * (hh * hw)) as Hmore.
  { destruct Hodd as [Ho|Ho].
    - pose proof (div2_succ_odd W Ho) as E. fold hw in E. nia.
    - pose proof (div2_succ_odd H Ho) as E. fold hh in E. nia. }
  apply wpf_bind. unfold for_loop2. fold hw hh.
  apply (wpf_for_from (fun j '(_, _, _, outp, mem) =>
    outp = j * (4 * hw) /\ length mem = H * W /\ (0 < j -> outp <= H * W))).
  - repeat split; [done|lia].
  - intros j [[[[i_r i_b] i_g] outp] mem] Hj (-> & Hlm & Hle).
    apply wpf_bind. apply (xggy_row_writes (H * W)); [done| |].
    { intros x i1 i2 outp [p0 p1] mm Q Hmm HQ.
      apply wpf_bind, wpf_load_any. intros r _.
      apply wpf_bind, wpf_load_any. intros g _.
      apply wpf_bind, wpf_store_any. intros _.
      apply wpf_bind, wpf_store_any. rewrite length_insert. intros Hst.
      apply HQ; [by rewrite !length_insert|lia]. }
    intros i1 i2 [p0 p1] mem1 Hl1 Hle1.
    apply wpf_bind. apply (xggy_row_writes (H * W)); [done| |].
    { intros x i1' i2' outp [q0 q1] mm Q Hmm HQ.
      apply wpf_bind, wpf_load_any. intros g _.
      apply wpf_bind, wpf_load_any. intros b _.
      apply wpf_bind, wpf_store_any. intros _.
      apply wpf_bind, wpf_store_any. rewrite length_insert. intros Hst.
      apply HQ; [by rewrite !length_insert|lia]. }
    intros i1' i2' [q0 q1] mem2 Hl2 Hle2.
    simpl. split; [lia|]. split; [done|]. intros _.
    assert (0 < hw) by lia. specialize (Hle2 ltac:(lia)). lia.
  - intros [[[[i_r i_b] i_g] outp] mem] (-> & Hlm & Hle). simpl in *.
    assert (0 < hh) by lia. specialize (Hle ltac:(lia)). nia.
Qed.

(** A header of 1 by 1, a stream of zeros. *)
Lemma UnpackAndUnfilterXGGY_odd_side_faults_witness :
  @UnpackAndUnfilterXGGY unit (zeroed 1001) (image 1 1 1 9 (zeroed 1)) = Fault.
Proof.
  apply (UnpackAndUnfilterXGGY_odd_side_faults unit 1 1 (zeroed 1001)
           (image 1 1 1 9 (zeroed 1))).
  - reflexivity.
  - reflexivity.
  - reflexivity.
  - lia.
  - lia.
  - left. reflexivity.
Defined.


Lemma escape_count_app l l' :
  escape_count (l ++ l') = escape_count l + escape_count l'.
Proof. induction l as [|d l IH]; simpl; [done|]. rewrite IH. lia. Qed.

Lemma escape_count_take_S enc m d :
  enc !! m = Some d ->
  escape_count (take (Datatypes.S m) enc)
  = escape_count (take m enc) + (if (d =? 0x80)%Z then 1 else 0).
Proof.
  intros Hd. rewrite (take_S_r _ _ _ Hd), escape_count_app. simpl. lia.
Qed.

(** X11.  The inter decoder takes one byte from the overflow region for
    every escape byte it meets, and does not count them: on a stream
    with more than 1000 escape bytes among the [H * W * k] bytes of the
    frame it runs out of the [H * W * k + 1000] bytes that
    [ZPNG_DecompressVideo] allocates; it accesses memory outside its
    buffers. *)
Theorem UnpackAndUnfilterVideo_escape_overrun (R : Type) k W H refData enc
    decoded :
  HeightPixels decoded = Z.of_nat H ->
  WidthPixels decoded = Z.of_nat W ->
  (Z.of_nat (H * W * k) < 4294967296)%Z ->
  length enc = H * W * k + 1000 ->
  1000 < escape_count (take (H * W * k) enc) ->
  @UnpackAndUnfilterVideo R k refData enc decoded = Fault.
Proof.
  intros HH HW Hbound Hle Hesc.
  apply wpf_Fault_inv. unfold UnpackAndUnfilterVideo.
  rewrite HH, HW, !Nat2Z.id.
  rewrite u32_small by lia.
  replace (Z.to_nat (Z.of_nat H * Z.of_nat W * Z.of_nat k)) with (H * W * k) by lia.
  set (N := H * W * k) in *.
  set (e := fun m => escape_count (take m enc)).
  set (Inv := fun (m overflow : nat) =>
    overflow = N + e m /\ (0 < e m -> overflow <= length enc)).
  apply wpf_bind.
  apply (wpf_for_loop (fun y '(refp, inp, outp, overflow, mem) =>
    inp = y * W * k /\ Inv (y * W * k) overflow)).
  - unfold Inv, e. rewrite take_0. simpl. repeat split; lia.
  - intros y [[[[refp0 inp0] outp0] ov0] mem0] Hy (-> & HInv0).
    apply (wpf_for_loop (fun x '(refp, inp, outp, overflow, mem) =>
      inp = (y * W + x) * k /\ Inv ((y * W + x) * k) overflow)).
    + split; [lia|]. by replace ((y * W + 0) * k) with (y * W * k) by lia.
    + intros x [[[[refp1 inp1] outp1] ov1] mem1] Hx (-> & HInv1).
      set (base := (y * W + x) * k) in *.
      apply wpf_bind.
      apply (wpf_for_loop (fun i '(overflow, mem) => Inv (base + i) overflow)).
      * by rewrite Nat.add_0_r.
      * intros i [ov2 mem2] Hi (-> & Hov).
        apply wpf_bind, wpf_load_any. intros d Hd.
        pose proof (escape_count_take_S enc (base + i) d Hd) as HS.
        fold (e (Datatypes.S (base + i))) in HS. fold (e (base + i)) in HS.
        unfold Inv.
        replace (base + Datatypes.S i) with (Datatypes.S (base + i)) by lia.
        destruct (d =? 128)%Z eqn:Ed.
        -- apply wpf_bind, wpf_load_any. intros v Hv.
           apply lookup_lt_Some in Hv.
           apply wpf_bind, wpf_store_any. intros _.
           simpl. rewrite HS. split; lia.
        -- apply wpf_bind, wpf_load_any. intros r _.
           apply wpf_bind, wpf_store_any. intros _.
           simpl. rewrite HS, Nat.add_0_r. split; [lia|done].
      * intros [ov2 mem2] HInv2. simpl.
        split; [unfold base; lia|].
        by replace ((y * W + Datatypes.S x) * k) with (base + k)
          by (unfold base; lia).
    + intros [[[[refp1 inp1] outp1] ov1] mem1] (-> & HInv1).
      split; [lia|].
      by replace (Datatypes.S y * W * k) with ((y * W + W) * k) by lia.
  - intros [[[[refp0 inp0] outp0] ov0] mem0] (-> & -> & Hov).
    fold N in Hov. unfold e in Hov. lia.
Qed.

(** ** The filters do not return from their caller *)


Lemma never_exits_bind {S T R} (m : outcome S R) (f : S -> outcome T R) :
  never_exits m -> (forall s, never_exits (f s)) -> never_exits (bind m f).
Proof. destruct m; simpl; auto. Qed.

Lemma never_exits_for_from {S R} n i0 (body : nat -> S -> outcome S R) s :
  (forall i s, never_exits (body i s)) -> never_exits (for_from n i0 body s).
Proof.
  intros Hbody. revert i0 s. induction n as [|n IH]; intros i0 s; simpl.
  - exact I.
  - apply never_exits_bind; [apply Hbody|]. intros s'. apply IH.
Qed.

Lemma never_exits_load {R} l i : never_exits (@load R l i).
Proof. unfold never_exits, load. by destruct (l !! i). Qed.

Lemma never_exits_store {R} l i v : never_exits (@store R l i v).
Proof. unfold never_exits, store. by destruct (i <? length l)%nat. Qed.

Lemma never_exits_call {A R} (m : outcome A A) : never_exits (@call A R m).
Proof. by destruct m. Qed.

Ltac no_exit :=
  repeat first
    [ exact I
    | apply never_exits_load
    | apply never_exits_store
    | apply never_exits_call
    | apply never_exits_bind; [|intros ?]
    | (unfold for_loop, for_loop2; apply never_exits_for_from; intros ? ?)
    | match goal with
      | |- never_exits (match ?s with pair _ _ => _ end) => destruct s
      | |- never_exits (if ?b then _ else _) => destruct b
      end ].

Lemma PackAndFilter_never_exits {R} k d output :
  never_exits (@PackAndFilter R k d output).
Proof.
  unfold PackAndFilter.
  destruct k as [|[|[|[|[|k]]]]];
    unfold PackAndFilter_generic, PackAndFilter_3, PackAndFilter_4;
    cbv zeta; no_exit.
Qed.

Lemma PackAndFilterXGGY_never_exits {R} d output :
  never_exits (@PackAndFilterXGGY R d output).
Proof. unfold PackAndFilterXGGY. cbv zeta. no_exit. Qed.

Lemma Pass1_never_exits {R} refData d pixelBytes packing :
  never_exits (@Pass1_PackAndFilter R refData d pixelBytes packing).
Proof.
  unfold Pass1_PackAndFilter. destruct refData as [ref|].
  - repeat case_match; first [apply never_exits_call | exact I].
  - apply never_exits_bind; [|intros; exact I].
    repeat case_match;
      first [apply PackAndFilter_never_exits
            | apply PackAndFilterXGGY_never_exits | exact I].
Qed.


Lemma UnpackAndUnfilter_never_exits {R} k packing d :
  never_exits (@UnpackAndUnfilter R k packing d).
Proof.
  unfold UnpackAndUnfilter.
  destruct k as [|[|[|[|[|k]]]]];
    unfold UnpackAndUnfilter_generic, UnpackAndUnfilter_3, UnpackAndUnfilter_4;
    cbv zeta; no_exit.
Qed.

Lemma UnpackAndUnfilterXGGY_never_exits {R} packing d :
  never_exits (@UnpackAndUnfilterXGGY R packing d).
Proof. unfold UnpackAndUnfilterXGGY. cbv zeta. no_exit. Qed.

Lemma UnpackAndUnfilterVideo_never_exits {R} k refData packing d :
  never_exits (@UnpackAndUnfilterVideo R k refData packing d).
Proof. unfold UnpackAndUnfilterVideo. cbv zeta. no_exit. Qed.

Lemma Stage2_never_exits {R} refData d pixelBytes packing :
  never_exits (@Stage2_Unfilter R refData d pixelBytes packing).
Proof.
  unfold Stage2_Unfilter. cbv zeta.
  repeat case_match;
    first [apply UnpackAndUnfilter_never_exits
          | apply UnpackAndUnfilterXGGY_never_exits
          | apply UnpackAndUnfilterVideo_never_exits | exact I].
Qed.



(** ** The decoders stay within their buffers *)

Lemma wp_load_lt {R} (l : list Z) i (Phi : Z -> Prop) (Psi : R -> Prop) :
  i < length l -> (forall v, Phi v) -> wp (load l i) Phi Psi.
Proof.
  intros Hi HP. unfold load.
  destruct (lookup_lt_is_Some_2 l i Hi) as [v ->]. apply HP.
Qed.

Ltac safe_load := apply wp_bind, wp_load_lt; [|intros ?].
Ltac safe_store := apply wp_bind, wp_store; [rewrite ?length_insert|].

Lemma UnpackAndUnfilter_generic_safe {R} k W H enc img (Psi : R -> Prop) :
  HeightPixels img = Z.of_nat H -> WidthPixels img = Z.of_nat W ->
  H * (W * k) <= length enc ->
  length (region (Buffer img)) = H * (W * k) ->
  wp (UnpackAndUnfilter_generic k enc img)
     (fun mem => length mem = H * (W * k)) Psi.
Proof.
  intros HH HW Hle Hlo. unfold UnpackAndUnfilter_generic.
  rewrite HH, HW, !Nat2Z.id. set (N := H * (W * k)) in *.
  apply wp_bind.
  apply (wp_for_loop (fun y '(inp, outp, mem) =>
    inp = y * (W * k) /\ outp = y * (W * k) /\ length mem = N)).
  - done.
  - intros y [[inp0 outp0] mem0] Hy (-> & -> & Hl0).
    apply wp_bind.
    apply (wp_for_loop (fun x '(inp, outp, prev, mem) =>
      inp = y * (W * k) + x * k /\ outp = y * (W * k) + x * k /\
      length prev = k /\ length mem = N)).
    + rewrite length_replicate. repeat split; lia.
    + intros x [[[inp1 outp1] prev1] mem1] Hx (-> & -> & Hp1 & Hl1).
      pose proof (mul_add_lt y x H W Hy Hx) as Hb.
      apply wp_bind.
      apply (wp_for_loop (fun i '(prev, mem) =>
        length prev = k /\ length mem = N)).
      * done.
      * intros i [prev2 mem2] Hi (Hp2 & Hl2).
        safe_load. { unfold N in *. nia. }
        safe_load. { lia. }
        safe_store. { unfold N in *. nia. }
        safe_store. { lia. }
        simpl. by rewrite !length_insert.
      * intros [prev2 mem2] (Hp2 & Hl2). simpl. repeat split; lia.
    + intros [[[inp1 outp1] prev1] mem1] (-> & -> & Hp1 & Hl1).
      simpl. repeat split; lia.
  - by intros [[inp0 outp0] mem0] (-> & -> & Hl0).
Qed.

Lemma UnpackAndUnfilter_3_safe {R} W H enc img (Psi : R -> Prop) :
  HeightPixels img = Z.of_nat H -> WidthPixels img = Z.of_nat W ->
  (Z.of_nat (3 * (H * W)) < 4294967296)%Z ->
  3 * (H * W) <= length enc ->
  length (region (Buffer img)) = 3 * (H * W) ->
  wp (UnpackAndUnfilter_3 enc img) (fun mem => length mem = 3 * (H * W)) Psi.
Proof.
  intros HH HW Hbound Hle Hlo. unfold UnpackAndUnfilter_3.
  rewrite HH, HW, !Nat2Z.id.
  rewrite (u32_small (Z.of_nat W * Z.of_nat H)) by lia.
  rewrite u32_small by lia.
  replace (Z.to_nat (Z.of_nat W * Z.of_nat H)) with (H * W) by lia.
  replace (Z.to_nat (Z.of_nat W * Z.of_nat H * 2)) with (2 * (H * W)) by lia.
  set (n := H * W) in *.
  apply wp_bind.
  apply (wp_for_loop (fun y '(iy, iu, iv, outp, mem) =>
    iy = y * W /\ iu = n + y * W /\ iv = 2 * n + y * W /\ outp = 3 * (y * W) /\
    length mem = 3 * n)).
  - repeat split; lia.
  - intros y [[[[iy0 iu0] iv0] outp0] mem0] Hy (-> & -> & -> & -> & Hl0).
    apply wp_bind.
    apply (wp_for_loop (fun x '(iy, iu, iv, outp, _, mem) =>
      iy = y * W + x /\ iu = n + (y * W + x) /\ iv = 2 * n + (y * W + x) /\
      outp = 3 * (y * W + x) /\ length mem = 3 * n)).
    + repeat split; lia.
    + intros x [[[[[iy1 iu1] iv1] outp1] [[p0 p1] p2]] mem1] Hx
        (-> & -> & -> & -> & Hl1).
      pose proof (mul_add_lt y x H W Hy Hx) as Hb. fold n in Hb.
      safe_load. { lia. }
      safe_load. { lia. }
      safe_load. { lia. }
      safe_store. { lia. }
      safe_store. { lia. }
      safe_store. { lia. }
      simpl. rewrite !length_insert. repeat split; lia.
    + intros [[[[[iy1 iu1] iv1] outp1] [[p0 p1] p2]] mem1]
        (-> & -> & -> & -> & Hl1).
      simpl. repeat split; lia.
  - by intros [[[[iy0 iu0] iv0] outp0] mem0] (-> & -> & -> & -> & Hl0).
Qed.

Lemma UnpackAndUnfilter_4_safe {R} W H enc img (Psi : R -> Prop) :
  HeightPixels img = Z.of_nat H -> WidthPixels img = Z.of_nat W ->
  (Z.of_nat (4 * (H * W)) < 4294967296)%Z ->
  4 * (H * W) <= length enc ->
  length (region (Buffer img)) = 4 * (H * W) ->
  wp (UnpackAndUnfilter_4 enc img) (fun mem => length mem = 4 * (H * W)) Psi.
Proof.
  intros HH HW Hbound Hle Hlo. unfold UnpackAndUnfilter_4.
  rewrite HH, HW, !Nat2Z.id.
  rewrite (u32_small (Z.of_nat W * Z.of_nat H)) by lia.
  rewrite !u32_small by lia.
  replace (Z.to_nat (Z.of_nat W * Z.of_nat H)) with (H * W) by lia.
  replace (Z.to_nat (Z.of_nat W * Z.of_nat H * 2)) with (2 * (H * W)) by lia.
  replace (Z.to_nat (Z.of_nat W * Z.of_nat H * 3)) with (3 * (H * W)) by lia.
  set (n := H * W) in *.
  apply wp_bind.
  apply (wp_for_loop (fun y '(iy, iu, iv, ia, outp, mem) =>
    iy = y * W /\ iu = n + y * W /\ iv = 2 * n + y * W /\
    ia = 3 * n + y * W /\ outp = 4 * (y * W) /\ length mem = 4 * n)).
  - repeat split; lia.
  - intros y [[[[[iy0 iu0] iv0] ia0] outp0] mem0] Hy
      (-> & -> & -> & -> & -> & Hl0).
    apply wp_bind.
    apply (wp_for_loop (fun x '(iy, iu, iv, ia, outp, _, mem) =>
      iy = y * W + x /\ iu = n + (y * W + x) /\ iv = 2 * n + (y * W + x) /\
      ia = 3 * n + (y * W + x) /\
      outp = 4 * (y * W + x) /\ length mem = 4 * n)).
    + repeat split; lia.
    + intros x [[[[[[iy1 iu1] iv1] ia1] outp1] [[[p0 p1] p2] p3]] mem1] Hx
        (-> & -> & -> & -> & -> & Hl1).
      pose proof (mul_add_lt y x H W Hy Hx) as Hb. fold n in Hb.
      safe_load. { lia. }
      safe_load. { lia. }
      safe_load. { lia. }
      safe_load. { lia. }
      safe_store. { lia. }
      safe_store. { lia. }
      safe_store. { lia. }
      safe_store. { lia. }
      simpl. rewrite !length_insert. repeat split; lia.
    + intros [[[[[[iy1 iu1] iv1] ia1] outp1] [[[p0 p1] p2] p3]] mem1]
        (-> & -> & -> & -> & -> & Hl1).
      simpl. repeat split; lia.
  - by intros [[[[[iy0 iu0] iv0] ia0] outp0] mem0]
      (-> & -> & -> & -> & -> & Hl0).
Qed.

Lemma UnpackAndUnfilter_safe {R} k W H enc img (Psi : R -> Prop) :
  HeightPixels img = Z.of_nat H -> WidthPixels img = Z.of_nat W ->
  (Z.of_nat (k * (H * W)) < 4294967296)%Z ->
  k * (H * W) <= length enc ->
  length (region (Buffer img)) = k * (H * W) ->
  wp (UnpackAndUnfilter k enc img) (fun mem => length mem = k * (H * W)) Psi.
Proof.
  intros HH HW Hbound Hle Hlo.
  assert (Hgen : wp (UnpackAndUnfilter_generic k enc img)
                   (fun mem => length mem = k * (H * W)) Psi).
  { replace (k * (H * W)) with (H * (W * k)) in * by lia.
    by apply UnpackAndUnfilter_generic_safe. }
  unfold UnpackAndUnfilter. destruct k as [|[|[|[|[|k]]]]]; try exact Hgen.
  - by apply UnpackAndUnfilter_3_safe.
  - by apply UnpackAndUnfilter_4_safe.
Qed.


Lemma escape_count_take_mono enc m m' :
  m <= m' -> escape_count (take m enc) <= escape_count (take m' enc).
Proof.
  intros Hm. rewrite <- (take_drop m (take m' enc)), escape_count_app.
  rewrite take_take, Nat.min_l by done. lia.
Qed.

(** X12.  The inter decoder stays within its buffers when the stream
    holds at most 1000 escape bytes among the [H * W * k] bytes of the
    frame: with a packing buffer of at least [H * W * k + 1000] bytes and
    a reference of at least [H * W * k] bytes it returns, whatever the
    stream holds otherwise, and keeps the size of the image. *)
Theorem UnpackAndUnfilterVideo_stays_in_bounds (R : Type) k W H refData enc
    decoded :
  HeightPixels decoded = Z.of_nat H ->
  WidthPixels decoded = Z.of_nat W ->
  (Z.of_nat (H * W * k) < 4294967296)%Z ->
  H * W * k + 1000 <= length enc ->
  H * W * k <= length (region (Buffer refData)) ->
  length (region (Buffer decoded)) = H * W * k ->
  escape_count (take (H * W * k) enc) <= 1000 ->
  exists mem,
    @UnpackAndUnfilterVideo R k refData enc decoded = Next mem /\
    length mem = H * W * k.
Proof.
  intros HH HW Hbound Hle Hlr Hlo Hesc.
  apply wp_Next_inv. unfold UnpackAndUnfilterVideo.
  rewrite HH, HW, !Nat2Z.id.
  rewrite u32_small by lia.
  replace (Z.to_nat (Z.of_nat H * Z.of_nat W * Z.of_nat k)) with (H * W * k) by lia.
  set (N := H * W * k) in *.
  set (e := fun m => escape_count (take m enc)).
  set (Inv := fun (m overflow : nat) (mem : list Z) =>
    overflow = N + e m /\ length mem = N).
  apply wp_bind.
  apply (wp_for_loop (fun y '(refp, inp, outp, overflow, mem) =>
    refp = y * W * k /\ inp = y * W * k /\ outp = y * W * k /\
    Inv (y * W * k) overflow mem)).
  - unfold Inv, e. rewrite take_0. simpl. repeat split; lia.
  - intros y [[[[refp0 inp0] outp0] ov0] mem0] Hy (-> & -> & -> & HInv0).
    apply (wp_for_loop (fun x '(refp, inp, outp, overflow, mem) =>
      refp = (y * W + x) * k /\ inp = (y * W + x) * k /\
      outp = (y * W + x) * k /\ Inv ((y * W + x) * k) overflow mem)).
    + repeat split; try lia.
      all: replace ((y * W + 0) * k) with (y * W * k) by lia; apply HInv0.
    + intros x [[[[refp1 inp1] outp1] ov1] mem1] Hx (-> & -> & -> & HInv1).
      set (base := (y * W + x) * k) in *.
      assert (base + k <= N) as Hbase.
      { pose proof (mul_add_lt y x H W Hy Hx). unfold base, N. nia. }
      apply wp_bind.
      apply (wp_for_loop (fun i '(overflow, mem) => Inv (base + i) overflow mem)).
      * by rewrite Nat.add_0_r.
      * intros i [ov2 mem2] Hi (-> & Hl2).
        apply wp_bind.
        eapply wp_load; [apply byte_at_lookup; lia|].
        pose proof (escape_count_take_S enc (base + i) _
                      (byte_at_lookup enc (base + i) ltac:(lia))) as HS.
        fold (e (Datatypes.S (base + i))) in HS. fold (e (base + i)) in HS.
        pose proof (escape_count_take_mono enc (Datatypes.S (base + i)) N
                      ltac:(lia)) as Hmono.
        fold (e (Datatypes.S (base + i))) in Hmono.
        unfold Inv.
        replace (base + Datatypes.S i) with (Datatypes.S (base + i)) by lia.
        destruct (byte_at enc (base + i) =? 128)%Z eqn:Ed.
        -- apply wp_bind, wp_load_lt; [lia|intros v].
           apply wp_bind, wp_store; [lia|].
           simpl. rewrite HS, length_insert. split; lia.
        -- apply wp_bind, wp_load_lt; [lia|intros r].
           apply wp_bind, wp_store; [lia|].
           simpl. rewrite HS, length_insert. split; lia.
      * intros [ov2 mem2] HInv2. simpl.
        repeat split; try (unfold base; lia).
        all: replace ((y * W + Datatypes.S x) * k) with (base + k)
               by (unfold base; lia); apply HInv2.
    + intros [[[[refp1 inp1] outp1] ov1] mem1] (-> & -> & -> & HInv1).
      repeat split; try lia.
      all: replace (Datatypes.S y * W * k) with ((y * W + W) * k) by lia;
        apply HInv1.
  - by intros [[[[refp0 inp0] outp0] ov0] mem0] (-> & -> & -> & -> & Hl).
Qed.

(** A stream of one escape byte and three deltas. *)
Lemma UnpackAndUnfilterVideo_stays_in_bounds_witness :
  exists mem,
    @UnpackAndUnfilterVideo unit 1 (image 2 2 1 1 [0; 3; 0; 7]%Z)
      ([0x80; 2; 0; 0xFF]%Z ++ replicate 1000 9%Z)
      (image 2 2 1 1 (zeroed 4)) = Next mem /\
    length mem = 2 * 2 * 1.
Proof.
  apply (UnpackAndUnfilterVideo_stays_in_bounds unit 1 2 2).
  - reflexivity.
  - reflexivity.
  - vm_compute. reflexivity.
  - vm_compute. lia.
  - vm_compute. lia.
  - reflexivity.
  - vm_compute. lia.
Defined.

(** ** The facade *)

Section Properties.
Local Open Scope Z_scope.
Variable rt : Runtime.

Lemma compress_general refData d bufferOutput output dictionary n packing1 :
  sizes_fit rt d -> pixel_bytes d <= 8 ->
  calloc_ok rt (byte_count d + 1000) = true ->
  (Bytes bufferOutput = 0 /\
   calloc_ok rt (ZPNG_HEADER_OVERHEAD_BYTES
                 + ZSTD_compressBound rt (byte_count d)) = true /\
   output = zeroed (ZPNG_HEADER_OVERHEAD_BYTES
                    + ZSTD_compressBound rt (byte_count d))) \/
  (Bytes bufferOutput <> 0 /\
   ZPNG_HEADER_OVERHEAD_BYTES + ZSTD_compressBound rt (byte_count d)
     <= Bytes bufferOutput /\
   Data bufferOutput = Some output /\
   Bytes bufferOutput <= Z.of_nat (length output)) ->
  @Pass1_PackAndFilter (Z * ZPNG_Buffer * dictionary_slot)
    refData d (pixel_bytes d) (zeroed (byte_count d + 1000))
    = Next (n, packing1) ->
  length packing1 = Z.to_nat (byte_count d + 1000) ->
  -1 <= n <= 1000 ->
  let src := take (Z.to_nat (byte_count d + Z.max n 0)) packing1 in
  exists result : option (list Z),
    (forall c, result = Some c ->
       (forall cap, byte_count d + Z.max n 0 <= cap ->
          ZSTD_decompress rt cap c = Some src) /\
       Z.of_nat (length c) <= ZSTD_compressBound rt (byte_count d)) /\
    (n <= 0 -> result <> None) /\
    ZPNG_CompressVideoToBuffer rt refData d bufferOutput false dictionary
    = Some (0,
            match result with
            | None => bufferOutput
            | Some c =>
                frame (if non_null refData && (n >=? 0)
                       then ZPNG_VIDEO_HEADER_MAGIC else ZPNG_HEADER_MAGIC)
                  d c (drop (8 + length c) output)
            end,
            dictionary).
Proof.
  intros Hs Hpb Hmem Hsel Hpass Hlen Hn src.
  pose proof (byte_count_nonneg rt d Hs) as HB0.
  pose proof (pixel_bytes_nonneg rt d Hs) as Hpb0.
  pose proof (ZSTD_compressBound_ge rt _ HB0) as Hbound.
  destruct Hs as (HW & HH & HC & HBpc & HB & Hout).
  unfold ZPNG_HEADER_OVERHEAD_BYTES in *.
  set (B := byte_count d) in *.
  set (M := ZSTD_compressBound rt B) in *.
  assert (Hsrc : Z.of_nat (length src) = B + Z.max n 0).
  { unfold src. rewrite length_take. lia. }
  assert (Hlo : 8 + M <= Z.of_nat (length output)).
  { destruct Hsel as [(_ & _ & ->)|(_ & ? & _ & ?)]; [|lia].
    unfold zeroed. rewrite length_replicate. lia. }
  assert (Hsel' :
    (if Bytes bufferOutput =? 0 then
       if calloc_ok rt (8 + M) then Next (zeroed (8 + M))
       else Exit (0, bufferOutput, dictionary)
     else if Bytes bufferOutput <? 8 + M then
       Exit (0, bufferOutput, dictionary)
     else
       match Data bufferOutput with
       | Some l => Next l
       | None => Exit (0, bufferOutput, dictionary)
       end)
    = (Next output : outcome _ (Z * ZPNG_Buffer * dictionary_slot))).
  { destruct Hsel as [(-> & -> & ->)|(Hne & Hge & -> & _)]; [done|].
    rewrite (proj2 (Z.eqb_neq _ _) Hne), (ltb_false _ _ Hge). done. }
  exists (ZSTD_compress rt M src). split; [|split].
  - intros c Hc. split.
    + intros cap Hcap. eapply ZSTD_decompress_compress; [exact Hc|lia].
    + by eapply ZSTD_compress_fits.
  - intros Hn0. assert (Z.of_nat (length src) = B) as Hsrc0 by lia.
    destruct (ZSTD_compress_bound rt M src) as [c ->]; [|done].
    rewrite Hsrc0. unfold M. lia.
  - unfold ZPNG_CompressVideoToBuffer. cbv zeta.
    unfold ZPNG_HEADER_OVERHEAD_BYTES.
    rewrite (u32_small (WidthPixels d * HeightPixels d)) by nia.
    fold (byte_count d). fold B.
    rewrite (u32_small B) by lia.
    rewrite (u32_small (B + 1000)) by lia.
    fold M. rewrite (u32_small M) by lia.
    rewrite (u32_small (8 + M)) by lia.
    rewrite (gtb_false (pixel_bytes d) 8) by done.
    rewrite Hmem. cbn [negb]. rewrite Hsel'.
    unfold bind at 1. rewrite Hpass. unfold bind at 1. cbv beta iota.
    assert ((if n >=? 0 then n else 0) = Z.max n 0) as ->.
    { destruct (n >=? 0) eqn:E; lia. }
    rewrite (u32_small (B + Z.max n 0)) by lia.
    rewrite Hlen, (ltb_false (Z.of_nat (Z.to_nat (B + 1000)))) by lia.
    rewrite (ltb_false (Z.of_nat (length output))) by lia.
    fold src. unfold bind.
    destruct (ZSTD_compress rt M src) as [c|] eqn:Hres; [|done].
    assert (Z.of_nat (length c) <= M) as Hfit by (by eapply ZSTD_compress_fits).
    simpl run.
    rewrite (u32_small (Z.of_nat (length c))) by lia.
    rewrite (u32_small (8 + Z.of_nat (length c))) by lia.
    rewrite written_buffer; [done|done|lia].
Qed.


Lemma decompress_frame refData d magic isIFrame compressed rest enc mem :
  sizes_fit rt d ->
  calloc_ok rt (byte_count d + 1000) = true ->
  calloc_ok rt (byte_count d) = true ->
  (magic = ZPNG_HEADER_MAGIC /\ isIFrame = 1) \/
  (magic = ZPNG_VIDEO_HEADER_MAGIC /\ isIFrame = 0 /\ refData <> None) ->
  ZSTD_decompress rt (byte_count d + 1000) compressed = Some enc ->
  @Stage2_Unfilter ZPNG_ImageData refData
    (decoded_frame d isIFrame (zeroed (byte_count d))) (pixel_bytes d)
    (write_at 0 enc (zeroed (byte_count d + 1000))) = Next mem ->
  ZPNG_DecompressVideo rt refData (frame magic d compressed rest)
  = Some (decoded_frame d isIFrame mem).
Proof.
  intros Hs Hmem1 Hmem2 Hmagic Hdec Hstage.
  pose proof (byte_count_nonneg rt d Hs) as HB0.
  pose proof (pixel_bytes_nonneg rt d Hs) as Hpb0.
  destruct Hs as (HW & HH & HC & HBpc & HB & Hout).
  unfold ZPNG_DecompressVideo, frame, ZPNG_HEADER_OVERHEAD_BYTES in *.
  cbn [Data Bytes]. rewrite (ltb_false (8 + Z.of_nat (length compressed)) 8) by lia.
  unfold header_of, header_bytes. cbn [Magic Width Height HChannels HBytesPerChannel].
  unfold load16, load. cbn [lookup list_lookup app bind Nat.add].
  rewrite !u16_small, !(u8_small (Channels d)), !(u8_small (BytesPerChannel d))
    by (unfold is_byte; lia).
  rewrite !le16_bytes
    by (destruct Hmagic as [[-> _]|[-> _]];
        unfold ZPNG_HEADER_MAGIC, ZPNG_VIDEO_HEADER_MAGIC; lia).
  assert ((match refData with
           | Some _ =>
               if negb (magic =? ZPNG_HEADER_MAGIC)
               then if magic =? ZPNG_VIDEO_HEADER_MAGIC then Next 0
                    else Exit
                           {| Buffer := {| Data := None; Bytes := 0 |};
                              BytesPerChannel := 0; Channels := 0;
                              WidthPixels := 0; HeightPixels := 0;
                              StrideBytes := 0; IsIFrame := 1 |}
               else Next 1
           | None =>
               if negb (magic =? ZPNG_HEADER_MAGIC)
               then Exit
                      {| Buffer := {| Data := None; Bytes := 0 |};
                         BytesPerChannel := 0; Channels := 0;
                         WidthPixels := 0; HeightPixels := 0;
                         StrideBytes := 0; IsIFrame := 1 |}
               else Next 1
           end : outcome Z ZPNG_ImageData) = Next isIFrame) as ->.
  { destruct Hmagic as [[-> ->]|(-> & -> & Href)].
    - by destruct refData.
    - by destruct refData. }
  cbn [bind]. cbv zeta. unfold pixel_bytes.
  cbn [BytesPerChannel Channels WidthPixels HeightPixels].
  fold (pixel_bytes d).
  rewrite (u32_small (WidthPixels d * HeightPixels d)) by nia.
  fold (byte_count d). set (B := byte_count d) in *.
  rewrite (u32_small B) by lia. rewrite (u32_small (B + 1000)) by lia.
  rewrite Hmem1, Hmem2. cbn [negb].
  rewrite ltb_false by (simpl; rewrite !length_app; lia).
  replace (take _ (drop _ _)) with compressed.
  2:{ replace (Z.to_nat (8 + Z.of_nat (length compressed) - 8))
        with (length compressed) by lia.
      simpl. by rewrite drop_0, take_app_length. }
  rewrite Hdec.
  unfold with_Data. cbn [BytesPerChannel Channels WidthPixels HeightPixels
                         StrideBytes IsIFrame Buffer Data Bytes].
  unfold decoded_frame in Hstage |- *. fold B in Hstage |- *.
  rewrite Hstage. reflexivity.
Qed.

Lemma Pass1_video {R} refData d packing :
  1 <= pixel_bytes d <= 8 ->
  @Pass1_PackAndFilter R (Some refData) d (pixel_bytes d) packing
  = PackAndFilterVideo (Z.to_nat (pixel_bytes d)) refData d packing.
Proof.
  intros Hpb. unfold Pass1_PackAndFilter.
  assert (pixel_bytes d = 1 \/ pixel_bytes d = 2 \/ pixel_bytes d = 3 \/
          pixel_bytes d = 4 \/ pixel_bytes d = 5 \/ pixel_bytes d = 6 \/
          pixel_bytes d = 7 \/ pixel_bytes d = 8)
    as [-> | [-> | [-> | [-> | [-> | [-> | [-> | ->]]]]]]] by lia; done.
Qed.

Lemma Stage2_video {R} refData d pixelBytes packing :
  1 <= pixelBytes <= 8 -> IsIFrame d = 0 ->
  @Stage2_Unfilter R (Some refData) d pixelBytes packing
  = UnpackAndUnfilterVideo (Z.to_nat pixelBytes) refData packing d.
Proof.
  intros Hpb HI. unfold Stage2_Unfilter. cbv zeta. rewrite HI.
  change (0 =? 0) with true. cbv iota.
  assert (pixelBytes = 1 \/ pixelBytes = 2 \/ pixelBytes = 3 \/
          pixelBytes = 4 \/ pixelBytes = 5 \/ pixelBytes = 6 \/
          pixelBytes = 7 \/ pixelBytes = 8)
    as [-> | [-> | [-> | [-> | [-> | [-> | [-> | ->]]]]]]] by lia; done.
Qed.

Lemma Stage2_iframe {R} refData d pixelBytes packing :
  IsIFrame d = 1 ->
  @Stage2_Unfilter R refData d pixelBytes packing
  = Stage2_Unfilter None d pixelBytes packing.
Proof.
  intros HI. unfold Stage2_Unfilter. cbv zeta. rewrite HI.
  by destruct refData.
Qed.

Lemma video_encoded_agree N cur ref mem mem' :
  length cur = N -> length ref = N ->
  (forall i, (i < N + overflow_count cur ref)%nat -> mem' !! i = mem !! i) ->
  video_encoded N cur ref mem -> video_encoded N cur ref mem'.
Proof.
  intros Hlc Hlr Hagree Henc j Hj. destruct (Henc j Hj) as [Hmain Hlit].
  split.
  - rewrite Hagree by lia. done.
  - intros Hov. rewrite Hagree; [by apply Hlit|].
    pose proof (overflows_before_lt cur ref j N Hj ltac:(lia) ltac:(lia) Hov).
    pose proof (overflows_before_all cur ref ltac:(lia)) as Hall.
    rewrite Hlc in Hall. lia.
Qed.

Lemma magic_of_frame magic d payload rest :
  0 <= magic < 65536 -> magic_of (frame magic d payload rest) = magic.
Proof.
  intros Hm. unfold magic_of, frame, region, header_bytes, header_of, byte_at.
  cbn. by apply le16_bytes.
Qed.

(** X13.  Video round trip without a compression context, for a pair
    with at most 1000 overflows.  [ZPNG_CompressVideoToBuffer] returns 0
    and either leaves the buffer null, when [ZSTD_compress] does not fit
    the frame and its escape literals into the capacity computed for the
    frame alone, which cannot happen without overflows, or returns a
    frame under the video magic that [ZPNG_DecompressVideo] decodes,
    with the same reference, to the same dimensions and pixels, with the
    intra flag cleared. *)
Theorem video_round_trip refData d ref cur dictionary :
  valid_video rt refData d ref cur ->
  (overflow_count cur ref <= 1000)%nat ->
  (forall size, calloc_ok rt size = true) ->
  exists buffer,
    ZPNG_CompressVideoToBuffer rt (Some refData) d no_buffer false dictionary
    = Some (0, buffer, dictionary) /\
    (overflow_count cur ref = 0%nat -> Data buffer <> None) /\
    (Data buffer <> None ->
     magic_of buffer = ZPNG_VIDEO_HEADER_MAGIC /\
     ZPNG_DecompressVideo rt (Some refData) buffer
     = Some (decoded_frame d 0 cur)).
Proof.
  intros (Hs & HData & Hbytes & Hlen & Hpb & Href & Hlr) Hcnt Hmem.
  pose proof (byte_count_nonneg rt d Hs) as HB0.
  pose proof Hs as (HW & HH & HC & HBpc & HB & Hout).
  assert (Hreg : region (Buffer d) = cur) by (unfold region; by rewrite HData).
  set (W := Z.to_nat (WidthPixels d)). set (H := Z.to_nat (HeightPixels d)).
  set (k := Z.to_nat (pixel_bytes d)).
  assert (HWn : WidthPixels d = Z.of_nat W) by lia.
  assert (HHn : HeightPixels d = Z.of_nat H) by lia.
  assert (HN : byte_count d = Z.of_nat (H * W * k)).
  { unfold byte_count. lia. }
  assert (Hz : length (zeroed (byte_count d + 1000))
               = Z.to_nat (byte_count d + 1000)).
  { unfold zeroed. by rewrite length_replicate. }
  destruct (PackAndFilterVideo_spec
              (R:=Z * ZPNG_Buffer * dictionary_slot) k W H cur ref refData d
              (zeroed (byte_count d + 1000)) HHn HWn Hreg Href
              ltac:(lia) ltac:(lia) ltac:(lia) ltac:(rewrite Hz; lia))
    as [(_ & packing1 & Hpack & Hl1 & Henc)|(Hgt & _)]; [|lia].
  set (n := overflow_count cur ref) in *.
  destruct (compress_general (Some refData) d no_buffer
              (zeroed (ZPNG_HEADER_OVERHEAD_BYTES
                       + ZSTD_compressBound rt (byte_count d)))
              dictionary (Z.of_nat n) packing1 Hs ltac:(lia)
              (Hmem _) ltac:(left; by rewrite Hmem)
              ltac:(by rewrite Pass1_video) ltac:(lia) ltac:(lia))
    as (result & Hres & Hsome & Hcomp).
  rewrite Hcomp. eexists. split; [reflexivity|].
  destruct result as [c|].
  - split; [done|]. intros _.
    change (non_null (Some refData) && (Z.of_nat n >=? 0))
      with (Z.of_nat n >=? 0).
    rewrite (proj2 (Z.geb_le _ _)) by lia.
    split; [apply magic_of_frame; unfold ZPNG_VIDEO_HEADER_MAGIC; lia|].
    destruct (Hres c eq_refl) as [Hdec _].
    rewrite Z.max_l in Hdec by lia.
    set (src := take (Z.to_nat (byte_count d + Z.of_nat n)) packing1) in *.
    assert (Hlsrc : length src = (H * W * k + n)%nat).
    { unfold src. rewrite length_take. lia. }
    apply (decompress_frame (Some refData) d ZPNG_VIDEO_HEADER_MAGIC 0 c _ src);
      try done.
    { by right. }
    { apply Hdec. lia. }
    rewrite Stage2_video by done.
    assert (Henc' : video_encoded (H * W * k) cur ref
                      (write_at 0 src (zeroed (byte_count d + 1000)))).
    { apply (video_encoded_agree (H * W * k) cur ref packing1);
        [lia|lia| |done].
      intros i Hi. fold n in Hi.
      rewrite lookup_write_at_0 by lia.
      unfold src. by rewrite lookup_take_lt by lia. }
    assert (Hlo : length (region (Buffer (decoded_frame d 0
                                            (zeroed (byte_count d)))))
                  = (H * W * k)%nat).
    { unfold region, decoded_frame, zeroed. simpl.
      rewrite length_replicate. lia. }
    destruct (wp_Next_inv
      (UnpackAndUnfilterVideo (R:=ZPNG_ImageData) k refData
         (write_at 0 src (zeroed (byte_count d + 1000)))
         (decoded_frame d 0 (zeroed (byte_count d)))) _
      (UnpackAndUnfilterVideo_wp k W H cur ref refData _
         (decoded_frame d 0 (zeroed (byte_count d))) _ HHn HWn Href Hbytes
         ltac:(lia) ltac:(lia) ltac:(lia) Hlo Henc'))
      as (mem & Hunpack & ->).
    done.
  - split; [|done]. intros Hn0. exfalso. apply Hsome; [lia|done].
Qed.

Lemma header_bytes_intra d :
  sizes_fit rt d ->
  header_bytes (header_of ZPNG_HEADER_MAGIC d)
  = [0xF8; 0xFB;
     WidthPixels d mod 256; WidthPixels d / 256;
     HeightPixels d mod 256; HeightPixels d / 256;
     Channels d; BytesPerChannel d].
Proof.
  intros (HW & HH & HC & HBpc & _).
  unfold header_bytes, header_of.
  cbn [Magic Width Height HChannels HBytesPerChannel].
  rewrite !u16_small by lia.
  rewrite !(u8_small (Channels d)), !(u8_small (BytesPerChannel d))
    by (unfold is_byte; lia).
  rewrite (u8_small (WidthPixels d / 256)), (u8_small (HeightPixels d / 256))
    by (unfold is_byte; split;
        [apply Z.div_pos; lia|apply Z.div_lt_upper_bound; lia]).
  reflexivity.
Qed.

Lemma intra_pass1 d pixels :
  valid_intra rt d pixels ->
  exists packing1,
    @Pass1_PackAndFilter (Z * ZPNG_Buffer * dictionary_slot) None d
      (pixel_bytes d) (zeroed (byte_count d + 1000)) = Next (0, packing1) /\
    length packing1 = Z.to_nat (byte_count d + 1000) /\
    forall refData packing',
      (forall i, (i < Z.to_nat (byte_count d))%nat ->
         packing' !! i = packing1 !! i) ->
      @Stage2_Unfilter ZPNG_ImageData refData
        (decoded_frame d 1 (zeroed (byte_count d))) (pixel_bytes d) packing'
      = Next pixels.
Proof.
  intros Hv.
  destruct (intra_filters_round_trip rt
              (R:=Z * ZPNG_Buffer * dictionary_slot) (R':=ZPNG_ImageData)
              d pixels Hv) as (packing1 & Hpack & Hl1 & Hunpack).
  destruct Hv as (Hs & HData & Hbytes & Hlen & Hpb & Hbayer).
  exists packing1. split; [|split; [done|]].
  - rewrite Pass1_intra by done. by rewrite Hpack.
  - intros refData packing' Hagree.
    rewrite Stage2_iframe by done. rewrite Stage2_intra by done.
    by apply Hunpack.
Qed.

(** X14.  An intra frame decodes under any reference: for a valid
    descriptor, the frame [ZPNG_Compress] returns without a compression
    context carries the intra magic, and [ZPNG_DecompressVideo] decodes
    it, whatever reference it is given, to the dimensions, the stride
    [WidthPixels * Channels], the pixels of the image and the intra
    flag 1. *)
Theorem intra_frame_under_any_reference d pixels dictionary refData :
  valid_intra rt d pixels ->
  (forall size, calloc_ok rt size = true) ->
  exists buffer,
    ZPNG_Compress rt d false dictionary = Some (buffer, dictionary) /\
    magic_of buffer = ZPNG_HEADER_MAGIC /\
    ZPNG_DecompressVideo rt (Some refData) buffer
    = Some (decoded_frame d 1 pixels).
Proof.
  intros Hv Hmem.
  destruct (intra_pass1 d pixels Hv) as (packing1 & Hpass & Hl1 & Hstage).
  destruct Hv as (Hs & HData & Hbytes & Hlen & Hpb & Hbayer).
  pose proof (byte_count_nonneg rt d Hs) as HB0.
  destruct (compress_general None d no_buffer
              (zeroed (ZPNG_HEADER_OVERHEAD_BYTES
                       + ZSTD_compressBound rt (byte_count d)))
              dictionary 0 packing1 Hs ltac:(lia)
              (Hmem _) ltac:(left; by rewrite Hmem)
              Hpass Hl1 ltac:(lia))
    as (result & Hres & Hsome & Hcomp).
  destruct result as [c|]; [|by destruct Hsome].
  destruct (Hres c eq_refl) as [Hdec _].
  unfold ZPNG_Compress. fold no_buffer. rewrite Hcomp.
  eexists. split; [reflexivity|].
  split; [apply magic_of_frame; unfold ZPNG_HEADER_MAGIC; lia|].
  apply (decompress_frame (Some refData) d ZPNG_HEADER_MAGIC 1 c _
           (take (Z.to_nat (byte_count d + Z.max 0 0)) packing1));
    try done.
  { by left. }
  { apply Hdec. lia. }
  apply Hstage. intros i Hi.
  rewrite lookup_write_at_0 by (rewrite length_take; lia).
  by rewrite lookup_take_lt by lia.
Qed.

(** X15.  The frame [ZPNG_Compress] returns for a valid descriptor,
    without a compression context, in memory: the eight header bytes [F8 FB], width, height (low byte
    first), channels, bytes per channel; the payload, no longer than
    [ZSTD_compressBound] of the image size, which decompresses to the
    first [byte_count] bytes the filter wrote; and what is left of the
    [8 + ZSTD_compressBound] bytes allocated.  [Bytes] counts the header
    and the payload. *)
Theorem compressed_frame_layout d pixels dictionary :
  valid_intra rt d pixels ->
  (forall size, calloc_ok rt size = true) ->
  exists packing payload rest,
    @Pass1_PackAndFilter (Z * ZPNG_Buffer * dictionary_slot) None d
      (pixel_bytes d) (zeroed (byte_count d + 1000)) = Next (0, packing) /\
    Z.of_nat (length payload) <= ZSTD_compressBound rt (byte_count d) /\
    (forall cap, byte_count d <= cap ->
       ZSTD_decompress rt cap payload
       = Some (take (Z.to_nat (byte_count d)) packing)) /\
    ZPNG_Compress rt d false dictionary
    = Some ({| Data := Some
                 ([0xF8; 0xFB;
                   WidthPixels d mod 256; WidthPixels d / 256;
                   HeightPixels d mod 256; HeightPixels d / 256;
                   Channels d; BytesPerChannel d]
                  ++ payload ++ rest);
               Bytes := 8 + Z.of_nat (length payload) |},
            dictionary) /\
    Z.of_nat (length payload) + Z.of_nat (length rest)
    = ZSTD_compressBound rt (byte_count d).
Proof.
  intros Hv Hmem.
  destruct (intra_pass1 d pixels Hv) as (packing1 & Hpass & Hl1 & _).
  destruct Hv as (Hs & HData & Hbytes & Hlen & Hpb & Hbayer).
  pose proof (byte_count_nonneg rt d Hs) as HB0.
  pose proof (ZSTD_compressBound_ge rt _ HB0) as Hbound.
  destruct (compress_general None d no_buffer
              (zeroed (ZPNG_HEADER_OVERHEAD_BYTES
                       + ZSTD_compressBound rt (byte_count d)))
              dictionary 0 packing1 Hs ltac:(lia)
              (Hmem _) ltac:(left; by rewrite Hmem)
              Hpass Hl1 ltac:(lia))
    as (result & Hres & Hsome & Hcomp).
  destruct result as [c|]; [|by destruct Hsome].
  destruct (Hres c eq_refl) as [Hdec Hfit].
  exists packing1, c. eexists.
  split; [done|]. split; [done|]. split.
  { intros cap Hcap. rewrite Hdec by lia. do 2 f_equal. lia. }
  unfold ZPNG_Compress. fold no_buffer. rewrite Hcomp.
  unfold frame. rewrite header_bytes_intra by done.
  split; [reflexivity|].
  unfold zeroed, ZPNG_HEADER_OVERHEAD_BYTES.
  rewrite length_drop, length_replicate. lia.
Qed.

(** X16.  The saturation fallback of a Bayer frame is transparent: for a
    valid Bayer descriptor (one channel, even width and height) coded
    against a reference of the same size with more than 1000 overflows,
    [ZPNG_CompressVideoToBuffer], without a compression context, returns
    a frame under the intra magic, which [ZPNG_DecompressVideo] decodes,
    with any reference or none, to the pixels of the frame with the
    intra flag 1. *)
Theorem bayer_fallback_round_trip refData d ref pixels dictionary :
  valid_intra rt d pixels ->
  8 < BytesPerChannel d ->
  region (Buffer refData) = ref ->
  length ref = length pixels ->
  (1000 < overflow_count pixels ref)%nat ->
  (forall size, calloc_ok rt size = true) ->
  exists buffer,
    ZPNG_CompressVideoToBuffer rt (Some refData) d no_buffer false dictionary
    = Some (0, buffer, dictionary) /\
    magic_of buffer = ZPNG_HEADER_MAGIC /\
    forall refData',
      ZPNG_DecompressVideo rt refData' buffer
      = Some (decoded_frame d 1 pixels).
Proof.
  intros Hv Hb Href Hlr Hcnt Hmem.
  pose proof Hv as (Hs & HData & Hbytes & Hlen & Hpb & Hbayer).
  destruct (Hbayer Hb) as (Hch & HWe & HHe).
  pose proof (byte_count_nonneg rt d Hs) as HB0.
  pose proof Hs as (HW & HH & HC & HBpc & HB & Hout).
  assert (Hreg : region (Buffer d) = pixels) by (unfold region; by rewrite HData).
  assert (Hpb1 : pixel_bytes d = 1).
  { unfold pixel_bytes. by rewrite (proj2 (Z.gtb_lt _ _) Hb). }
  apply Z.even_spec in HWe as [a' Ha']. apply Z.even_spec in HHe as [c' Hc'].
  set (a := Z.to_nat a'). set (c := Z.to_nat c').
  assert (HWa : WidthPixels d = Z.of_nat (2 * a)) by lia.
  assert (HHc : HeightPixels d = Z.of_nat (2 * c)) by lia.
  assert (HN : byte_count d = Z.of_nat (4 * (c * a))).
  { unfold byte_count. rewrite Hpb1, HWa, HHc. lia. }
  assert (Hz : length (zeroed (byte_count d + 1000))
               = Z.to_nat (byte_count d + 1000)).
  { unfold zeroed. by rewrite length_replicate. }
  destruct (PackAndFilterVideo_spec
              (R:=Z * ZPNG_Buffer * dictionary_slot) 1 (2 * a) (2 * c)
              pixels ref refData d
              (zeroed (byte_count d + 1000)) HHc HWa Hreg Href
              ltac:(lia) ltac:(lia) ltac:(lia) ltac:(rewrite Hz; lia))
    as [(Hle & _)|(_ & mem0 & Hl0 & Hpack)]; [lia|].
  destruct (wp_Next_inv
    (PackAndFilterXGGY (R:=Z * list Z) d mem0) _
    (PackAndFilterXGGY_wp a c pixels d mem0 _ HHc HWa Hreg
       ltac:(lia) ltac:(lia) ltac:(lia)))
    as (packing1 & Hx & Hl1 & Henc & _).
  rewrite Hx in Hpack. simpl in Hpack.
  destruct (compress_general (Some refData) d no_buffer
              (zeroed (ZPNG_HEADER_OVERHEAD_BYTES
                       + ZSTD_compressBound rt (byte_count d)))
              dictionary (-1) packing1 Hs ltac:(lia)
              (Hmem _) ltac:(left; by rewrite Hmem)
              ltac:(rewrite Pass1_video by lia; by rewrite Hpb1)
              ltac:(lia) ltac:(lia))
    as (result & Hres & Hsome & Hcomp).
  destruct result as [payload|]; [|by destruct Hsome].
  destruct (Hres payload eq_refl) as [Hdec _].
  rewrite Hcomp. eexists. split; [reflexivity|].
  change (non_null (Some refData) && (-1 >=? 0)) with false. cbv iota.
  split; [apply magic_of_frame; unfold ZPNG_HEADER_MAGIC; lia|].
  intros refData'.
  apply (decompress_frame refData' d ZPNG_HEADER_MAGIC 1 payload _
           (take (Z.to_nat (byte_count d + Z.max (-1) 0)) packing1));
    try done.
  { by left. }
  { apply Hdec. lia. }
  rewrite Stage2_iframe by done. rewrite Stage2_intra by lia.
  cbn [decoded_frame BytesPerChannel]. rewrite (proj2 (Z.gtb_lt _ _) Hb).
  assert (Hlo : length (region (Buffer (decoded_frame d 1
                                          (zeroed (byte_count d)))))
                = (4 * (c * a))%nat).
  { unfold region, decoded_frame, zeroed. simpl.
    rewrite length_replicate. lia. }
  set (src := take (Z.to_nat (byte_count d + Z.max (-1) 0)) packing1).
  assert (Hlsrc : length src = (4 * (c * a))%nat).
  { unfold src. rewrite length_take. lia. }
  assert (Henc' : xggy_encoded a c pixels
                    (write_at 0 src (zeroed (byte_count d + 1000)))).
  { apply (xggy_encoded_agree a c pixels packing1); [|done].
    intros i Hi. rewrite lookup_write_at_0 by lia.
    unfold src. by rewrite lookup_take_lt by lia. }
  destruct (wp_Next_inv
    (UnpackAndUnfilterXGGY (R:=ZPNG_ImageData)
       (write_at 0 src (zeroed (byte_count d + 1000)))
       (decoded_frame d 1 (zeroed (byte_count d)))) _
    (UnpackAndUnfilterXGGY_wp a c pixels _
       (decoded_frame d 1 (zeroed (byte_count d))) _ HHc HWa Hbytes
       ltac:(lia) ltac:(lia) Hlo Henc'))
    as (mem & Hunpack & ->).
  done.
Qed.


(** X18.  A caller's buffer that is too small: when [Bytes] is not zero
    and less than [8 + ZSTD_compressBound] of the image size, the call
    returns 0 before any filter runs and leaves the buffer descriptor
    and the dictionary slot as they were. *)
Theorem small_caller_buffer_rejected refData d bufferOutput context
    dictionary :
  sizes_fit rt d ->
  pixel_bytes d <= 8 ->
  calloc_ok rt (byte_count d + 1000) = true ->
  0 < Bytes bufferOutput
    < ZPNG_HEADER_OVERHEAD_BYTES + ZSTD_compressBound rt (byte_count d) ->
  ZPNG_CompressVideoToBuffer rt refData d bufferOutput context dictionary
  = Some (0, bufferOutput, dictionary).
Proof.
  intros Hs Hpb Hmem Hsmall.
  pose proof (byte_count_nonneg rt d Hs) as HB0.
  pose proof (ZSTD_compressBound_ge rt _ HB0) as Hbound.
  destruct Hs as (HW & HH & HC & HBpc & HB & Hout).
  unfold ZPNG_CompressVideoToBuffer, ZPNG_HEADER_OVERHEAD_BYTES in *.
  cbv zeta.
  rewrite (u32_small (WidthPixels d * HeightPixels d)) by nia.
  fold (byte_count d). set (B := byte_count d) in *.
  rewrite (u32_small B) by lia.
  rewrite (u32_small (B + 1000)) by lia.
  rewrite (u32_small (ZSTD_compressBound rt B)) by lia.
  rewrite (u32_small (8 + ZSTD_compressBound rt B)) by lia.
  rewrite (gtb_false (pixel_bytes d) 8) by done.
  rewrite Hmem. cbn [negb].
  rewrite (proj2 (Z.eqb_neq (Bytes bufferOutput) 0)) by lia.
  rewrite (proj2 (Z.ltb_lt _ _)) by lia.
  reflexivity.
Qed.

(** X19.  A caller's buffer of [ZPNG_MaximumBufferSize] bytes is always
    enough, where [ZSTD_compressBound] is monotone and the size does not
    wrap: [ZPNG_CompressToBuffer] writes the frame in place, header and
    payload at the start of the caller's memory, whose length does not
    change, sets [Bytes] to the length of the frame, which is at most the
    size of the buffer, and the frame decodes to the image.  No
    compression context is given. *)
Theorem maximum_buffer_accepted d pixels output dictionary :
  valid_intra rt d pixels ->
  (forall a b, 0 <= a <= b ->
     ZSTD_compressBound rt a <= ZSTD_compressBound rt b) ->
  ZPNG_HEADER_OVERHEAD_BYTES + ZSTD_compressBound rt (byte_count d + 1000)
    < 4294967296 ->
  Z.of_nat (length output) = ZPNG_MaximumBufferSize rt d ->
  (forall size, calloc_ok rt size = true) ->
  exists payload rest,
    let written := frame ZPNG_HEADER_MAGIC d payload rest in
    ZPNG_CompressToBuffer rt d
      {| Data := Some output; Bytes := ZPNG_MaximumBufferSize rt d |}
      false dictionary
    = Some (0, written, dictionary) /\
    length (region written) = length output /\
    Bytes written <= ZPNG_MaximumBufferSize rt d /\
    ZPNG_Decompress rt written = Some (decoded_frame d 1 pixels).
Proof.
  intros Hv Hmono Hwrap Hlo Hmem.
  destruct (intra_pass1 d pixels Hv) as (packing1 & Hpass & Hl1 & Hstage).
  destruct Hv as (Hs & HData & Hbytes & Hlen & Hpb & Hbayer).
  pose proof (byte_count_nonneg rt d Hs) as HB0.
  pose proof (ZSTD_compressBound_ge rt _ HB0) as Hbound.
  pose proof (Hmono (byte_count d) (byte_count d + 1000) ltac:(lia)) as Hm.
  assert (Hmax : ZPNG_MaximumBufferSize rt d
                 = 8 + ZSTD_compressBound rt (byte_count d + 1000)).
  { destruct Hs as (HW & HH & HC & HBpc & HB & Hout).
    unfold ZPNG_MaximumBufferSize, ZPNG_HEADER_OVERHEAD_BYTES in *. cbv zeta.
    rewrite (u32_small (WidthPixels d * HeightPixels d)) by nia.
    fold (byte_count d).
    rewrite (u32_small (byte_count d + 1000)) by lia.
    rewrite (u32_small (ZSTD_compressBound rt _)) by lia.
    by rewrite u32_small by lia. }
  unfold ZPNG_HEADER_OVERHEAD_BYTES in *.
  destruct (compress_general None d
              {| Data := Some output; Bytes := ZPNG_MaximumBufferSize rt d |}
              output dictionary 0 packing1 Hs ltac:(lia)
              (Hmem _)
              ltac:(right; cbn [Bytes Data];
                    unfold ZPNG_HEADER_OVERHEAD_BYTES; repeat split;
                    [lia|lia|lia])
              Hpass Hl1 ltac:(lia))
    as (result & Hres & Hsome & Hcomp).
  destruct result as [c|]; [|by destruct Hsome].
  destruct (Hres c eq_refl) as [Hdec Hfit].
  exists c. eexists. cbv zeta.
  unfold ZPNG_CompressToBuffer. rewrite Hcomp.
  split; [reflexivity|].
  split.
  { unfold region, frame. cbn [Data].
    rewrite !length_app, length_drop. simpl. lia. }
  split; [unfold frame, ZPNG_HEADER_OVERHEAD_BYTES; cbn [Bytes]; lia|].
  apply (decompress_frame None d ZPNG_HEADER_MAGIC 1 c _
           (take (Z.to_nat (byte_count d + Z.max 0 0)) packing1));
    try done.
  { by left. }
  { apply Hdec. lia. }
  apply Hstage. intros i Hi.
  rewrite lookup_write_at_0 by (rewrite length_take; lia).
  by rewrite lookup_take_lt by lia.
Qed.

Lemma u32_range x : 0 <= u32 x < 4294967296.
Proof. unfold u32. apply Z.mod_pos_bound. lia. Qed.

Lemma u32_le x : 0 <= x -> u32 x <= x.
Proof. intros H. unfold u32. apply Z.mod_le; lia. Qed.

(** X20.  What [ZPNG_CompressVideoToBuffer] hands back, on every path:
    the status is 0, on success as on failure; without a context the
    dictionary slot is as it was; and the buffer descriptor is either
    untouched or describes a frame that starts with the intra magic, or
    with the video magic if a reference was given, and whose [Bytes] are
    within its memory. *)
Theorem compress_status_and_buffer refData d bufferOutput context dictionary
    status buffer dictionary' :
  ZPNG_CompressVideoToBuffer rt refData d bufferOutput context dictionary
  = Some (status, buffer, dictionary') ->
  status = 0 /\
  (context = false -> dictionary' = dictionary) /\
  (buffer = bufferOutput \/
   exists data,
     Data buffer = Some data /\
     0 <= Bytes buffer <= Z.of_nat (length data) /\
     (magic_of buffer = ZPNG_HEADER_MAGIC \/
      refData <> None /\ magic_of buffer = ZPNG_VIDEO_HEADER_MAGIC)).
Proof.
  unfold ZPNG_CompressVideoToBuffer. cbv zeta.
  set (B := u32 (pixel_bytes d * u32 (WidthPixels d * HeightPixels d))).
  set (M := u32 (ZSTD_compressBound rt B)).
  destruct (pixel_bytes d >? 8); [intros [= <- <- <-]; auto|].
  destruct (calloc_ok rt (u32 (B + 1000))); [|intros [= <- <- <-]; auto].
  cbn [negb].
  set (sel := if Bytes bufferOutput =? 0 then _ else _).
  assert (Hsel : (exists output, sel = Next output) \/
                 sel = Exit (0, bufferOutput, dictionary)).
  { unfold sel. repeat case_match; eauto. }
  destruct Hsel as [[output ->]| ->]; [|intros [= <- <- <-]; auto].
  unfold bind at 1.
  destruct (Pass1_PackAndFilter refData d (pixel_bytes d) (zeroed (u32 (B + 1000))))
    as [[n packing]|r|] eqn:Hpass; [| |done].
  2:{ pose proof (Pass1_never_exits
                    (R:=Z * ZPNG_Buffer * dictionary_slot) refData d
                    (pixel_bytes d) (zeroed (u32 (B + 1000)))) as Hne.
      by rewrite Hpass in Hne. }
  unfold bind at 1. cbv beta iota.
  destruct (Z.of_nat (length packing) <? _); [done|].
  destruct (Z.of_nat (length output) <? _) eqn:Hlo; [done|].
  apply Z.ltb_ge in Hlo.
  set (src := take _ packing).
  set (coder := if context then _ else _).
  assert (Hcoder : coder = Fault \/
    exists result dict',
      coder = Next (result, dict') /\
      (context = false -> dict' = dictionary) /\
      forall c, result = Some c -> Z.of_nat (length c) <= M).
  { unfold coder. destruct context.
    - destruct dictionary as [slot|]; [|by left].
      destruct slot as [dict|];
        [|destruct (ZDICT_train rt packing (B / HeightPixels d / 8)
                      (u32 (HeightPixels d * 8))) as [dict|];
          [|by left]];
        right; (eexists _, _; split; [reflexivity|]; split; [done|]);
        intros c Hc; by eapply ZSTD_compress_usingCDict_fits.
    - right. eexists _, _. split; [reflexivity|]. split; [done|].
      intros c Hc. by eapply ZSTD_compress_fits. }
  destruct Hcoder as [-> |(result & dict' & -> & Hdict & Hfit)]; [done|].
  unfold bind. destruct result as [c|]; [|intros [= <- <- <-]; auto].
  specialize (Hfit c eq_refl).
  pose proof (u32_range (ZSTD_compressBound rt B)) as HM. fold M in HM.
  unfold ZPNG_HEADER_OVERHEAD_BYTES in *.
  intros [= <- <- <-]. split; [done|]. split; [done|]. right.
  eexists. split; [reflexivity|]. split.
  - cbn [Bytes]. rewrite !length_write_at by (simpl; rewrite ?length_write_at; lia).
    rewrite (u32_small (Z.of_nat (length c))) by lia.
    pose proof (u32_range (8 + Z.of_nat (length c))).
    pose proof (u32_le (8 + Z.of_nat (length c)) ltac:(lia)). lia.
  - unfold magic_of, region, byte_at. cbn [Data].
    rewrite !lookup_write_at_0 by (simpl; lia).
    cbn [header_bytes Magic lookup list_lookup default from_option].
    destruct refData as [ref|]; cbn [non_null andb].
    + destruct (n >=? 0).
      * right. split; [done|].
        apply le16_bytes. unfold ZPNG_VIDEO_HEADER_MAGIC. lia.
      * left. apply le16_bytes. unfold ZPNG_HEADER_MAGIC. lia.
    + left. apply le16_bytes. unfold ZPNG_HEADER_MAGIC. lia.
Qed.

(** X21.  With a reference, [ZPNG_DecompressVideo] rejects a null data
    pointer, a buffer shorter than the header, and a magic field that is
    neither the intra nor the video magic: it returns the descriptor as
    initialized, with a null data pointer and zero size. *)
Theorem decompress_video_rejects refData buffer :
  (forall data, Data buffer = Some data ->
     Bytes buffer <= Z.of_nat (length data)) ->
  Data buffer = None \/
  Bytes buffer < ZPNG_HEADER_OVERHEAD_BYTES \/
  (magic_of buffer <> ZPNG_HEADER_MAGIC /\
   magic_of buffer <> ZPNG_VIDEO_HEADER_MAGIC) ->
  ZPNG_DecompressVideo rt (Some refData) buffer = Some rejected.
Proof.
  intros Hwf Hbad. unfold ZPNG_DecompressVideo.
  unfold magic_of, region in Hbad.
  destruct (Data buffer) as [data|] eqn:HD; [|done].
  specialize (Hwf data eq_refl).
  destruct (Bytes buffer <? ZPNG_HEADER_OVERHEAD_BYTES) eqn:Hlt; [done|].
  apply Z.ltb_ge in Hlt. unfold ZPNG_HEADER_OVERHEAD_BYTES in *.
  destruct Hbad as [Hbad|[Hbad|[Hi Hv]]]; [done|lia|].
  destruct data as [|b0 [|b1 data]]; simpl in Hwf; try lia.
  unfold byte_at in Hi, Hv. simpl in Hi, Hv.
  unfold load16, load. cbn [lookup list_lookup bind Nat.add].
  apply Z.eqb_neq in Hi, Hv. rewrite Hi, Hv. done.
Qed.

(** X22.  A frame that does not decode: when the header is accepted
    and then an allocation fails or the entropy decoder reports an error,
    the descriptor returned has a null data pointer and zero [Bytes] but
    keeps the width, height, channels, bytes per channel and stride read
    from the header. *)
Theorem failed_decode_keeps_header refData d magic isIFrame payload rest :
  sizes_fit rt d ->
  (magic = ZPNG_HEADER_MAGIC /\ isIFrame = 1) \/
  (magic = ZPNG_VIDEO_HEADER_MAGIC /\ isIFrame = 0 /\ refData <> None) ->
  calloc_ok rt (byte_count d + 1000) = false \/
  ZSTD_decompress rt (byte_count d + 1000) payload = None \/
  calloc_ok rt (byte_count d) = false ->
  ZPNG_DecompressVideo rt refData (frame magic d payload rest)
  = Some {| Buffer := {| Data := None; Bytes := 0 |};
            BytesPerChannel := BytesPerChannel d;
            Channels := Channels d;
            WidthPixels := WidthPixels d;
            HeightPixels := HeightPixels d;
            StrideBytes := u32 (WidthPixels d * Channels d);
            IsIFrame := isIFrame |}.
Proof.
  intros Hs Hmagic Hfail.
  pose proof (byte_count_nonneg rt d Hs) as HB0.
  pose proof (pixel_bytes_nonneg rt d Hs) as Hpb0.
  destruct Hs as (HW & HH & HC & HBpc & HB & Hout).
  unfold ZPNG_DecompressVideo, frame, ZPNG_HEADER_OVERHEAD_BYTES in *.
  cbn [Data Bytes]. rewrite (ltb_false (8 + Z.of_nat (length payload)) 8) by lia.
  unfold header_of, header_bytes. cbn [Magic Width Height HChannels HBytesPerChannel].
  unfold load16, load. cbn [lookup list_lookup app bind Nat.add].
  rewrite !u16_small, !(u8_small (Channels d)), !(u8_small (BytesPerChannel d))
    by (unfold is_byte; lia).
  rewrite !le16_bytes
    by (destruct Hmagic as [[-> _]|[-> _]];
        unfold ZPNG_HEADER_MAGIC, ZPNG_VIDEO_HEADER_MAGIC; lia).
  assert ((match refData with
           | Some _ =>
               if negb (magic =? ZPNG_HEADER_MAGIC)
               then if magic =? ZPNG_VIDEO_HEADER_MAGIC then Next 0
                    else Exit
                           {| Buffer := {| Data := None; Bytes := 0 |};
                              BytesPerChannel := 0; Channels := 0;
                              WidthPixels := 0; HeightPixels := 0;
                              StrideBytes := 0; IsIFrame := 1 |}
               else Next 1
           | None =>
               if negb (magic =? ZPNG_HEADER_MAGIC)
               then Exit
                      {| Buffer := {| Data := None; Bytes := 0 |};
                         BytesPerChannel := 0; Channels := 0;
                         WidthPixels := 0; HeightPixels := 0;
                         StrideBytes := 0; IsIFrame := 1 |}
               else Next 1
           end : outcome Z ZPNG_ImageData) = Next isIFrame) as ->.
  { destruct Hmagic as [[-> ->]|(-> & -> & Href)].
    - by destruct refData.
    - by destruct refData. }
  cbn [bind]. cbv zeta. unfold pixel_bytes.
  cbn [BytesPerChannel Channels WidthPixels HeightPixels].
  fold (pixel_bytes d).
  rewrite (u32_small (WidthPixels d * HeightPixels d)) by nia.
  fold (byte_count d). set (B := byte_count d) in *.
  rewrite (u32_small B) by lia. rewrite (u32_small (B + 1000)) by lia.
  destruct (calloc_ok rt (B + 1000)) eqn:Hm1; [|done]. cbn [negb].
  rewrite ltb_false by (simpl; rewrite !length_app; lia).
  replace (take _ (drop _ _)) with payload.
  2:{ replace (Z.to_nat (8 + Z.of_nat (length payload) - 8))
        with (length payload) by lia.
      simpl. by rewrite drop_0, take_app_length. }
  destruct (ZSTD_decompress rt (B + 1000) payload) as [enc|] eqn:Hdec; [|done].
  destruct Hfail as [?|[?|Hm2]]; [done|done|]. by rewrite Hm2.
Qed.

(** X23.  What [ZPNG_DecompressVideo] hands back: the intra flag is 1,
    or it is 0 and then a reference was given and the buffer starts with
    the video magic, so that [ZPNG_Decompress] never returns a frame
    marked as inter; a descriptor with a null data pointer has zero
    [Bytes]; and one with data has the [Bytes] and the stride computed
    from its dimensions. *)
Theorem decompress_result refData buffer d' :
  ZPNG_DecompressVideo rt refData buffer = Some d' ->
  (IsIFrame d' = 1 \/
   IsIFrame d' = 0 /\ refData <> None /\
   magic_of buffer = ZPNG_VIDEO_HEADER_MAGIC) /\
  (Data (Buffer d') = None -> Bytes (Buffer d') = 0) /\
  (Data (Buffer d') <> None ->
   Bytes (Buffer d')
   = u32 (pixel_bytes d' * u32 (WidthPixels d' * HeightPixels d')) /\
   StrideBytes d' = u32 (WidthPixels d' * Channels d')).
Proof.
  unfold ZPNG_DecompressVideo. cbv zeta.
  set (init := {| Buffer := {| Data := None; Bytes := 0 |};
                  BytesPerChannel := 0; Channels := 0; WidthPixels := 0;
                  HeightPixels := 0; StrideBytes := 0; IsIFrame := 1 |}).
  assert (Hinit : forall d', Some init = Some d' ->
    (IsIFrame d' = 1 \/
     IsIFrame d' = 0 /\ refData <> None /\
     magic_of buffer = ZPNG_VIDEO_HEADER_MAGIC) /\
    (Data (Buffer d') = None -> Bytes (Buffer d') = 0) /\
    (Data (Buffer d') <> None ->
     Bytes (Buffer d')
     = u32 (pixel_bytes d' * u32 (WidthPixels d' * HeightPixels d')) /\
     StrideBytes d' = u32 (WidthPixels d' * Channels d'))).
  { intros ? [= <-]. simpl. auto. }
  destruct (Data buffer) as [data|] eqn:HD; [|apply Hinit].
  destruct (Bytes buffer <? ZPNG_HEADER_OVERHEAD_BYTES); [apply Hinit|].
  unfold load16, load.
  destruct (data !! 0%nat) as [b0|] eqn:H0; [|done].
  destruct (data !! (0 + 1)%nat) as [b1|] eqn:H1; [|done].
  cbn [bind].
  assert (Hmagic : magic_of buffer = b0 + 256 * b1).
  { unfold magic_of, region, byte_at. rewrite HD.
    simpl in H1. by rewrite H0, H1. }
  set (sel := match refData with Some _ => _ | None => _ end).
  assert (Hsel : sel = Exit init \/ sel = Next 1 \/
                 (sel = Next 0 /\ refData <> None /\
                  magic_of buffer = ZPNG_VIDEO_HEADER_MAGIC)).
  { unfold sel. destruct refData.
    - destruct (b0 + 256 * b1 =? ZPNG_HEADER_MAGIC); cbn [negb]; [auto|].
      destruct (b0 + 256 * b1 =? ZPNG_VIDEO_HEADER_MAGIC) eqn:E; [|auto].
      apply Z.eqb_eq in E. right. right. rewrite Hmagic. auto.
    - destruct (b0 + 256 * b1 =? ZPNG_HEADER_MAGIC); cbn [negb]; auto. }
  clearbody sel.
  destruct Hsel as [-> | Hsel]; [apply Hinit|].
  assert (exists isI, sel = Next isI /\
            (isI = 1 \/ isI = 0 /\ refData <> None /\
             magic_of buffer = ZPNG_VIDEO_HEADER_MAGIC))
    as (isI & -> & HisI).
  { destruct Hsel as [->|(-> & ? & ?)]; [exists 1|exists 0]; auto. }
  cbn [bind].
  destruct (data !! 2%nat) as [w0|]; [|done].
  destruct (data !! (2 + 1)%nat) as [w1|]; [|done].
  destruct (data !! 4%nat) as [h0|]; [|done].
  destruct (data !! (4 + 1)%nat) as [h1|]; [|done].
  destruct (data !! 6%nat) as [ch|]; [|done].
  destruct (data !! 7%nat) as [bpc|]; [|done].
  cbn [bind].
  set (img := {| Buffer := {| Data := None; Bytes := 0 |};
                 BytesPerChannel := bpc; Channels := ch;
                 WidthPixels := w0 + 256 * w1; HeightPixels := h0 + 256 * h1;
                 StrideBytes := u32 ((w0 + 256 * w1) * ch);
                 IsIFrame := isI |}).
  assert (Himg : forall d', Some img = Some d' ->
    (IsIFrame d' = 1 \/
     IsIFrame d' = 0 /\ refData <> None /\
     magic_of buffer = ZPNG_VIDEO_HEADER_MAGIC) /\
    (Data (Buffer d') = None -> Bytes (Buffer d') = 0) /\
    (Data (Buffer d') <> None ->
     Bytes (Buffer d')
     = u32 (pixel_bytes d' * u32 (WidthPixels d' * HeightPixels d')) /\
     StrideBytes d' = u32 (WidthPixels d' * Channels d'))).
  { intros ? [= <-]. simpl. split; [done|]. split; [done|]. by intros []. }
  destruct (calloc_ok rt _); [|apply Himg]. cbn [negb].
  destruct (Z.of_nat (length data) <? Bytes buffer); [done|].
  destruct (ZSTD_decompress rt _ _) as [unpacked|]; [|apply Himg].
  destruct (calloc_ok rt _); [|apply Himg]. cbn [negb].
  match goal with |- run (bind ?s _) = _ -> _ =>
    pose proof (Stage2_never_exits (R:=ZPNG_ImageData) refData
                  (with_Data img
                     (Some (zeroed (u32 (pixel_bytes img
                        * u32 (WidthPixels img * HeightPixels img)))))
                     (u32 (pixel_bytes img
                        * u32 (WidthPixels img * HeightPixels img))))
                  (pixel_bytes img)
                  (write_at 0 unpacked
                     (zeroed (u32 (u32 (pixel_bytes img
                        * u32 (WidthPixels img * HeightPixels img)) + 1000)))))
      as Hne;
    destruct s as [mem|r|] eqn:Hst
  end.
  - simpl. intros [= <-]. simpl. split; [done|]. split; [done|]. done.
  - destruct Hne.
  - done.
Qed.

(** X24.  [ZPNG_Free] leaves a buffer with a null data pointer, and with
    zero [Bytes] if there was memory to free; freeing it again changes
    nothing, and [ZPNG_DecompressVideo] rejects it. *)
Theorem freed_buffer_is_rejected refData b b' :
  ZPNG_Free (Some b) = Some b' ->
  Data b' = None /\
  (Data b <> None -> Bytes b' = 0) /\
  ZPNG_Free (Some b') = Some b' /\
  ZPNG_DecompressVideo rt refData b' = Some rejected.
Proof.
  unfold ZPNG_Free, ZPNG_DecompressVideo.
  destruct (Data b) as [data|] eqn:HD; simpl.
  - intros [= <-]. simpl. done.
  - intros [= <-]. rewrite HD. simpl. done.
Qed.

Lemma Stage2_other {R} d pixelBytes packing :
  BytesPerChannel d <= 8 ->
  ~ (1 <= pixelBytes <= 8) ->
  @Stage2_Unfilter R None d pixelBytes packing = Next (region (Buffer d)).
Proof.
  intros Hb Hpb. unfold Stage2_Unfilter. cbv zeta.
  rewrite (gtb_false _ _ Hb).
  destruct pixelBytes as [|p|p]; try done.
  do 4 (try destruct p as [p|p|]; try done; try lia).
Qed.

(** X25.  The intra decoder stays within its buffers.  For every buffer
    of bytes whose [Bytes] are there, whatever the payload holds and
    whatever the entropy decoder makes of it: if the header does not
    carry the Bayer sentinel and the size it declares, with the 1000
    bytes of slack, does not wrap around 32 bits, then [ZPNG_Decompress]
    returns, and the data of the descriptor it returns, if there is any,
    has the length [Bytes] says. *)
Theorem decompress_stays_in_bounds data bytes :
  Forall is_byte data ->
  ZPNG_HEADER_OVERHEAD_BYTES <= bytes <= Z.of_nat (length data) ->
  let width := byte_at data 2 + 256 * byte_at data 3 in
  let height := byte_at data 4 + 256 * byte_at data 5 in
  let channels := byte_at data 6 in
  let bytesPerChannel := byte_at data 7 in
  bytesPerChannel <= 8 ->
  bytesPerChannel * channels * (width * height) + 1000 < 4294967296 ->
  exists d',
    ZPNG_Decompress rt {| Data := Some data; Bytes := bytes |} = Some d' /\
    forall mem, Data (Buffer d') = Some mem ->
      Z.of_nat (length mem) = Bytes (Buffer d').
Proof.
  intros Hbytes Hlen width height channels bytesPerChannel Hbpc Hwrap.
  unfold ZPNG_HEADER_OVERHEAD_BYTES in *.
  assert (Hb : forall i, is_byte (byte_at data i))
    by (intros i; by apply byte_at_is_byte).
  pose proof (Hb 2%nat) as H2. pose proof (Hb 3%nat) as H3.
  pose proof (Hb 4%nat) as H4. pose proof (Hb 5%nat) as H5.
  pose proof (Hb 6%nat) as H6. pose proof (Hb 7%nat) as H7.
  unfold is_byte in *.
  fold channels in H6. fold bytesPerChannel in H7.
  assert (0 <= width < 65536) as HW by (unfold width; lia).
  assert (0 <= height < 65536) as HH by (unfold height; lia).
  unfold ZPNG_Decompress, ZPNG_DecompressVideo, ZPNG_HEADER_OVERHEAD_BYTES.
  cbn [Data Bytes].
  rewrite (ltb_false bytes 8) by lia.
  unfold load16, load.
  rewrite !(byte_at_lookup data) by lia. cbn [bind Nat.add].
  destruct (negb _); [by eexists|]. cbn [bind].
  fold width height channels bytesPerChannel. cbv zeta.
  unfold pixel_bytes. cbn [BytesPerChannel Channels WidthPixels HeightPixels].
  rewrite (gtb_false bytesPerChannel 8) by done.
  set (pb := bytesPerChannel * channels) in *.
  assert (0 <= pb) as Hpb0 by (unfold pb; nia).
  assert (0 <= width * height) as Hwh by nia.
  assert (0 <= pb * (width * height)) as HB0 by nia.
  assert (pb <= pb * (width * height) \/ width * height = 0) as Hpbs by nia.
  rewrite (u32_small pb) by nia.
  rewrite (u32_small (width * height)) by nia.
  set (B := pb * (width * height)) in *.
  rewrite (u32_small B) by lia. rewrite (u32_small (B + 1000)) by lia.
  destruct (calloc_ok rt (B + 1000)); [|by eexists]. cbn [negb].
  rewrite ltb_false by lia.
  destruct (ZSTD_decompress rt (B + 1000) _) as [unpacked|] eqn:Hdec;
    [|by eexists].
  apply ZSTD_decompress_fits in Hdec.
  destruct (calloc_ok rt B); [|by eexists]. cbn [negb].
  set (img := with_Data _ (Some (zeroed B)) B).
  set (packing := write_at 0 unpacked (zeroed (B + 1000))).
  assert (Hlp : length packing = Z.to_nat (B + 1000)).
  { unfold packing. rewrite length_write_at; unfold zeroed;
      rewrite length_replicate; lia. }
  assert (Hlo : length (region (Buffer img)) = Z.to_nat B).
  { unfold img, region, with_Data, zeroed. simpl. by rewrite length_replicate. }
  assert (exists mem,
    @Stage2_Unfilter ZPNG_ImageData None img pb packing = Next mem /\
    length mem = Z.to_nat B) as (mem & -> & Hlm).
  { destruct (decide (1 <= pb <= 8)) as [Hpb|Hpb].
    - rewrite Stage2_intra by done.
      change (BytesPerChannel img) with bytesPerChannel.
      rewrite (gtb_false bytesPerChannel 8) by done.
      assert (Z.to_nat B
              = (Z.to_nat pb * (Z.to_nat height * Z.to_nat width))%nat)
        as HN by (unfold B; nia).
      destruct (wp_Next_inv
        (UnpackAndUnfilter (R:=ZPNG_ImageData) (Z.to_nat pb) packing img) _
        (UnpackAndUnfilter_safe (Z.to_nat pb) (Z.to_nat width)
           (Z.to_nat height) packing img _
           ltac:(simpl; lia) ltac:(simpl; lia) ltac:(lia) ltac:(lia)
           ltac:(lia)))
        as (mem & E & Hl).
      exists mem. split; [done|lia].
    - rewrite Stage2_other by done. eexists. split; [reflexivity|done]. }
  cbn [bind run]. eexists. split; [reflexivity|].
  unfold with_Data. cbn [Buffer Data Bytes]. intros ? [= <-]. lia.
Qed.

(** X26.  What the codec reads of its descriptors.  The encoder reads
    the buffer, the dimensions, the channels and the bytes per channel of
    the image, and of the reference nothing but the buffer: the stride
    and the intra flag of the image are ignored, and the shape of the
    reference is not compared with that of the image.  The decoder also
    reads nothing of the reference but its buffer. *)
Theorem codec_reads_buffers_and_shape refData refData' d d' bufferOutput
    context dictionary buffer :
  option_map Buffer refData' = option_map Buffer refData ->
  Buffer d' = Buffer d ->
  BytesPerChannel d' = BytesPerChannel d ->
  Channels d' = Channels d ->
  WidthPixels d' = WidthPixels d ->
  HeightPixels d' = HeightPixels d ->
  ZPNG_CompressVideoToBuffer rt refData' d' bufferOutput context dictionary
  = ZPNG_CompressVideoToBuffer rt refData d bufferOutput context dictionary /\
  ZPNG_DecompressVideo rt refData' buffer
  = ZPNG_DecompressVideo rt refData buffer.
Proof.
  intros Href HB Hbpc Hc Hw Hh.
  destruct d, d'. simpl in HB, Hbpc, Hc, Hw, Hh. subst.
  destruct refData as [[]|], refData' as [[]|]; simpl in Href;
    try discriminate; [|done].
  injection Href as ->. split; reflexivity.
Qed.

End Properties.

(** ** The further properties on concrete frames *)

Lemma ZSTD_COMPRESSBOUND_mono a b :
  (0 <= a <= b)%Z -> (ZSTD_COMPRESSBOUND a <= ZSTD_COMPRESSBOUND b)%Z.
Proof.
  intros Hab. unfold ZSTD_COMPRESSBOUND.
  rewrite !Z.shiftr_div_pow2 by lia.
  change (2 ^ 8)%Z with 256%Z. change (2 ^ 11)%Z with 2048%Z.
  destruct (a <? 131072)%Z eqn:Ea, (b <? 131072)%Z eqn:Eb;
    rewrite ?Z.ltb_lt, ?Z.ltb_ge in *; Z.div_mod_to_equations; lia.
Qed.

Lemma valid_intra_gray_pixel : valid_intra stored_runtime gray_pixel [0x42]%Z.
Proof.
  unfold valid_intra, sizes_fit. repeat split; try (vm_compute; congruence);
    try match goal with
        | H : (8 < _)%Z |- _ => vm_compute in H; discriminate
        end.
  repeat constructor; unfold is_byte; lia.
Qed.

Lemma valid_intra_rgb_row :
  valid_intra stored_runtime rgb_row [10; 20; 30; 15; 24; 29]%Z.
Proof.
  unfold valid_intra, sizes_fit. repeat split; try (vm_compute; congruence);
    try match goal with
        | H : (8 < _)%Z |- _ => vm_compute in H; discriminate
        end.
  repeat constructor; unfold is_byte; lia.
Qed.

Lemma valid_intra_flat_bayer :
  valid_intra stored_runtime (flat 34 32 1 9 1088 200) (replicate 1088 200%Z).
Proof.
  unfold valid_intra, sizes_fit. repeat split; try (vm_compute; congruence).
  apply Forall_replicate. unfold is_byte. lia.
Qed.

(** A stream of 2001 escape bytes for a frame of 1001 bytes. *)
Lemma UnpackAndUnfilterVideo_escape_overrun_witness :
  @UnpackAndUnfilterVideo unit 1 (flat 1001 1 1 1 1001 0)
    (replicate 2001 0x80%Z) (image 1001 1 1 1 (zeroed 1001)) = Fault.
Proof.
  apply (UnpackAndUnfilterVideo_escape_overrun unit 1 1001 1).
  - reflexivity.
  - reflexivity.
  - vm_compute. reflexivity.
  - vm_compute. reflexivity.
  - vm_compute. lia.
Defined.

(** A 2 by 2 gray frame with one overflow. *)
Lemma video_round_trip_witness :
  let refData := image 2 2 1 1 [0; 3; 0; 7]%Z in
  let d := image 2 2 1 1 [200; 5; 0; 7]%Z in
  exists buffer,
    ZPNG_CompressVideoToBuffer stored_runtime (Some refData) d no_buffer
      false None
    = Some (0%Z, buffer, None) /\
    (overflow_count [200; 5; 0; 7]%Z [0; 3; 0; 7]%Z = 0 ->
     Data buffer <> None) /\
    (Data buffer <> None ->
     magic_of buffer = ZPNG_VIDEO_HEADER_MAGIC /\
     ZPNG_DecompressVideo stored_runtime (Some refData) buffer
     = Some (decoded_frame d 0 [200; 5; 0; 7]%Z)).
Proof.
  intros refData d.
  apply (video_round_trip stored_runtime refData d [0; 3; 0; 7]%Z
           [200; 5; 0; 7]%Z None).
  - unfold valid_video, sizes_fit.
    repeat split; try (vm_compute; congruence).
    repeat constructor; unfold is_byte; lia.
  - vm_compute. lia.
  - reflexivity.
Defined.

(** The RGB row, decoded with the gray pixel as reference. *)
Lemma intra_frame_under_any_reference_witness :
  exists buffer,
    ZPNG_Compress stored_runtime rgb_row false None
    = Some (buffer, None) /\
    magic_of buffer = ZPNG_HEADER_MAGIC /\
    ZPNG_DecompressVideo stored_runtime (Some gray_pixel) buffer
    = Some (decoded_frame rgb_row 1 [10; 20; 30; 15; 24; 29]%Z).
Proof.
  apply (intra_frame_under_any_reference stored_runtime rgb_row
           [10; 20; 30; 15; 24; 29]%Z None gray_pixel).
  - exact valid_intra_rgb_row.
  - reflexivity.
Defined.

(** The frame of the RGB row. *)
Lemma compressed_frame_layout_witness :
  let d := rgb_row in
  exists packing payload rest,
    @Pass1_PackAndFilter (Z * ZPNG_Buffer * dictionary_slot) None d
      (pixel_bytes d) (zeroed (byte_count d + 1000)) = Next (0%Z, packing) /\
    (Z.of_nat (length payload)
     <= ZSTD_compressBound stored_runtime (byte_count d))%Z /\
    (forall cap, (byte_count d <= cap)%Z ->
       ZSTD_decompress stored_runtime cap payload
       = Some (take (Z.to_nat (byte_count d)) packing)) /\
    ZPNG_Compress stored_runtime d false None
    = Some ({| Data := Some
                 ([0xF8; 0xFB;
                   WidthPixels d mod 256; WidthPixels d / 256;
                   HeightPixels d mod 256; HeightPixels d / 256;
                   Channels d; BytesPerChannel d]%Z
                  ++ payload ++ rest);
               Bytes := (8 + Z.of_nat (length payload))%Z |},
            None) /\
    (Z.of_nat (length payload) + Z.of_nat (length rest)
     = ZSTD_compressBound stored_runtime (byte_count d))%Z.
Proof.
  intros d.
  apply (compressed_frame_layout stored_runtime d
           [10; 20; 30; 15; 24; 29]%Z None).
  - exact valid_intra_rgb_row.
  - reflexivity.
Defined.

(** A Bayer mosaic of 34 by 32 bytes of value 200 against one of value
    0: 1088 overflows. *)
Lemma bayer_fallback_round_trip_witness :
  let refData := flat 34 32 1 9 1088 0 in
  let d := flat 34 32 1 9 1088 200 in
  exists buffer,
    ZPNG_CompressVideoToBuffer stored_runtime (Some refData) d no_buffer
      false None
    = Some (0%Z, buffer, None) /\
    magic_of buffer = ZPNG_HEADER_MAGIC /\
    forall refData',
      ZPNG_DecompressVideo stored_runtime refData' buffer
      = Some (decoded_frame d 1 (replicate 1088 200%Z)).
Proof.
  intros refData d.
  apply (bayer_fallback_round_trip stored_runtime refData d
           (replicate 1088 0%Z) (replicate 1088 200%Z) None).
  - exact valid_intra_flat_bayer.
  - vm_compute. reflexivity.
  - reflexivity.
  - reflexivity.
  - vm_compute. lia.
  - reflexivity.
Defined.


(** The gray pixel into a buffer of 50 bytes; 72 are asked for. *)
Lemma small_caller_buffer_rejected_witness :
  let bufferOutput := {| Data := Some (zeroed 50); Bytes := 50 |} in
  ZPNG_CompressVideoToBuffer stored_runtime None gray_pixel bufferOutput
    false None
  = Some (0%Z, bufferOutput, None).
Proof.
  intros bufferOutput.
  apply (small_caller_buffer_rejected stored_runtime None gray_pixel
           bufferOutput false None).
  - unfold sizes_fit. repeat split; vm_compute; congruence.
  - vm_compute. congruence.
  - reflexivity.
  - vm_compute. split; reflexivity.
Defined.

(** The gray pixel into a buffer of [ZPNG_MaximumBufferSize], 1075
    bytes. *)
Lemma maximum_buffer_accepted_witness :
  let d := gray_pixel in
  let output := replicate 1075 7%Z in
  exists payload rest,
    let written := frame ZPNG_HEADER_MAGIC d payload rest in
    ZPNG_CompressToBuffer stored_runtime d
      {| Data := Some output; Bytes := ZPNG_MaximumBufferSize stored_runtime d |}
      false None
    = Some (0%Z, written, None) /\
    length (region written) = length output /\
    (Bytes written <= ZPNG_MaximumBufferSize stored_runtime d)%Z /\
    ZPNG_Decompress stored_runtime written
    = Some (decoded_frame d 1 [0x42]%Z).
Proof.
  intros d output.
  apply (maximum_buffer_accepted stored_runtime d [0x42]%Z output None).
  - exact valid_intra_gray_pixel.
  - exact ZSTD_COMPRESSBOUND_mono.
  - vm_compute. reflexivity.
  - vm_compute. reflexivity.
  - reflexivity.
Defined.

(** The gray pixel, compressed into a buffer the codec allocates. *)
Lemma compress_status_and_buffer_witness :
  exists status buffer dictionary',
    ZPNG_CompressVideoToBuffer stored_runtime None gray_pixel no_buffer
      false None
    = Some (status, buffer, dictionary') /\
    status = 0%Z /\
    (false = false -> dictionary' = None) /\
    (buffer = no_buffer \/
     exists data,
       Data buffer = Some data /\
       (0 <= Bytes buffer <= Z.of_nat (length data))%Z /\
       (magic_of buffer = ZPNG_HEADER_MAGIC \/
        @None ZPNG_ImageData <> None /\
        magic_of buffer = ZPNG_VIDEO_HEADER_MAGIC)).
Proof.
  eexists _, _, _. split; [vm_compute; reflexivity|].
  apply (compress_status_and_buffer stored_runtime None gray_pixel no_buffer
           false None).
  vm_compute. reflexivity.
Defined.

(** A buffer that starts with [00 00]. *)
Lemma decompress_video_rejects_witness :
  ZPNG_DecompressVideo stored_runtime (Some gray_pixel)
    {| Data := Some [0; 0; 1; 0; 1; 0; 1; 1; 0x42]%Z; Bytes := 9 |}
  = Some rejected.
Proof.
  apply decompress_video_rejects.
  - intros data [= <-]. simpl. lia.
  - right. right. split; vm_compute; discriminate.
Defined.

(** The header of the gray pixel before a payload of 1002 bytes, more
    than the 1001 the decoder has room for. *)
Lemma failed_decode_keeps_header_witness :
  ZPNG_DecompressVideo stored_runtime None
    (frame ZPNG_HEADER_MAGIC gray_pixel (replicate 1002 0%Z) [])
  = Some {| Buffer := {| Data := None; Bytes := 0 |};
            BytesPerChannel := 1;
            Channels := 1;
            WidthPixels := 1;
            HeightPixels := 1;
            StrideBytes := 1;
            IsIFrame := 1 |}.
Proof.
  apply (failed_decode_keeps_header stored_runtime None gray_pixel
           ZPNG_HEADER_MAGIC 1 (replicate 1002 0%Z) []).
  - unfold sizes_fit. repeat split; vm_compute; congruence.
  - left. split; reflexivity.
  - right. left. vm_compute. reflexivity.
Defined.

(** The frame of the gray pixel. *)
Lemma decompress_result_witness :
  exists d',
    ZPNG_DecompressVideo stored_runtime None
      (frame ZPNG_HEADER_MAGIC gray_pixel [0x42]%Z []) = Some d' /\
    (IsIFrame d' = 1%Z \/
     IsIFrame d' = 0%Z /\ @None ZPNG_ImageData <> None /\
     magic_of (frame ZPNG_HEADER_MAGIC gray_pixel [0x42]%Z [])
     = ZPNG_VIDEO_HEADER_MAGIC) /\
    (Data (Buffer d') = None -> Bytes (Buffer d') = 0%Z) /\
    (Data (Buffer d') <> None ->
     Bytes (Buffer d')
     = u32 (pixel_bytes d' * u32 (WidthPixels d' * HeightPixels d')) /\
     StrideBytes d' = u32 (WidthPixels d' * Channels d')).
Proof.
  eexists. split; [vm_compute; reflexivity|].
  apply (decompress_result stored_runtime None
           (frame ZPNG_HEADER_MAGIC gray_pixel [0x42]%Z [])).
  vm_compute. reflexivity.
Defined.

(** A buffer of nine bytes. *)
Lemma freed_buffer_is_rejected_witness :
  let b := {| Data := Some [0xF8; 0xFB; 1; 0; 1; 0; 1; 1; 0x42]%Z;
              Bytes := 9 |} in
  Data no_buffer = None /\
  (Data b <> None -> Bytes no_buffer = 0%Z) /\
  ZPNG_Free (Some no_buffer) = Some no_buffer /\
  ZPNG_DecompressVideo stored_runtime None no_buffer = Some rejected.
Proof.
  intros b.
  apply (freed_buffer_is_rejected stored_runtime None b no_buffer).
  reflexivity.
Defined.

(** A header of 2 by 1 pixels of three channels before three bytes that
    are not a frame. *)
Lemma decompress_stays_in_bounds_witness :
  let data := [0xF8; 0xFB; 2; 0; 1; 0; 3; 1; 9; 9; 9]%Z in
  exists d',
    ZPNG_Decompress stored_runtime {| Data := Some data; Bytes := 11 |}
    = Some d' /\
    forall mem, Data (Buffer d') = Some mem ->
      Z.of_nat (length mem) = Bytes (Buffer d').
Proof.
  intros data.
  apply (decompress_stays_in_bounds stored_runtime data 11).
  - repeat constructor; unfold is_byte; lia.
  - vm_compute. split; congruence.
  - vm_compute. congruence.
  - vm_compute. reflexivity.
Defined.

(** The RGB row with a stride of 100 and the intra flag cleared, against
    a reference of another shape with the same buffer. *)
Lemma codec_reads_buffers_and_shape_witness :
  let ref := [1; 2; 3; 4; 5; 6]%Z in
  let d' := {| Buffer := Buffer rgb_row;
               BytesPerChannel := 1; Channels := 3;
               WidthPixels := 2; HeightPixels := 1;
               StrideBytes := 100; IsIFrame := 0 |} in
  ZPNG_CompressVideoToBuffer stored_runtime (Some (image 6 1 1 1 ref)) d'
    no_buffer false None
  = ZPNG_CompressVideoToBuffer stored_runtime (Some (image 2 1 3 1 ref))
      rgb_row no_buffer false None /\
  ZPNG_DecompressVideo stored_runtime (Some (image 6 1 1 1 ref)) no_buffer
  = ZPNG_DecompressVideo stored_runtime (Some (image 2 1 3 1 ref)) no_buffer.
Proof.
  intros ref d'.
  apply (codec_reads_buffers_and_shape stored_runtime
           (Some (image 2 1 3 1 ref)) (Some (image 6 1 1 1 ref)) rgb_row d'
           no_buffer false None no_buffer);
    reflexivity.
Defined.
